(** * webciel-plugin: a shallow embedding of the framework and its request helper

    The development follows the TypeScript sources module by module.
    - [JsString]: the string and regular-expression primitives the code
      calls ([String.prototype.replace], [replaceAll], [split],
      [RegExp.prototype.exec] with the [g] flag) and the three expressions
      of the sources;
    - [Effects]: how an asynchronous function ends (its promise is
      fulfilled, rejected, or never settles) and the state-passing monad the
      model threads this through;
    - [Framework]: [logger.ts], [registry.ts], [locale.ts], [icons.ts] and
      [load.ts] over one page state;
    - [Api]: [api.ts] over a session store, a clock and a network;
    - [Injector]: [injector.ts] over the tabs, the files and the scripting
      interface of the extension.
    The vocabulary of the statements ([Fragment], [History], [Stages],
    [Observed], [Keys], [Markers], [Clock]) and sample inputs ([Samples],
    [Cases]) follow, then the properties ([StringFacts], [MatcherFacts],
    [LocaleFacts], [RegistryFacts], [LoadFacts], [ApiFacts], and, for what
    these leave out, [RegistryProperties], [LocaleProperties],
    [LoadProperties], [ScriptProperties], [IncludeProperties],
    [PageProperties], [ApiProperties], [InjectorFacts]).

    JavaScript strings are modelled as [string]: every character is one code
    unit, restricted to the range 0-255. *)

From Stdlib Require Import ZArith Ascii Lia Bool.
From Stdlib Require String.
From Stdlib Require Import Numbers.DecimalString.
From stdpp Require Import gmap strings list.

(** The double quote character, for messages that contain one. *)
Definition dquote : string := String "034"%char EmptyString.

(** `"${x}"` inside a template literal. *)
Definition quoted (s : string) : string := dquote +:+ s +:+ dquote.

(* ================================================================== *)
(** * String and regular-expression primitives *)
(* ================================================================== *)
Module JsString.

(** [\s]: WhiteSpace and LineTerminator code units below 256
    (tab, line feed, vertical tab, form feed, carriage return, space,
    no-break space). *)
Definition is_space (c : ascii) : bool :=
  let n := N_of_ascii c in
  ((9 <=? n) && (n <=? 13) || (n =? 32) || (n =? 160))%N.

Definition is_digit (c : ascii) : bool :=
  let n := N_of_ascii c in ((48 <=? n) && (n <=? 57))%N.

(** [\w]: letters, digits and the underscore. *)
Definition is_word (c : ascii) : bool :=
  let n := N_of_ascii c in
  ((65 <=? n) && (n <=? 90) || (97 <=? n) && (n <=? 122) || (n =? 95))%N
  || is_digit c.

(** The class [[\w\d_.]] of the translation token. *)
Definition is_key_char (c : ascii) : bool :=
  is_word c || is_digit c || Ascii.eqb c "_"%char || Ascii.eqb c "."%char.

(** The class of the two quote characters, single and double. *)
Definition is_quote (c : ascii) : bool :=
  Ascii.eqb c "'"%char || Ascii.eqb c "034"%char.

Definition not_quote (c : ascii) : bool := negb (is_quote c).

(** [strip_prefix p s]: the rest of [s] after the literal [p], when [s]
    starts with [p]. *)
Fixpoint strip_prefix (p s : string) : option string :=
  match p with
  | EmptyString => Some s
  | String a p' =>
      match s with
      | EmptyString => None
      | String b s' => if Ascii.eqb a b then strip_prefix p' s' else None
      end
  end.

(** A greedy run [c*] of a character class: the longest prefix in the class
    and the rest. *)
Fixpoint span (f : ascii -> bool) (s : string) : string * string :=
  match s with
  | EmptyString => (EmptyString, EmptyString)
  | String c s' =>
      if f c then let '(run, rest) := span f s' in (String c run, rest)
      else (EmptyString, s)
  end.

Fixpoint take (n : nat) (s : string) : string :=
  match n, s with
  | S k, String c s' => String c (take k s')
  | _, _ => EmptyString
  end.

Fixpoint drop (n : nat) (s : string) : string :=
  match n, s with
  | S k, String _ s' => drop k s'
  | _, _ => s
  end.

Fixpoint all_chars (f : ascii -> bool) (s : string) : bool :=
  match s with
  | EmptyString => true
  | String c s' => f c && all_chars f s'
  end.

(** ** The expressions of the sources

    A matcher tells, for the text at the current position, the length of the
    match that starts there and its first capture group. In each of the three
    expressions every greedy run is followed by a character outside the class
    of the run, so no backtracking can change the outcome. *)
Definition Matcher := string -> option (nat * string).

(** [<!--\s*KW\(['dq]([^'dq]+)['dq]\)\s*-->] for [KW] one of [include],
    [script] ([dq] stands for the double quote). *)
Definition marker_at (kw : string) : Matcher := fun s =>
  s1 ← strip_prefix "<!--" s;
  let '(_, s2) := span is_space s1 in
  s3 ← strip_prefix (kw +:+ "(") s2;
  match s3 with
  | String q1 s4 =>
      if is_quote q1 then
        let '(name, s5) := span not_quote s4 in
        match name, s5 with
        | String _ _, String q2 s6 =>
            if is_quote q2 then
              s7 ← strip_prefix ")" s6;
              let '(_, s8) := span is_space s7 in
              s9 ← strip_prefix "-->" s8;
              Some (String.length s - String.length s9, name)
            else None
        | _, _ => None
        end
      else None
  | EmptyString => None
  end.

Definition include_at : Matcher := marker_at "include".
Definition script_at : Matcher := marker_at "script".

(** [{{\s*locale\.([\w\d_.]+)\s*}}] *)
Definition token_at : Matcher := fun s =>
  s1 ← strip_prefix "{{" s;
  let '(_, s2) := span is_space s1 in
  s3 ← strip_prefix "locale." s2;
  let '(key, s4) := span is_key_char s3 in
  match key with
  | String _ _ =>
      let '(_, s5) := span is_space s4 in
      s6 ← strip_prefix "}}" s5;
      Some (String.length s - String.length s6, key)
  | EmptyString => None
  end.

(** ** [RegExp.prototype.exec] with the [g] flag

    The search starts at [lastIndex]; a match sets [lastIndex] to its end, a
    failure (or a [lastIndex] beyond the end of the text) resets it to 0. *)
Record RegExpMatch := {
  m_index : nat;      (* match.index *)
  m_text : string;    (* match[0] *)
  m_group : string    (* match[1] *)
}.

(** The first position at or after [i] where the expression matches; [s] is
    the text from position [i] on. *)
Fixpoint search_from (re : Matcher) (i : nat) (s : string) : option RegExpMatch :=
  match re s with
  | Some (n, g) => Some {| m_index := i; m_text := take n s; m_group := g |}
  | None =>
      match s with
      | EmptyString => None
      | String _ s' => search_from re (S i) s'
      end
  end.

Definition exec (re : Matcher) (lastIndex : nat) (str : string)
  : option RegExpMatch * nat :=
  if String.length str <? lastIndex then (None, 0)
  else
    match search_from re lastIndex (drop lastIndex str) with
    | Some m => (Some m, m_index m + String.length (m_text m))
    | None => (None, 0)
    end.

(** ** All matches of a [g] expression, left to right

    What [str.replace(re, callback)] visits, and what a [while (exec)] loop
    over a text that is not modified visits: the matches in order, each
    search starting where the previous match ended. [Keep] is a character
    outside every match. The three expressions only match non-empty text. *)
Inductive Piece :=
  | Keep (c : ascii)
  | Hit (text group : string).

Fixpoint scan (re : Matcher) (skip : nat) (s : string) : list Piece :=
  match s with
  | EmptyString => []
  | String c s' =>
      match skip with
      | S k => scan re k s'
      | O =>
          match re s with
          | Some (S k, g) => Hit (take (S k) s) g :: scan re k s'
          | Some (O, g) => Hit EmptyString g :: Keep c :: scan re 0 s'
          | None => Keep c :: scan re 0 s'
          end
      end
  end.

Definition groups (ps : list Piece) : list string :=
  omap (fun p => match p with Hit _ g => Some g | Keep _ => None end) ps.

(** The groups collected by a loop [while ((match = re.exec(str)) !== null)]
    over a text that is not modified; [None] when [fuel] calls of [exec] were
    not enough. [StringFacts.exec_loop_scan] shows that these are the groups
    [scan] lists. *)
Fixpoint exec_loop (re : Matcher) (fuel lastIndex : nat) (str : string)
  : option (list string) :=
  match fuel with
  | O => None
  | S fuel' =>
      match exec re lastIndex str with
      | (None, _) => Some []
      | (Some m, lastIndex') =>
          cons (m_group m) <$> exec_loop re fuel' lastIndex' str
      end
  end.

(** A match is not empty and lies within the text. *)
Definition proper (re : Matcher) : Prop :=
  forall s n g, re s = Some (n, g) -> 1 <= n <= String.length s.

(** ** [String.prototype.replace] and [replaceAll] with string arguments *)

(** GetSubstitution for a string pattern, which has no capture groups: the
    replacement text may refer to the match ([$&]), to the text before it
    ([$`]) and after it ([$']); [$$] is a dollar sign; every other [$] stands
    for itself. *)
Fixpoint GetSubstitution (matched before after template : string) : string :=
  match template with
  | EmptyString => EmptyString
  | String c rest =>
      if Ascii.eqb c "$"%char then
        match rest with
        | String d rest' =>
            if Ascii.eqb d "$"%char then
              String "$"%char (GetSubstitution matched before after rest')
            else if Ascii.eqb d "&"%char then
              matched +:+ GetSubstitution matched before after rest'
            else if Ascii.eqb d "`"%char then
              before +:+ GetSubstitution matched before after rest'
            else if Ascii.eqb d "'"%char then
              after +:+ GetSubstitution matched before after rest'
            else String c (GetSubstitution matched before after rest)
        | EmptyString => String c EmptyString
        end
      else String c (GetSubstitution matched before after rest)
  end.

(** The first occurrence of [search] in [s]: the text before it and the text
    after it. *)
Fixpoint find_first (search s : string) : option (string * string) :=
  match strip_prefix search s with
  | Some after => Some (EmptyString, after)
  | None =>
      match s with
      | EmptyString => None
      | String c s' =>
          match find_first search s' with
          | Some (before, after) => Some (String c before, after)
          | None => None
          end
      end
  end.

(** [s.replace(search, replacement)]: the first occurrence only. *)
Definition replace (s search replacement : string) : string :=
  match find_first search s with
  | Some (before, after) =>
      before +:+ GetSubstitution search before after replacement +:+ after
  | None => s
  end.

(** [s.replaceAll(search, replacement)]: every occurrence, found left to
    right in the original text, the next search starting after the previous
    occurrence. [before] is the original text up to the current position. *)
Fixpoint replaceAll_from (search replacement before : string) (skip : nat)
    (s : string) : string :=
  match s with
  | EmptyString =>
      match search with
      | EmptyString => GetSubstitution search before EmptyString replacement
      | String _ _ => EmptyString
      end
  | String c s' =>
      let before' := before +:+ String c EmptyString in
      match skip with
      | S k => replaceAll_from search replacement before' k s'
      | O =>
          match strip_prefix search s with
          | Some after =>
              GetSubstitution search before after replacement +:+
              match String.length search with
              | O => String c (replaceAll_from search replacement before' 0 s')
              | S k => replaceAll_from search replacement before' k s'
              end
          | None => String c (replaceAll_from search replacement before' 0 s')
          end
      end
  end.

Definition replaceAll (s search replacement : string) : string :=
  replaceAll_from search replacement EmptyString 0 s.

(** [s.split(sep)] for a one-character separator. *)
Fixpoint split (sep : ascii) (s : string) : list string :=
  match s with
  | EmptyString => [EmptyString]
  | String c s' =>
      if Ascii.eqb c sep then EmptyString :: split sep s'
      else
        match split sep s' with
        | part :: parts => String c part :: parts
        | [] => [String c EmptyString]
        end
  end.

(** A non-empty string is truthy. *)
Definition nonempty (s : string) : bool :=
  match s with EmptyString => false | String _ _ => true end.

End JsString.

(* ================================================================== *)
(** * Results of asynchronous functions *)
(* ================================================================== *)
Module Effects.

(** How a call of an [async] function ends, with the state it leaves: its
    promise is fulfilled with a value, rejected with an error (an exception
    thrown inside the function rejects it), or never settles. An error is
    represented by its message. [OutOfFuel] is not an outcome of the program:
    it says that the bound given to a loop of the model was too small. *)
Inductive Res (St A : Type) : Type :=
  | Resolved (a : A) (s : St)
  | Rejected (e : string) (s : St)
  | Pending (s : St)
  | OutOfFuel.
Arguments Resolved {St A} a s.
Arguments Rejected {St A} e s.
Arguments Pending {St A} s.
Arguments OutOfFuel {St A}.

Definition M (St A : Type) : Type := St -> Res St A.

Definition ret {St A} (a : A) : M St A := fun s => Resolved a s.

Definition bind {St A B} (m : M St A) (k : A -> M St B) : M St B := fun s =>
  match m s with
  | Resolved a s' => k a s'
  | Rejected e s' => Rejected e s'
  | Pending s' => Pending s'
  | OutOfFuel => OutOfFuel
  end.

Definition throw {St A} (e : string) : M St A := fun s => Rejected e s.

Definition gets {St A} (f : St -> A) : M St A := fun s => Resolved (f s) s.

Definition modify {St} (f : St -> St) : M St unit := fun s => Resolved tt (f s).

(** [try { body } catch (error) { handler }] *)
Definition try_catch {St A} (body : M St A) (handler : string -> M St A)
  : M St A := fun s =>
  match body s with
  | Rejected e s' => handler e s'
  | r => r
  end.

(** [for (const x of xs) { body }] *)
Fixpoint for_of {St A} (xs : list A) (body : A -> M St unit) : M St unit :=
  match xs with
  | [] => ret tt
  | x :: xs' => bind (body x) (fun _ => for_of xs' body)
  end.

(** The state a result leaves, when the model's bound was large enough. *)
Definition state_of {St A} (r : Res St A) : option St :=
  match r with
  | Resolved _ s | Rejected _ s | Pending s => Some s
  | OutOfFuel => None
  end.

Definition is_rejected {St A} (r : Res St A) : bool :=
  match r with Rejected _ _ => true | _ => false end.

End Effects.
Import Effects.

Declare Scope js_scope.
Delimit Scope js_scope with js.
Notation "x <- c1 ;; c2" := (bind c1 (fun x => c2))
  (at level 100, c1 at next level, right associativity) : js_scope.
Notation "c1 ;; c2" := (bind c1 (fun _ => c2))
  (at level 100, right associativity) : js_scope.

(** An argument of a function that tests [typeof] at run time: a value of the
    declared type, or a value of another type, shown as text. *)
Inductive Dyn (A : Type) : Type :=
  | Typed (a : A)
  | Untyped (shown : string).
Arguments Typed {A} a.
Arguments Untyped {A} shown.

(* ================================================================== *)
(** * The framework: logger, registry, locale, icons, load *)
(* ================================================================== *)
Module Framework.

(** ** logger.ts *)
Inductive Level := Log | Info | Warn | Error | Debug.

(** An argument of a console call: a text, an array of texts, or an object
    shown by its fields. *)
Inductive LogArg :=
  | Txt (s : string)
  | Arr (items : list string)
  | Obj (fields : list (string * string)).

Record LogLine := {
  line_level : Level;
  line_tag : string;
  line_args : list LogArg
}.

(** [Logger._format]; [prefix] is the logger's prefix. *)
Definition _format (prefix caller : string) : string :=
  let label :=
    if JsString.nonempty caller then prefix +:+ ":" +:+ caller else prefix in
  "[webciel-plugin:" +:+ label +:+ "]".

Definition line (lv : Level) (prefix caller : string) (args : list LogArg)
  : LogLine :=
  {| line_level := lv; line_tag := _format prefix caller; line_args := args |}.

(** ** registry.ts: entries *)

(** How a call of an [onMount] function ends: it returns (nothing, or a
    promise that is fulfilled), throws, or returns a promise that is rejected
    or never settles. What the function does to the page is outside the
    model; the model records the call. *)
Inductive Completion :=
  | Returns
  | Throws (e : string)
  | ReturnsRejected (e : string)
  | ReturnsPending.

Record OnMountFn := {
  fn_id : string;
  fn_completes : Completion
}.

Record RegistryEntry := {
  fn : OnMountFn;
  async : bool
}.

(** One call [Register(name, fn, { async })]. *)
Record Registration := {
  reg_name : Dyn string;
  reg_fn : Dyn OnMountFn;
  reg_async : option bool
}.

(** ** locale.ts: the Locale type, [string | Locale] at every key *)
#[warnings="-register-all"]
Inductive LocaleVal :=
  | LStr (s : string)
  | LObj (fields : list (string * LocaleVal)).

(** ** The page *)
Inductive Node :=
  | Markup (html : string)     (* content set through innerHTML *)
  | TextNode (text : string).  (* a string given to append or prepend *)

Record Element := {
  children : list Node;
  attributes : gmap string string
}.

(** The state the framework reads and writes: [sessionStorage], the script
    elements of the document (their [src], in document order), the elements
    of the document by id, the module variables [Registries],
    [registeredLocales] and [fallbackLocale], and what can be observed of a
    run: the console, the URLs given to [fetch], the [onMount] functions
    called and the calls of [feather.replace]. *)
Record World := {
  sessionStorage : gmap string string;
  scripts : list string;
  elements : gmap string Element;
  Registries : gmap string RegistryEntry;
  registeredLocales : list (string * LocaleVal);
  fallbackLocale : string;
  console : list LogLine;
  fetched : list string;
  mounted : list OnMountFn;
  icon_refreshes : nat
}.

Definition set_sessionStorage (f : gmap string string -> gmap string string)
    (w : World) : World :=
  {| sessionStorage := f (sessionStorage w); scripts := scripts w;
     elements := elements w; Registries := Registries w;
     registeredLocales := registeredLocales w;
     fallbackLocale := fallbackLocale w; console := console w;
     fetched := fetched w; mounted := mounted w;
     icon_refreshes := icon_refreshes w |}.

Definition set_scripts (f : list string -> list string) (w : World) : World :=
  {| sessionStorage := sessionStorage w; scripts := f (scripts w);
     elements := elements w; Registries := Registries w;
     registeredLocales := registeredLocales w;
     fallbackLocale := fallbackLocale w; console := console w;
     fetched := fetched w; mounted := mounted w;
     icon_refreshes := icon_refreshes w |}.

Definition set_elements (f : gmap string Element -> gmap string Element)
    (w : World) : World :=
  {| sessionStorage := sessionStorage w; scripts := scripts w;
     elements := f (elements w); Registries := Registries w;
     registeredLocales := registeredLocales w;
     fallbackLocale := fallbackLocale w; console := console w;
     fetched := fetched w; mounted := mounted w;
     icon_refreshes := icon_refreshes w |}.

Definition set_Registries
    (f : gmap string RegistryEntry -> gmap string RegistryEntry)
    (w : World) : World :=
  {| sessionStorage := sessionStorage w; scripts := scripts w;
     elements := elements w; Registries := f (Registries w);
     registeredLocales := registeredLocales w;
     fallbackLocale := fallbackLocale w; console := console w;
     fetched := fetched w; mounted := mounted w;
     icon_refreshes := icon_refreshes w |}.

Definition set_locales (ls : list (string * LocaleVal)) (fallback : string)
    (w : World) : World :=
  {| sessionStorage := sessionStorage w; scripts := scripts w;
     elements := elements w; Registries := Registries w;
     registeredLocales := ls; fallbackLocale := fallback;
     console := console w; fetched := fetched w; mounted := mounted w;
     icon_refreshes := icon_refreshes w |}.

Definition set_console (f : list LogLine -> list LogLine) (w : World) : World :=
  {| sessionStorage := sessionStorage w; scripts := scripts w;
     elements := elements w; Registries := Registries w;
     registeredLocales := registeredLocales w;
     fallbackLocale := fallbackLocale w; console := f (console w);
     fetched := fetched w; mounted := mounted w;
     icon_refreshes := icon_refreshes w |}.

Definition set_fetched (f : list string -> list string) (w : World) : World :=
  {| sessionStorage := sessionStorage w; scripts := scripts w;
     elements := elements w; Registries := Registries w;
     registeredLocales := registeredLocales w;
     fallbackLocale := fallbackLocale w; console := console w;
     fetched := f (fetched w); mounted := mounted w;
     icon_refreshes := icon_refreshes w |}.

Definition set_mounted (f : list OnMountFn -> list OnMountFn) (w : World)
  : World :=
  {| sessionStorage := sessionStorage w; scripts := scripts w;
     elements := elements w; Registries := Registries w;
     registeredLocales := registeredLocales w;
     fallbackLocale := fallbackLocale w; console := console w;
     fetched := fetched w; mounted := f (mounted w);
     icon_refreshes := icon_refreshes w |}.

Definition set_icon_refreshes (f : nat -> nat) (w : World) : World :=
  {| sessionStorage := sessionStorage w; scripts := scripts w;
     elements := elements w; Registries := Registries w;
     registeredLocales := registeredLocales w;
     fallbackLocale := fallbackLocale w; console := console w;
     fetched := fetched w; mounted := mounted w;
     icon_refreshes := f (icon_refreshes w) |}.

(** [logger.log], [logger.warn], [logger.error] of the logger with the given
    prefix: one more line on the console. *)
Definition emit (lv : Level) (prefix caller : string) (args : list LogArg)
    (w : World) : World :=
  set_console (fun c => c ++ [line lv prefix caller args]) w.

Definition logger (lv : Level) (prefix caller : string) (args : list LogArg)
  : M World unit :=
  modify (emit lv prefix caller args).

(** ** The browser and the extension, as the framework sees them *)

(** What appending a script element does: the script fails to load (its
    error event fires, its load event never does), or it loads and runs; a
    script that runs is modelled by the calls of [Register] it makes. *)
Inductive ScriptFile :=
  | LoadFails
  | Runs (registrations : list Registration).

Record Env := {
  (* chrome.i18n.getUILanguage?.(): None when the function is absent *)
  getUILanguage : option string;
  (* chrome.runtime.getURL *)
  getURL : string -> string;
  (* the text that fetch(url) followed by response.text() gives; None when
     fetch rejects *)
  resource : string -> option string;
  (* the script behind a src *)
  script_file : string -> ScriptFile
}.

Section WithEnv.
Variable E : Env.
Local Open Scope js_scope.

(** ** registry.ts *)

(** [Register(name, fn, options)] *)
Definition Register (r : Registration) (w : World) : World :=
  match reg_name r with
  | Untyped shown => emit Warn "registry" "Register"
                       [Txt ("Invalid name: " +:+ quoted shown)] w
  | Typed name =>
      match reg_fn r with
      | Untyped _ => emit Warn "registry" "Register"
                       [Txt ("Invalid onMount function for " +:+ quoted name)] w
      | Typed f =>
          let a := default false (reg_async r) in
          let w1 := emit Log "registry" "Register"
                      [Obj [("name", name);
                            ("async", if a then "true" else "false")]] w in
          set_Registries <[name := {| fn := f; async := a |}]> w1
      end
  end.

(** [entry.async ? await entry.fn() : entry.fn()]: the call is recorded; a
    promise returned by a function that is not marked [async] is dropped. *)
Definition call_entry (entry : RegistryEntry) : M World unit :=
  modify (set_mounted (fun l => l ++ [fn entry])) ;;
  match fn_completes (fn entry), async entry with
  | Returns, _ => ret tt
  | Throws e, _ => throw e
  | ReturnsRejected e, true => throw e
  | ReturnsPending, true => fun w => Pending w
  | ReturnsRejected _, false => ret tt
  | ReturnsPending, false => ret tt
  end.

(** [Execute(name)]. Entries are the own properties of [Registries]: a name
    inherited from [Object.prototype] gives a value without [fn], which
    [Execute] treats like a missing entry. *)
Definition Execute (name : Dyn string) : M World unit :=
  match name with
  | Untyped shown =>
      logger Warn "registry" "Execute" [Txt ("Invalid name: " +:+ quoted shown)]
  | Typed name =>
      entry <- gets (fun w => Registries w !! name) ;;
      match entry with
      | None =>
          logger Warn "registry" "Execute"
            [Txt ("No function found for " +:+ quoted name)]
      | Some entry =>
          logger Log "registry" "Execute"
            [Txt ("Executing " +:+ quoted name +:+ " (async: "
                  +:+ (if async entry then "true" else "false") +:+ ")")] ;;
          call_entry entry ;;
          logger Log "registry" "Execute" [Txt ("Done: " +:+ quoted name)]
      end
  end.

(** ** icons.ts *)
Definition RefreshIcons : M World unit :=
  modify (set_icon_refreshes S) ;;
  logger Log "icons" "RefreshIcons" [Txt "All icons refreshed!"].

(** ** locale.ts *)

Fixpoint assoc {A} (key : string) (fields : list (string * A)) : option A :=
  match fields with
  | [] => None
  | (k, v) :: rest => if String.eqb k key then Some v else assoc key rest
  end.

(** A Locale value is truthy unless it is the empty string. *)
Definition truthy_locale (v : LocaleVal) : bool :=
  match v with
  | LStr s => JsString.nonempty s
  | LObj _ => true
  end.

Definition registerLocales (locales : list (string * LocaleVal))
    (fallback : string) : M World unit :=
  modify (set_locales locales fallback) ;;
  logger Log "locale" "registerLocales"
    [Arr (map fst locales); Txt "Fallback:"; Txt fallback].

(** [getLocale()]. The table is looked up by own property: language tags and
    locale codes are taken not to be names of properties that every object
    inherits ([constructor], [toString], ...). *)
Definition getLocale (w : World) : string :=
  let raw :=
    match getUILanguage E with
    | Some l => if JsString.nonempty l then l else fallbackLocale w
    | None => fallbackLocale w
    end in
  let lang := hd EmptyString (JsString.split "-"%char raw) in
  match assoc lang (registeredLocales w) with
  | Some v => if truthy_locale v then lang else fallbackLocale w
  | None => fallbackLocale w
  end.

Definition useLocale (w : World) : LocaleVal :=
  match assoc (getLocale w) (registeredLocales w) with
  | Some v => if truthy_locale v then v else LObj []
  | None => LObj []
  end.

(** The loop of [getNestedValue] over the parts of the key. Only own
    properties are looked up: a property inherited from [Object.prototype]
    is a function or leads to [null], and from neither does the loop reach a
    string. *)
Fixpoint walk (current : LocaleVal) (parts : list string) : option string :=
  match parts with
  | [] =>
      match current with
      | LStr s => Some s
      | LObj _ => None
      end
  | part :: rest =>
      match current with
      | LObj fields =>
          match assoc part fields with
          | Some v => walk v rest
          | None => None
          end
      | LStr _ => None
      end
  end.

Definition getNestedValue (locale : LocaleVal) (key : string) : option string :=
  walk locale (JsString.split "."%char key).

(** The callback of [applyTranslations] on one match: the replacement text,
    and the warning when the key does not resolve. *)
Definition translate_token (intl : LocaleVal) (key : string)
  : string * list LogLine :=
  match getNestedValue intl key with
  | Some value => (value, [])
  | None =>
      ("locale." +:+ key,
       [line Warn "locale" "registerLocales"
          [Txt ("Missing translation: locale." +:+ key)]])
  end.

Fixpoint translate_pieces (intl : LocaleVal) (ps : list JsString.Piece)
  : string * list LogLine :=
  match ps with
  | [] => (EmptyString, [])
  | JsString.Keep c :: rest =>
      let '(out, warnings) := translate_pieces intl rest in
      (String c out, warnings)
  | JsString.Hit _ key :: rest =>
      let '(text, w1) := translate_token intl key in
      let '(out, w2) := translate_pieces intl rest in
      (text +:+ out, w1 ++ w2)
  end.

(** [applyTranslations(html)] *)
Definition applyTranslations (html : string) : M World string := fun w =>
  let intl := useLocale w in
  let '(out, warnings) :=
    translate_pieces intl (JsString.scan JsString.token_at 0 html) in
  Resolved out (set_console (fun c => c ++ warnings) w).

(** ** load.ts *)

Inductive LoadMode := append | prepend | innerHTML.

(** The options of [LoadTemplate]. [element] is the id of the target
    element, [None] when the caller passes [null] (what [getElementById]
    gives for an id that is not in the document); [replacements] are the
    entries of the object, in the order of [Object.entries]. *)
Record LoadTemplateOptions := {
  element : option string;
  mode : LoadMode;
  replacements : list (string * string)
}.

Definition isScriptAlreadyLoaded (src : string) (w : World) : bool :=
  bool_decide (src ∈ scripts w).

Definition cachedViewKey (path : string) : string :=
  "[commanders_act_assistant:framework:load:" +:+ path +:+ "]".

(** [if (item)] for an item read from the store: absent ([null]) and the
    empty string are both falsy. *)
Definition truthy_item (item : option string) : option string :=
  match item with
  | Some s => if JsString.nonempty s then Some s else None
  | None => None
  end.

(** [fetchWithCache(path)]. The store is taken to have room for the text. *)
Definition fetchWithCache (path : string) : M World string := fun w =>
  let cacheKey := cachedViewKey path in
  match truthy_item (sessionStorage w !! cacheKey) with
  | Some cachedItem => Resolved cachedItem w
  | None =>
      let url := getURL E path in
      let w1 := set_fetched (fun l => l ++ [url]) w in
      match resource E url with
      | None => Rejected "TypeError: Failed to fetch" w1
      | Some text =>
          Resolved text (set_sessionStorage <[cacheKey := text]> w1)
      end
  end.

(** The loop of [LoadScripts]: for each marker, in order, a script element
    is appended unless one with the same [src] is in the document.
    [started] are the sources of the elements appended by this call, the
    ones whose load event the call waits for. *)
Fixpoint append_scripts (basePath : string) (names : list string)
    (started : list string) (w : World) : list string * World :=
  match names with
  | [] => (started, w)
  | scriptName :: rest =>
      let scriptSrc := getURL E (basePath +:+ "/" +:+ scriptName +:+ ".js") in
      if isScriptAlreadyLoaded scriptSrc w then
        append_scripts basePath rest started w
      else
        append_scripts basePath rest (started ++ [scriptSrc])
          (set_scripts (fun l => l ++ [scriptSrc]) w)
  end.

(** [await Promise.all(scriptPromises)]: every script that loads runs; the
    promise of a script that fails to load has no way to settle (only
    [onload] is set), and then neither has the whole. Scripts are taken to
    run in the order of their elements. *)
Fixpoint await_scripts (started : list string) (all_loaded : bool)
    (w : World) : Res World unit :=
  match started with
  | [] => if all_loaded then Resolved tt w else Pending w
  | src :: rest =>
      match script_file E src with
      | LoadFails => await_scripts rest false w
      | Runs registrations =>
          await_scripts rest all_loaded
            (fold_left (fun w r => Register r w) registrations w)
      end
  end.

(** [LoadScripts(htmlContent, basePath)]. The text is not modified while the
    loop of [exec] runs over it, so the loop visits the markers that
    [JsString.scan] lists. The document is taken to have a body to append
    to. *)
Definition LoadScripts (htmlContent basePath : string) : M World unit :=
  fun w =>
  let names := JsString.groups (JsString.scan JsString.script_at 0 htmlContent) in
  let '(started, w1) := append_scripts basePath names [] w in
  await_scripts started true w1.

(** The loop of [LoadIncludes]; [fuel] bounds the number of calls of [exec].
    The expression keeps its [lastIndex] from one call to the next while
    [htmlContent] is replaced in between. *)
Fixpoint LoadIncludes_loop (fuel lastIndex : nat) (htmlContent : string)
    (includes : list string) : M World (string * list string) :=
  match fuel with
  | O => fun _ => OutOfFuel
  | S fuel' =>
      match JsString.exec JsString.include_at lastIndex htmlContent with
      | (None, _) => ret (htmlContent, includes)
      | (Some m, lastIndex') =>
          let includeName := JsString.m_group m in
          let includeRegistry := "includes/" +:+ includeName in
          includeContent <-
            fetchWithCache ("includes/" +:+ includeName +:+ "/index.html") ;;
          includeContent <- applyTranslations includeContent ;;
          LoadScripts includeContent includeRegistry ;;
          let htmlContent :=
            JsString.replace htmlContent (JsString.m_text m) includeContent in
          LoadIncludes_loop fuel' lastIndex' htmlContent
            (includes ++ [includeRegistry])
      end
  end.

(** [LoadIncludes(htmlContent)]: the text with the markers replaced, and the
    registry keys of the includes in the order they were resolved. *)
Definition LoadIncludes (fuel : nat) (htmlContent : string)
  : M World (string * list string) :=
  LoadIncludes_loop fuel 0 htmlContent [].

(** [SetCurrentPage(name)] *)
Definition SetCurrentPage (name : string) : M World unit :=
  rootElement <- gets (fun w => elements w !! "_root") ;;
  match rootElement with
  | None =>
      logger Error "load" "SetCurrentPage"
        [Txt ("Element with ID " +:+ quoted "_root" +:+ " not found")]
  | Some el =>
      modify (set_elements
        <["_root" := {| children := children el;
                        attributes := <["data-current-page" := name]>
                                        (attributes el) |}]>)
  end.

(** [GetCurrentPage()] *)
Definition GetCurrentPage : M World (option string) :=
  rootElement <- gets (fun w => elements w !! "_root") ;;
  match rootElement with
  | None =>
      logger Error "load" "GetCurrentPage"
        [Txt ("Element with ID " +:+ quoted "_root" +:+ " not found")] ;;
      ret None
  | Some el => ret (attributes el !! "data-current-page")
  end.

(** [if (Registries?.[key]) await Execute(key)] *)
Definition execute_if_registered (key : string) : M World unit :=
  entry <- gets (fun w => Registries w !! key) ;;
  match entry with
  | Some _ => Execute (Typed key)
  | None => ret tt
  end.

(** [element.innerHTML = html], [element.append(html)],
    [element.prepend(html)] on the element with the given id. *)
Definition insert_into (id : string) (m : LoadMode) (html : string)
    (w : World) : World :=
  set_elements (alter (fun el =>
    {| children :=
         match m with
         | innerHTML => [Markup html]
         | append => children el ++ [TextNode html]
         | prepend => TextNode html :: children el
         end;
       attributes := attributes el |}) id) w.

(** [LoadPage(name)] *)
Definition LoadPage (fuel : nat) (name : string) : M World unit :=
  try_catch
    (htmlContent <- fetchWithCache ("pages/" +:+ name +:+ "/index.html") ;;
     htmlContent <- applyTranslations htmlContent ;;
     loaded <- LoadIncludes fuel htmlContent ;;
     let '(replacedHtml, includes) := loaded in
     rootElement <- gets (fun w => elements w !! "_root") ;;
     match rootElement with
     | None => throw ("Element with ID " +:+ quoted "_root" +:+ " not found")
     | Some _ =>
         let pageRegistry := "pages/" +:+ name in
         LoadScripts replacedHtml pageRegistry ;;
         modify (insert_into "_root" innerHTML replacedHtml) ;;
         execute_if_registered pageRegistry ;;
         for_of includes execute_if_registered ;;
         RefreshIcons ;;
         SetCurrentPage name
     end)
    (fun error =>
       logger Error "load" "LoadPage"
         [Txt ("Error loading page: " +:+ name); Obj [("error", error)]]).

(** [LoadTemplate(templatePath, options)] *)
Definition LoadTemplate (templatePath : string) (options : LoadTemplateOptions)
  : M World unit :=
  try_catch
    (htmlContent <-
       fetchWithCache ("templates/" +:+ templatePath +:+ "/index.html") ;;
     let templateRegistry := "templates/" +:+ templatePath in
     LoadScripts htmlContent templateRegistry ;;
     let htmlContent :=
       fold_left (fun html kv =>
                    JsString.replaceAll html ("{" +:+ fst kv +:+ "}") (snd kv))
         (replacements options) htmlContent in
     htmlContent <- applyTranslations htmlContent ;;
     target <- gets (fun w => element options ≫= fun id =>
                              if bool_decide (is_Some (elements w !! id))
                              then Some id else None) ;;
     match target with
     | None => throw "TypeError: Cannot read properties of null"
     | Some id =>
         modify (insert_into id (mode options) htmlContent) ;;
         execute_if_registered templateRegistry ;;
         RefreshIcons
     end)
    (fun error =>
       logger Error "load" "LoadTemplate"
         [Txt ("Failed to load template: " +:+ templatePath);
          Obj [("error", error)]]).

End WithEnv.
End Framework.

(* ================================================================== *)
(** * The request helper: api.ts *)
(* ================================================================== *)
Module Api.
Import Framework.

(** A JavaScript value as it comes out of JSON: [undefined] stands for an
    absent property; numbers are restricted to integers. *)
#[warnings="-register-all"]
Inductive JsVal :=
  | JUndefined
  | JNull
  | JBool (b : bool)
  | JNum (n : Z)
  | JStr (s : string)
  | JArr (items : list JsVal)
  | JObj (fields : list (string * JsVal)).

(** ToBoolean: what [if (v)] and [v ? a : b] test. *)
Definition truthy (v : JsVal) : bool :=
  match v with
  | JUndefined | JNull => false
  | JBool b => b
  | JNum n => negb (n =? 0)%Z
  | JStr s => JsString.nonempty s
  | JArr _ | JObj _ => true
  end.

(** [v.key] for a value that is neither [null] nor [undefined]. *)
Definition property (v : JsVal) (key : string) : JsVal :=
  match v with
  | JObj fields => default JUndefined (assoc key fields)
  | _ => JUndefined
  end.

Definition Z_to_string (z : Z) : string :=
  NilEmpty.string_of_int (Z.to_int z).

Inductive Method := GET | POST | PUT | DELETE.

Definition method_name (m : Method) : string :=
  match m with
  | GET => "GET" | POST => "POST" | PUT => "PUT" | DELETE => "DELETE"
  end.

(** [RequestOptions]: [None] is an absent property. *)
Record RequestOptions := {
  method : option Method;
  body : option JsVal;
  headers : option (gmap string string);
  useCache : option bool
}.

Definition no_options : RequestOptions :=
  {| method := None; body := None; headers := None; useCache := None |}.

(** [RequestInit], the second argument of the browser's [fetch]. *)
Record RequestInit := {
  init_method : Method;
  init_headers : gmap string string;
  init_body : option string
}.

(** [ApiResponse]. The closure [reload] is represented by the arguments of
    the call of [request] it makes. *)
Record ApiResponse := {
  r_method : Method;
  r_url : string;
  r_options : RequestInit;
  data : JsVal;
  status : Z;
  reload : string * RequestOptions
}.

(** The fields of an instance of the class. *)
Record Api := {
  logger_prefix : string;
  baseUrl : string;
  api_headers : gmap string string
}.

(** What the network answers to one call of [fetch]: the promise is rejected,
    or it is fulfilled with a response; [json] is what [response.json()]
    gives, [None] when the body is not JSON. *)
Record Response := {
  resp_status : Z;
  resp_json : option JsVal
}.

Inductive Answer :=
  | NetworkError (e : string)
  | Respond (r : Response).

(** [response.ok]: the status is in the range 200 to 299. *)
Definition ok (r : Response) : bool :=
  ((200 <=? resp_status r) && (resp_status r <=? 299))%Z.

(** The state the helper reads and writes: [sessionStorage], the clock read
    by [Date.now()] (milliseconds), the console, the calls of [fetch] made so
    far, and the answers the network will give to the next calls, each with
    the time it takes. *)
Record Session := {
  storage : gmap string string;
  now : Z;
  console : list LogLine;
  network : list (string * RequestInit);
  inbox : list (Z * Answer)
}.

Definition set_storage (f : gmap string string -> gmap string string)
    (s : Session) : Session :=
  {| storage := f (storage s); now := now s; console := console s;
     network := network s; inbox := inbox s |}.

Definition set_console (f : list LogLine -> list LogLine) (s : Session)
  : Session :=
  {| storage := storage s; now := now s; console := f (console s);
     network := network s; inbox := inbox s |}.

Definition logger (lv : Level) (prefix caller : string) (args : list LogArg)
  : M Session unit :=
  modify (set_console (fun c => c ++ [line lv prefix caller args])).

(** The browser's [fetch(url, options)]: the call is recorded, the next
    answer of the network is consumed and the clock advances by the time the
    exchange took. A network with no answer left rejects the call. *)
Definition window_fetch (url : string) (options : RequestInit)
  : M Session Response := fun s =>
  let calls := network s ++ [(url, options)] in
  match inbox s with
  | [] =>
      Rejected "TypeError: Failed to fetch"
        {| storage := storage s; now := now s; console := console s;
           network := calls; inbox := [] |}
  | (elapsed, answer) :: rest =>
      let s' := {| storage := storage s; now := (now s + elapsed)%Z;
                   console := console s; network := calls; inbox := rest |} in
      match answer with
      | NetworkError e => Rejected e s'
      | Respond r => Resolved r s'
      end
  end.

(** The built-in functions the helper calls: [JSON.parse] ([None] when it
    throws), [JSON.stringify], and ToNumber on strings, arrays and objects
    ([None] is NaN). *)
Record Platform := {
  JSON_parse : string -> option JsVal;
  JSON_stringify : JsVal -> string;
  ToNumber_text : JsVal -> option Z
}.

Section WithPlatform.
Variable P : Platform.
Local Open Scope js_scope.

(** ToNumber, as [Date.now() - timestamp] applies it. *)
Definition ToNumber (v : JsVal) : option Z :=
  match v with
  | JUndefined => None
  | JNull => Some 0%Z
  | JBool b => Some (if b then 1 else 0)%Z
  | JNum n => Some n
  | JStr _ | JArr _ | JObj _ => ToNumber_text P v
  end.

Definition cacheDuration : Z := 60 * 60 * 1000.

(** [new Api({ baseUrl, headers, name })] *)
Definition new_Api (base : string) (hs : option (gmap string string))
    (name : option string) : M Session Api :=
  let prefix := default "API" name in
  logger Log prefix "init" [Obj [("baseUrl", base)]] ;;
  ret {| logger_prefix := prefix; baseUrl := base;
         api_headers := default ∅ hs |}.

(** [getCacheData(cacheKey, useCache)]; [JNull] is the [null] it returns. *)
Definition getCacheData (api : Api) (cacheKey : string) (use : bool)
  : M Session JsVal :=
  if negb use then ret JNull
  else
    cachedItem <- gets (fun s => storage s !! cacheKey) ;;
    match truthy_item cachedItem with
    | None => ret JNull
    | Some item =>
        match JSON_parse P item with
        | None | Some JNull | Some JUndefined =>
            (* JSON.parse throws, or destructuring null throws *)
            logger Warn (logger_prefix api) "getCacheData"
              [Txt "Invalid cache format"] ;;
            ret JNull
        | Some parsed =>
            let data := property parsed "data" in
            let timestamp := property parsed "timestamp" in
            t <- gets now ;;
            if match ToNumber timestamp with
               | Some ts => (t - ts <? cacheDuration)%Z
               | None => false
               end
            then
              logger Log (logger_prefix api) "getCacheData"
                [Txt "Returning cached data"] ;;
              ret data
            else
              logger Log (logger_prefix api) "getCacheData"
                [Txt "Cache expired"] ;;
              ret JNull
        end
    end.

Definition cacheKey_of (url : string) : string :=
  "[webciel-plugin:API:" +:+ url +:+ "]".

(** [{ ...rawOptions, useCache: false }] *)
Definition without_cache (o : RequestOptions) : RequestOptions :=
  {| method := method o; body := body o; headers := headers o;
     useCache := Some false |}.

(** [request(endpoint, rawOptions)]. The store is taken to have room for the
    item. *)
Definition request (api : Api) (endpoint : string) (rawOptions : RequestOptions)
  : M Session ApiResponse :=
  let method_ := default GET (method rawOptions) in
  let body_ :=
    match body rawOptions with
    | None | Some JUndefined => JNull
    | Some b => b
    end in
  let headers_ := default ∅ (headers rawOptions) in
  let useCache_ := default true (useCache rawOptions) in
  let url := baseUrl api +:+ endpoint in
  let options :=
    {| init_method := method_;
       (* a later spread overrides an earlier one; the union keeps the left *)
       init_headers :=
         (if truthy body_
          then {["Content-Type" := "application/json"]} else ∅)
         ∪ headers_ ∪ api_headers api;
       init_body := if truthy body_ then Some (JSON_stringify P body_) else None
    |} in
  logger Log (logger_prefix api) "request"
    [Obj [("method", method_name method_); ("url", url)]] ;;
  let cacheKey := cacheKey_of url in
  cachedData <- getCacheData api cacheKey useCache_ ;;
  if truthy cachedData then
    ret {| r_method := method_; r_url := url; r_options := options;
           data := cachedData; status := 200;
           reload := (endpoint, without_cache rawOptions) |}
  else
    try_catch
      (response <- window_fetch url options ;;
       let status_ := resp_status response in
       if negb (ok response) then
         throw ("HTTP Error: " +:+ Z_to_string status_)
       else
         match resp_json response with
         | None => throw "SyntaxError: the body is not valid JSON"
         | Some JNull | Some JUndefined =>
             throw "TypeError: Cannot read properties of null"
         | Some json =>
             let data_ := property json "data" in
             (if useCache_ then
                t <- gets now ;;
                modify (set_storage
                  <[cacheKey := JSON_stringify P
                      (JObj [("data", data_); ("timestamp", JNum t)])]>)
              else ret tt) ;;
             ret {| r_method := method_; r_url := url; r_options := options;
                    data := data_; status := status_;
                    reload := (endpoint, without_cache rawOptions) |}
         end)
      (fun error =>
         logger Error (logger_prefix api) "request"
           [Txt ("Error [" +:+ method_name method_ +:+ "]");
            Obj [("url", url); ("error", error)]] ;;
         throw error).

(** [response.reload()] *)
Definition call_reload (api : Api) (r : ApiResponse) : M Session ApiResponse :=
  request api (fst (reload r)) (snd (reload r)).

(** [fetch(method, endpoint, options)]: [{ method, ...options }] *)
Definition fetch (api : Api) (m : Method) (endpoint : string)
    (options : RequestOptions) : M Session ApiResponse :=
  request api endpoint
    {| method := match method options with Some m' => Some m' | None => Some m end;
       body := body options; headers := headers options;
       useCache := useCache options |}.

(** [{ ...options, body }] *)
Definition with_body (options : RequestOptions) (b : JsVal) : RequestOptions :=
  {| method := method options; body := Some b; headers := headers options;
     useCache := useCache options |}.

Definition get (api : Api) (endpoint : string) (options : RequestOptions) :=
  fetch api GET endpoint options.
Definition post (api : Api) (endpoint : string) (b : JsVal)
    (options : RequestOptions) :=
  fetch api POST endpoint (with_body options b).
Definition put (api : Api) (endpoint : string) (b : JsVal)
    (options : RequestOptions) :=
  fetch api PUT endpoint (with_body options b).
Definition delete (api : Api) (endpoint : string) (options : RequestOptions) :=
  fetch api DELETE endpoint options.

End WithPlatform.
End Api.

(* ================================================================== *)
(** * The script injector: injector.ts *)
(* ================================================================== *)
Module Injector.
Import Framework.

(** The response of the extension's [fetch] for a script: its status, its
    status text, and what [res.text()] gives, the text or the error its
    promise is rejected with. *)
Record ScriptResponse := {
  res_status : Z;
  res_statusText : string;
  res_text : string + string
}.

Inductive FetchOutcome :=
  | FetchRejects (e : string)
  | FetchResponds (r : ScriptResponse).

(** [res.ok] *)
Definition res_ok (r : ScriptResponse) : bool :=
  ((200 <=? res_status r) && (res_status r <=? 299))%Z.

(** A [ResponseFn]: it returns, or it throws. *)
Inductive ResponseFn :=
  | Replies
  | ReplyThrows (e : string).

(** The extension API as the injector sees it: the tabs that
    [chrome.tabs.query] gives (each with its id, when it has one),
    [chrome.runtime.getURL], the outcome of [fetch] by URL, and how the
    promise of [chrome.scripting.executeScript] ends for a tab, a script
    name and a content ([None]: fulfilled). The injected function runs in
    the page; what it does there is outside the model. *)
Record Chrome := {
  tabs_query : list (option Z);
  runtime_getURL : string -> string;
  script_fetch : string -> FetchOutcome;
  executeScript : Z -> string -> string -> option string
}.

(** What is observed of a run: the console, the responses given to [next],
    the URLs given to [fetch], and the calls of [executeScript] (tab, script
    name, content). *)
Record Browser := {
  console : list LogLine;
  responses : list (string * string);
  requested : list string;
  injections : list (Z * string * string)
}.

Definition set_console (f : list LogLine -> list LogLine) (b : Browser)
  : Browser :=
  {| console := f (console b); responses := responses b;
     requested := requested b; injections := injections b |}.

Definition set_responses (f : list (string * string) -> list (string * string))
    (b : Browser) : Browser :=
  {| console := console b; responses := f (responses b);
     requested := requested b; injections := injections b |}.

Definition set_requested (f : list string -> list string) (b : Browser)
  : Browser :=
  {| console := console b; responses := responses b;
     requested := f (requested b); injections := injections b |}.

Definition set_injections
    (f : list (Z * string * string) -> list (Z * string * string))
    (b : Browser) : Browser :=
  {| console := console b; responses := responses b;
     requested := requested b; injections := f (injections b) |}.

Definition logger (lv : Level) (caller : string) (args : list LogArg)
  : M Browser unit :=
  modify (set_console (fun c => c ++ [line lv "injector" caller args])).

Section WithChrome.
Variable C : Chrome.
Local Open Scope js_scope.

(** [next?.({ status: "error", error })] *)
Definition respond (next : option ResponseFn) (error : string)
  : M Browser unit :=
  match next with
  | None => ret tt
  | Some f =>
      modify (set_responses (fun l => l ++ [("error", error)])) ;;
      match f with
      | Replies => ret tt
      | ReplyThrows e => throw e
      end
  end.

(** [handleActiveTab(callback, next)]; the callback is any asynchronous
    function of the tab id. *)
Definition handleActiveTab (callback : Z -> M Browser unit)
    (next : option ResponseFn) : M Browser unit :=
  logger Log "handleActiveTab" [] ;;
  match tabs_query C with
  | [] => respond next "No active tab found"
  | tab :: _ =>
      match tab with
      | None => respond next "Tab ID is undefined"
      | Some tabId =>
          logger Log "handleActiveTab" [Obj [("tabId", Api.Z_to_string tabId)]] ;;
          callback tabId
      end
  end.

Definition script_url (name : string) : string :=
  runtime_getURL C ("scripts/" +:+ name +:+ ".js").

(** [fetchScript(name)]. The promise of [res.text()] is returned from inside
    the [try] block without being awaited there: when it is rejected, the
    [catch] clause does not see it. *)
Definition fetchScript (name : string) : M Browser string :=
  let path := "scripts/" +:+ name +:+ ".js" in
  let url := runtime_getURL C path in
  logger Log "fetchScript" [Obj [("name", name); ("path", path); ("url", url)]] ;;
  res <- try_catch
    (modify (set_requested (fun l => l ++ [url])) ;;
     match script_fetch C url with
     | FetchRejects e => throw e
     | FetchResponds r =>
         if negb (res_ok r) then
           throw ("[webciel-plugin:injector:fetchScript] Script not found or failed: "
                  +:+ Api.Z_to_string (res_status r)
                  +:+ " (" +:+ res_statusText r +:+ ")")
         else ret r
     end)
    (fun err =>
       logger Error "fetchScript"
         [Obj [("name", name); ("url", url); ("error", err)]] ;;
       throw ("Script " +:+ quoted name +:+ " could not be loaded from " +:+ url)) ;;
  match res_text res with
  | inl text => ret text
  | inr e => throw e
  end.

(** [injectScript(tabId, name)] *)
Definition injectScript (tabId : Z) (name : string) : M Browser unit :=
  content <- fetchScript name ;;
  logger Log "injectScript"
    [Obj [("tabId", Api.Z_to_string tabId); ("name", name)]] ;;
  modify (set_injections (fun l => l ++ [(tabId, name, content)])) ;;
  match executeScript C tabId name content with
  | None => ret tt
  | Some e => throw e
  end.

End WithChrome.

(** The message of the error [fetchScript] throws from its [catch]
    clause. *)
Definition not_loaded (C : Chrome) (name : string) : string :=
  "Script " +:+ quoted name +:+ " could not be loaded from " +:+ script_url C name.

(** The callback that injects the script [name] into the tab it is given. *)
Definition inject (C : Chrome) (name : string) : Z -> M Browser unit :=
  fun tabId => injectScript C tabId name.

(** What [next] has received once it was told [error], if it was given. *)
Definition told (next : option ResponseFn) (error : string)
  : list (string * string) :=
  match next with
  | Some _ => [("error", error)]
  | None => []
  end.

End Injector.

(* ================================================================== *)
(** * The vocabulary of the statements *)
(* ================================================================== *)

(** ** Documents made of plain text and translation tokens *)
Module Fragment.
Import Framework.

Inductive Segment :=
  | Plain (text : string)
  | Token (ws1 key ws2 : string).

Definition no_brace (c : ascii) : bool := negb (Ascii.eqb c "{"%char).

(** Text in which no token can start: every opening brace in it is followed,
    within the text, by a character that is not one (the braces of a style
    sheet or of a script are of this kind). *)
Fixpoint plain (text : string) : bool :=
  match text with
  | EmptyString => true
  | String c rest =>
      (no_brace c
       || match rest with
          | String d _ => no_brace d
          | EmptyString => false
          end)
      && plain rest
  end.

(** In a token the key is a non-empty run of key characters and the blanks
    around it are white space (or nothing). *)
Definition well_formed (seg : Segment) : bool :=
  match seg with
  | Plain text => plain text
  | Token ws1 key ws2 =>
      JsString.all_chars JsString.is_space ws1
      && JsString.nonempty key
      && JsString.all_chars JsString.is_key_char key
      && JsString.all_chars JsString.is_space ws2
  end.

Definition source (seg : Segment) : string :=
  match seg with
  | Plain text => text
  | Token ws1 key ws2 => "{{" +:+ ws1 +:+ "locale." +:+ key +:+ ws2 +:+ "}}"
  end.

Definition document (segs : list Segment) : string :=
  fold_right (fun seg rest => source seg +:+ rest) EmptyString segs.

(** What a segment becomes: the string leaf its key resolves to, or the
    placeholder. *)
Definition expected (intl : LocaleVal) (seg : Segment) : string :=
  match seg with
  | Plain text => text
  | Token _ key _ =>
      match getNestedValue intl key with
      | Some value => value
      | None => "locale." +:+ key
      end
  end.

Definition expected_warnings (intl : LocaleVal) (seg : Segment)
  : list LogLine :=
  match seg with
  | Plain _ => []
  | Token _ key _ =>
      match getNestedValue intl key with
      | Some _ => []
      | None => [line Warn "locale" "registerLocales"
                   [Txt ("Missing translation: locale." +:+ key)]]
      end
  end.

Definition translated (intl : LocaleVal) (segs : list Segment) : string :=
  fold_right (fun seg rest => expected intl seg +:+ rest) EmptyString segs.

(** The text that follows a greedy run does not continue it. *)
Definition stops (f : ascii -> bool) (rest : string) : Prop :=
  match rest with
  | EmptyString => True
  | String c _ => f c = false
  end.

(** The replacement [applyTranslations] computes, before it is logged. *)
Definition translate (intl : LocaleVal) (s : string) : string * list LogLine :=
  translate_pieces intl (JsString.scan JsString.token_at 0 s).

End Fragment.

(** ** Sequences of registrations *)
Module History.
Import Framework.

(** The entry a call of Register stores under [key], when the call is valid
    (a string name, a function) and names that key. *)
Definition valid_for (key : string) (r : Registration) : option RegistryEntry :=
  match reg_name r, reg_fn r with
  | Typed name, Typed f =>
      if String.eqb name key
      then Some {| fn := f; async := default false (reg_async r) |}
      else None
  | _, _ => None
  end.

(** The most recent valid registration for [key] in a sequence of calls,
    oldest first. *)
Definition most_recent (key : string) (calls : list Registration)
  : option RegistryEntry :=
  last (omap (valid_for key) calls).

Definition Register_all (calls : list Registration) (w : World) : World :=
  fold_left (fun w r => Register r w) calls w.

End History.

(** ** The stages of a page load *)
Module Stages.
Import Framework.
Local Open Scope js_scope.

(** A computation that leaves the elements of the document alone. *)
Definition keeps_elements {A} (m : M World A) : Prop :=
  forall w w', state_of (m w) = Some w' -> elements w' = elements w.

(** The stages of LoadPage before the root element is looked up: the
    fragment is fetched, translated, and its includes are resolved (which
    loads the scripts of each include). *)
Definition fragment_stages (E : Env) (fuel : nat) (name : string)
  : M World (string * list string) :=
  htmlContent <- fetchWithCache E ("pages/" +:+ name +:+ "/index.html") ;;
  htmlContent <- applyTranslations E htmlContent ;;
  LoadIncludes E fuel htmlContent.

(** What LoadPage logs when the root element is missing. *)
Definition root_error (name : string) : list LogArg :=
  [Txt ("Error loading page: " +:+ name);
   Obj [("error", "Element with ID " +:+ quoted "_root" +:+ " not found")]].

(** What is logged when a fragment cannot be fetched. *)
Definition fetch_error (what : string) : list LogArg :=
  [Txt what; Obj [("error", "TypeError: Failed to fetch")]].

(** The content of the root element. *)
Definition root_html (w : World) : option (list Node) :=
  children <$> elements w !! "_root".

(** The registry keys LoadPage dispatches, in order: the page, then the
    includes as resolved; each one when the registry has it. *)
Definition dispatched (registry : gmap string RegistryEntry) (name : string)
    (includes : list string) : list OnMountFn :=
  omap (fun key => fn <$> registry !! key) (("pages/" +:+ name) :: includes).

(** Script loading for the page has taken place: a script element stands in
    the document for every script marker of the text. *)
Definition page_scripts_loaded (E : Env) (name html : string) (w : World)
  : Prop :=
  forall scriptName,
    scriptName ∈ JsString.groups (JsString.scan JsString.script_at 0 html) ->
    getURL E ("pages/" +:+ name +:+ "/" +:+ scriptName +:+ ".js") ∈ scripts w.

(** A line of the given level is on the console. *)
Definition logged (lv : Level) (w : World) : Prop :=
  exists l, l ∈ console w /\ line_level l = lv.

(** Every registered function returns. *)
Definition all_return (w : World) : Prop :=
  forall key entry, Registries w !! key = Some entry ->
                    fn_completes (fn entry) = Returns.

End Stages.

(** ** What is observed of a request *)
Module Observed.
Import Framework Api.

(** The calls of the browser's fetch made during a run that started in
    [before]. *)
Definition network_calls {A} (before : Session) (res : Res Session A)
  : option (list (string * RequestInit)) :=
  s' ← state_of res; Some (drop (length (network before)) (network s')).

(** The item [{ data, timestamp }] as [JSON.parse] gives it. *)
Definition cache_item (d : JsVal) (t : Z) : JsVal :=
  JObj [("data", d); ("timestamp", JNum t)].

(** The arguments [request] gives to the browser's fetch. *)
Definition call_of (P : Platform) (api : Api) (endpoint : string)
    (opts : RequestOptions) : string * RequestInit :=
  let body_ := match body opts with
               | None | Some JUndefined => JNull
               | Some b => b
               end in
  (baseUrl api +:+ endpoint,
   {| init_method := default GET (method opts);
      init_headers :=
        (if truthy body_ then {["Content-Type" := "application/json"]} else ∅)
        ∪ default ∅ (headers opts) ∪ api_headers api;
      init_body := if truthy body_ then Some (JSON_stringify P body_) else None
   |}).

(** The line [request] logs first. *)
Definition request_line (api : Api) (endpoint : string) (opts : RequestOptions)
  : LogLine :=
  line Log (logger_prefix api) "request"
    [Obj [("method", method_name (default GET (method opts)));
          ("url", baseUrl api +:+ endpoint)]].

End Observed.

(** ** Sample inputs *)
Module Samples.
Import Framework.

(** An extension whose files and scripts are listed by path. *)
Definition extension (files : list (string * string))
    (script_files : list (string * ScriptFile)) : Env :=
  {| getUILanguage := Some "en-US";
     getURL := fun path => "chrome-extension://webciel/" +:+ path;
     resource := fun url =>
       assoc url
         (map (fun kv => ("chrome-extension://webciel/" +:+ fst kv, snd kv))
            files);
     script_file := fun src =>
       default (Runs [])
         (assoc src
            (map (fun kv => ("chrome-extension://webciel/" +:+ fst kv, snd kv))
               script_files)) |}.

Definition onMount (id : string) : OnMountFn :=
  {| fn_id := id; fn_completes := Returns |}.

Definition entry_of (id : string) : RegistryEntry :=
  {| fn := onMount id; async := false |}.

Definition tree_Hi : LocaleVal := LObj [("a", LObj [("b", LStr "Hi")])].

(** A document with or without the root element, and a registry. *)
Definition page (with_root : bool) (registry : gmap string RegistryEntry)
  : World :=
  {| sessionStorage := ∅; scripts := [];
     elements := if with_root
                 then {[ "_root" := {| children := []; attributes := ∅ |} ]}
                 else ∅;
     Registries := registry;
     registeredLocales := [("en", tree_Hi)];
     fallbackLocale := "en";
     console := []; fetched := []; mounted := []; icon_refreshes := 0 |}.

(** Two includes side by side; the first one is a short fragment. *)
Definition two_includes : Env :=
  extension
    [("pages/home/index.html",
      "<!-- include('header') --> <!-- include('footer') -->");
     ("includes/header/index.html", "<hr>");
     ("includes/footer/index.html", "<footer>bye</footer>")] [].

(** The same page with a header that is longer than its marker. *)
Definition two_long_includes : Env :=
  extension
    [("pages/home/index.html",
      "<!-- include('header') --> <!-- include('footer') -->");
     ("includes/header/index.html", "<header><h1>Assistant</h1></header>");
     ("includes/footer/index.html", "<footer>bye</footer>")] [].

Definition all_registered : gmap string RegistryEntry :=
  {[ "pages/home" := entry_of "pages/home";
     "includes/header" := entry_of "includes/header";
     "includes/footer" := entry_of "includes/footer" ]}.

(** An include that includes another one, near its start. *)
Definition nested_include : Env :=
  extension
    [("pages/home/index.html", "<!-- include('card') -->");
     ("includes/card/index.html", "<div><!-- include('badge') --></div>");
     ("includes/badge/index.html", "<b>new</b>")] [].

(** The same, with the inner marker further into the fragment than the
    outer marker is long. *)
Definition nested_include_far : Env :=
  extension
    [("pages/home/index.html", "<!-- include('card') -->");
     ("includes/card/index.html",
      "<div class='card card-wide'><!-- include('badge') --></div>");
     ("includes/badge/index.html", "<b>new</b>")] [].

(** A page with a script. *)
Definition scripted (script : ScriptFile) : Env :=
  extension
    [("pages/home/index.html", "<h1>Home</h1><!-- script('index') -->")]
    [("pages/home/index.js", script)].

(** A page that is an empty file. *)
Definition empty_page : Env :=
  extension [("pages/blank/index.html", EmptyString)] [].

(** A template with a placeholder and a token. *)
Definition with_template : Env :=
  extension
    [("templates/widgets/infoBox/index.html",
      "<p>{user}: {{ locale.a.b }} {date}</p>")] [].

Definition sidebar (m : LoadMode) : LoadTemplateOptions :=
  {| element := Some "_root"; mode := m;
     replacements := [("user", "Jane Doe"); ("date", "$& 2025")] |}.

(** A page whose script registers the page's [onMount]. *)
Definition self_registering : Env :=
  scripted (Runs [{| reg_name := Typed "pages/home";
                     reg_fn := Typed (onMount "pages/home");
                     reg_async := None |}]).

(** Three calls for one key: a first function, a second one, and a call
    whose second argument is not a function. *)
Definition three_calls : list Registration :=
  [ {| reg_name := Typed "pages/home"; reg_fn := Typed (onMount "first");
       reg_async := None |};
    {| reg_name := Typed "pages/home"; reg_fn := Typed (onMount "second");
       reg_async := Some true |};
    {| reg_name := Typed "pages/home"; reg_fn := Untyped "undefined";
       reg_async := None |} ].

Import Api.

(** A platform for the examples: values are printed as JSON text (strings
    are taken to need no escaping, [undefined] is printed as [null]), and
    the texts of the listed values are parsed back. *)
Fixpoint print (v : JsVal) : string :=
  match v with
  | JUndefined | JNull => "null"
  | JBool b => if b then "true" else "false"
  | JNum n => Z_to_string n
  | JStr s => quoted s
  | JArr items =>
      "[" +:+
      (fix go (l : list JsVal) : string :=
         match l with
         | [] => EmptyString
         | x :: l' =>
             print x +:+ (match l' with [] => EmptyString | _ => "," end)
             +:+ go l'
         end) items
      +:+ "]"
  | JObj fields =>
      "{" +:+
      (fix go (l : list (string * JsVal)) : string :=
         match l with
         | [] => EmptyString
         | (k, x) :: l' =>
             quoted k +:+ ":" +:+ print x
             +:+ (match l' with [] => EmptyString | _ => "," end) +:+ go l'
         end) fields
      +:+ "}"
  end.

Definition platform (known : list JsVal) : Platform :=
  {| JSON_parse := fun s => find (fun v => String.eqb (print v) s) known;
     JSON_stringify := print;
     ToNumber_text := fun _ => None |}.

Definition example_api : Api :=
  {| logger_prefix := "API"; baseUrl := "https://example.com/api";
     api_headers := ∅ |}.

Definition answer (st : Z) (payload : JsVal) : Z * Answer :=
  (40%Z, Respond {| resp_status := st;
                    resp_json := Some (JObj [("data", payload)]) |}).

(** A session at time [t] with the given store and the answers to come. *)
Definition session (store : gmap string string) (t : Z)
    (answers : list (Z * Answer)) : Session :=
  {| storage := store; now := t; console := []; network := [];
     inbox := answers |}.

(** A counter that was cached as 0 one second ago. *)
Definition cached_zero : gmap string string :=
  {[ cacheKey_of "https://example.com/api/count"
     := print (JObj [("data", JNum 0); ("timestamp", JNum 1000)]) ]}.

Definition zero_platform : Platform :=
  platform [JObj [("data", JNum 0); ("timestamp", JNum 1000)]].

(** The response of an earlier call for the counter. *)
Definition counter_response : ApiResponse :=
  {| r_method := GET; r_url := "https://example.com/api/count";
     r_options := {| init_method := GET; init_headers := ∅; init_body := None |};
     data := JNum 0; status := 200;
     reload := ("/count", without_cache no_options) |}.

End Samples.

(** ** Dotted keys and the locale a path spells *)
Module Keys.
Import Framework.

(** The key that names a path: its parts joined by dots. *)
Fixpoint dotted (parts : list string) : string :=
  match parts with
  | [] => EmptyString
  | [part] => part
  | part :: rest => part +:+ "." +:+ dotted rest
  end.

Definition no_dot (part : string) : bool :=
  JsString.all_chars (fun c => negb (Ascii.eqb c "."%char)) part.

Definition no_dash (lang : string) : bool :=
  JsString.all_chars (fun c => negb (Ascii.eqb c "-"%char)) lang.

(** [tag.split('-')[0]]: the language of a tag such as [en-US]. *)
Definition primary_subtag (tag : string) : string :=
  hd EmptyString (JsString.split "-"%char tag).

(** The locale that holds [leaf] at the end of the path, and nothing else. *)
Fixpoint nest (parts : list string) (leaf : string) : LocaleVal :=
  match parts with
  | [] => LStr leaf
  | part :: rest => LObj [(part, nest rest leaf)]
  end.

(** Every string the locale holds is free of tokens. *)
Fixpoint plain_leaves (intl : LocaleVal) : bool :=
  match intl with
  | LStr s => Fragment.plain s
  | LObj fields =>
      (fix all (l : list (string * LocaleVal)) : bool :=
         match l with
         | [] => true
         | (_, v) :: l' => plain_leaves v && all l'
         end) fields
  end.

(** The same extension, seen by a browser whose UI language is [tag]. *)
Definition with_language (E : Env) (tag : option string) : Env :=
  {| getUILanguage := tag; getURL := getURL E; resource := resource E;
     script_file := script_file E |}.

End Keys.

(** ** Text with and without include markers *)
Module Markers.
Import Framework.

Definition not_lt (c : ascii) : bool := negb (Ascii.eqb c "<"%char).
Definition not_bang (c : ascii) : bool := negb (Ascii.eqb c "!"%char).
Definition not_dollar (c : ascii) : bool := negb (Ascii.eqb c "$"%char).

(** No marker starts at the character [c] followed by [rest]: markers
    start with [<!]. *)
Definition opens_no_marker (c : ascii) (rest : string) : bool :=
  not_lt c
  || match rest with
     | String d _ => not_bang d
     | EmptyString => false
     end.

(** Text in which no marker can start: every [<] in it is followed, within
    the text, by a character other than [!] (the tags of a fragment are of
    this kind; a comment is not). *)
Fixpoint markerless (text : string) : bool :=
  match text with
  | EmptyString => true
  | String c rest => opens_no_marker c rest && markerless rest
  end.

(** An include marker as it is written in a fragment. *)
Definition include_marker (ws1 : string) (q1 : ascii) (name : string)
    (q2 : ascii) (ws2 : string) : string :=
  "<!--" +:+ ws1 +:+ "include(" +:+ String q1 name
  +:+ String q2 (")" +:+ ws2 +:+ "-->").

Definition well_formed_marker (ws1 : string) (q1 : ascii) (name : string)
    (q2 : ascii) (ws2 : string) : bool :=
  JsString.all_chars JsString.is_space ws1
  && JsString.is_quote q1
  && JsString.nonempty name
  && JsString.all_chars JsString.not_quote name
  && JsString.is_quote q2
  && JsString.all_chars JsString.is_space ws2.

(** The path of the fragment of an include. *)
Definition include_path (name : string) : string :=
  "includes/" +:+ name +:+ "/index.html".

(** A fragment as a sequence of text and include markers. *)
Inductive Part :=
  | Text (t : string)
  | Include (ws1 : string) (q1 : ascii) (name : string) (q2 : ascii)
      (ws2 : string).

Definition part_source (p : Part) : string :=
  match p with
  | Text t => t
  | Include ws1 q1 name q2 ws2 => include_marker ws1 q1 name q2 ws2
  end.

Definition well_formed_part (p : Part) : bool :=
  match p with
  | Text t => markerless t
  | Include ws1 q1 name q2 ws2 => well_formed_marker ws1 q1 name q2 ws2
  end.

Definition page_text (parts : list Part) : string :=
  fold_right (fun p rest => part_source p +:+ rest) EmptyString parts.

(** The names of the includes of a fragment, left to right. *)
Definition included (parts : list Part) : list string :=
  omap (fun p => match p with
                 | Include _ _ name _ _ => Some name
                 | Text _ => None
                 end) parts.

(** The text the extension holds for an include (empty when it has none). *)
Definition content_of (E : Env) (name : string) : string :=
  default EmptyString (resource E (getURL E (include_path name))).

(** Text that is spliced in as it is: no marker and no token can start in
    it, and it has no dollar sign for [replace] to interpret. *)
Definition verbatim (text : string) : bool :=
  markerless text && Fragment.plain text
  && JsString.all_chars not_dollar text.

(** The fragment of an include exists and is spliced in as it is. *)
Definition available (E : Env) (name : string) : bool :=
  bool_decide (is_Some (resource E (getURL E (include_path name))))
  && verbatim (content_of E name).

(** The same, and the fragment is at least as long as the marker it
    replaces. *)
Definition fits (E : Env) (p : Part) : bool :=
  match p with
  | Text _ => true
  | Include _ _ name _ _ =>
      available E name
      && (String.length (part_source p) <=? String.length (content_of E name))
  end.

Definition expanded (E : Env) (parts : list Part) : string :=
  fold_right (fun p rest =>
                match p with
                | Text t => t
                | Include _ _ name _ _ => content_of E name
                end +:+ rest) EmptyString parts.

(** [htmlContent.replaceAll(`{${key}}`, value)] for each entry of the
    replacements, in order. *)
Definition filled (replacements : list (string * string)) (html : string)
  : string :=
  fold_left (fun html kv =>
               JsString.replaceAll html ("{" +:+ fst kv +:+ "}") (snd kv))
    replacements html.

(** What the store holds for a path is what the extension holds. *)
Definition coherent (E : Env) (w : World) : Prop :=
  forall path text,
    truthy_item (sessionStorage w !! cachedViewKey path) = Some text ->
    resource E (getURL E path) = Some text.

(** [w'] differs from [w] in the store and in the list of fetched URLs
    only. *)
Definition same_page (w w' : World) : Prop :=
  scripts w' = scripts w /\ elements w' = elements w
  /\ Registries w' = Registries w
  /\ registeredLocales w' = registeredLocales w
  /\ fallbackLocale w' = fallbackLocale w
  /\ Framework.console w' = Framework.console w
  /\ mounted w' = mounted w /\ icon_refreshes w' = icon_refreshes w.




End Markers.

(** ** Time between two requests *)
Module Clock.
Import Api.

(** The session [dt] milliseconds later, nothing else having happened. *)
Definition later (dt : Z) (s : Session) : Session :=
  {| storage := storage s; now := (now s + dt)%Z; console := console s;
     network := network s; inbox := inbox s |}.

(** The line [request] logs when it rethrows an error. *)
Definition error_line (api : Api) (endpoint : string) (opts : RequestOptions)
    (error : string) : Framework.LogLine :=
  Framework.line Framework.Error (logger_prefix api) "request"
    [Framework.Txt ("Error [" +:+ method_name (default GET (method opts))
                    +:+ "]");
     Framework.Obj [("url", baseUrl api +:+ endpoint); ("error", error)]].

End Clock.

(** ** More sample inputs *)
Module Cases.
Import Framework Samples.

(** A valid call [Register(name, f, { async })]. *)
Definition registration (name : string) (f : OnMountFn) (a : option bool)
  : Registration :=
  {| reg_name := Typed name; reg_fn := Typed f; reg_async := a |}.

(** A page with two includes whose fragments are longer than their
    markers. *)
Definition home_parts : list Markers.Part :=
  [ Markers.Text "<main>";
    Markers.Include " " "'" "header" "'" " ";
    Markers.Text "<p>Welcome</p>";
    Markers.Include "" "034" "footer" "034" "";
    Markers.Text "</main>" ].

Definition long_includes : Env :=
  extension
    [("pages/home/index.html", Markers.page_text home_parts);
     ("includes/header/index.html", "<header><h1>Assistant</h1></header>");
     ("includes/footer/index.html", "<footer><p>Goodbye</p></footer>")] [].

(** The page of the samples once the template of the info box has been
    fetched. *)
Definition infoBox_text : string := "<p>{user}: {{ locale.a.b }} {date}</p>".

Definition infoBox_fetched : World :=
  set_sessionStorage
    <[cachedViewKey "templates/widgets/infoBox/index.html" := infoBox_text]>
    (set_fetched
       (fun l => l ++ [getURL with_template
                         "templates/widgets/infoBox/index.html"])
       (page true ∅)).

(** Options that name an element that is not in the document. *)
Definition no_sidebar : LoadTemplateOptions :=
  {| element := Some "sidebar"; mode := append; replacements := [] |}.

Import Api.

(** An extension with one script, seen from a window whose active tab is
    tab 7. *)
Definition one_script : Injector.Chrome :=
  {| Injector.tabs_query := [Some 7%Z];
     Injector.runtime_getURL :=
       fun path => "chrome-extension://webciel/" +:+ path;
     Injector.script_fetch := fun url =>
       if String.eqb url "chrome-extension://webciel/scripts/probe.js"
       then Injector.FetchResponds
              {| Injector.res_status := 200; Injector.res_statusText := "OK";
                 Injector.res_text := inl "console.log(1)" |}
       else Injector.FetchResponds
              {| Injector.res_status := 404;
                 Injector.res_statusText := "Not Found";
                 Injector.res_text := inl "" |};
     Injector.executeScript := fun _ _ _ => None |}.

(** The same extension when no tab is active. *)
Definition no_tab : Injector.Chrome :=
  {| Injector.tabs_query := [];
     Injector.runtime_getURL := Injector.runtime_getURL one_script;
     Injector.script_fetch := Injector.script_fetch one_script;
     Injector.executeScript := Injector.executeScript one_script |}.

Definition fresh_browser : Injector.Browser :=
  {| Injector.console := []; Injector.responses := [];
     Injector.requested := []; Injector.injections := [] |}.

(** A counter that was cached as 5 one second ago, and a platform that
    reads the item back. *)
Definition cached_five : gmap string string :=
  {[ cacheKey_of "https://example.com/api/count"
     := print (JObj [("data", JNum 5); ("timestamp", JNum 1000)]) ]}.

Definition five_platform : Platform :=
  platform [JObj [("data", JNum 5); ("timestamp", JNum 1000)]].

(** A store whose entry for the counter is not JSON. *)
Definition corrupted : gmap string string :=
  {[ cacheKey_of "https://example.com/api/count" := "<html>502</html>" ]}.

(** A platform that reads back the item written when the counter is 7 at
    time 40. *)
Definition seven_platform : Platform :=
  platform [JObj [("data", JNum 7); ("timestamp", JNum 40)]].

End Cases.

(* ================================================================== *)
(** * Properties *)
(* ================================================================== *)

(** ** Strings *)
Module StringFacts.
Import JsString Fragment.
#[local] Arguments String.append : simpl nomatch.

Lemma app_nil_r (s : string) : s +:+ EmptyString = s.
Proof. induction s as [|c s IH]; simpl; [reflexivity | now rewrite IH]. Qed.

Lemma app_assoc (a b c : string) : (a +:+ b) +:+ c = a +:+ (b +:+ c).
Proof. induction a as [|x a IH]; simpl; [reflexivity | now rewrite IH]. Qed.

Lemma length_app (a b : string) :
  String.length (a +:+ b) = String.length a + String.length b.
Proof. induction a as [|x a IH]; simpl; [reflexivity | now rewrite IH]. Qed.

Lemma strip_prefix_app (p s : string) : strip_prefix p (p +:+ s) = Some s.
Proof.
  induction p as [|c p IH]; simpl; [reflexivity|].
  now rewrite Ascii.eqb_refl.
Qed.

Lemma take_app (a b : string) : take (String.length a) (a +:+ b) = a.
Proof. induction a as [|x a IH]; simpl; [now destruct b | now rewrite IH]. Qed.

Lemma span_app (f : ascii -> bool) (run rest : string) :
  all_chars f run = true -> stops f rest -> span f (run +:+ rest) = (run, rest).
Proof.
  induction run as [|c run IH]; simpl; intros Hrun Hstop.
  - destruct rest as [|c rest]; simpl in *; [reflexivity | now rewrite Hstop].
  - apply andb_true_iff in Hrun as [Hc Hrun].
    now rewrite Hc, IH.
Qed.

(** After a match the scan resumes behind it. *)
Lemma scan_skip (re : Matcher) (a b : string) :
  scan re (String.length a) (a +:+ b) = scan re 0 b.
Proof.
  induction a as [|x a IH]; simpl; [|exact IH].
  destruct b; reflexivity.
Qed.

Example exec_finds_marker :
  exec include_at 0 "<p><!--  include('nav') --></p>"
  = (Some {| m_index := 3; m_text := "<!--  include('nav') -->";
             m_group := "nav" |}, 27).
Proof. reflexivity. Qed.

Example exec_beyond_end : exec include_at 9 "<p></p>" = (None, 0).
Proof. reflexivity. Qed.

Example marker_quotes_differ :
  include_at ("<!--include('nav" +:+ dquote +:+ ")-->") = Some (21, "nav").
Proof. reflexivity. Qed.

Example marker_needs_name : include_at "<!-- include('') -->" = None.
Proof. reflexivity. Qed.

Example replace_patterns :
  replace "a<x>b<x>" "<x>" "[$&|$$|$`|$'|$1]" = "a[<x>|$|a|b<x>|$1]b<x>".
Proof. reflexivity. Qed.

Example replaceAll_patterns :
  replaceAll "a<x>b<x>" "<x>" "[$`|$']" = "a[a|b<x>]b[a<x>b|]".
Proof. reflexivity. Qed.

Example split_dots : split "."%char "a..b." = ["a"; ""; "b"; ""].
Proof. reflexivity. Qed.

Lemma space_not_key (c : ascii) : is_space c = true -> is_key_char c = false.
Proof.
  destruct c as [[] [] [] [] [] [] [] []]; vm_compute; congruence.
Qed.

Lemma length_drop (i : nat) (s : string) :
  String.length (drop i s) = String.length s - i.
Proof.
  revert s. induction i as [|i IH]; intros s; simpl.
  - lia.
  - destruct s as [|c s]; simpl; [reflexivity | apply IH].
Qed.

Lemma drop_drop (i j : nat) (s : string) : drop j (drop i s) = drop (i + j) s.
Proof.
  revert s. induction i as [|i IH]; intros s; simpl; [reflexivity|].
  destruct s as [|c s]; simpl; [now destruct j | apply IH].
Qed.

Lemma length_take (n : nat) (s : string) :
  n <= String.length s -> String.length (take n s) = n.
Proof.
  revert s. induction n as [|n IH]; intros s H; simpl; [reflexivity|].
  destruct s as [|c s]; simpl in *; [lia|]. rewrite IH; lia.
Qed.

Lemma scan_drop (re : Matcher) (k : nat) (s : string) :
  scan re k s = scan re 0 (drop k s).
Proof.
  revert s. induction k as [|k IH]; intros s; simpl; [reflexivity|].
  destruct s as [|c s]; simpl; [reflexivity | apply IH].
Qed.

(** What one search finds, in terms of the scan of the text searched. *)
Lemma search_from_scan (re : Matcher) (Hp : proper re) (t : string) (i : nat) :
  match search_from re i t with
  | None => groups (scan re 0 t) = []
  | Some m =>
      exists k n,
        m_index m = i + k /\ String.length (m_text m) = n
        /\ 1 <= n /\ k + n <= String.length t
        /\ groups (scan re 0 t)
           = m_group m :: groups (scan re 0 (drop (k + n) t))
  end.
Proof.
  revert i. induction t as [|c t IH]; intros i.
  - simpl. destruct (re EmptyString) as [[n g]|] eqn:Hre; [|reflexivity].
    apply Hp in Hre. simpl in Hre. lia.
  - cbn [search_from scan].
    destruct (re (String c t)) as [[n g]|] eqn:Hre.
    + pose proof (Hp _ _ _ Hre) as Hn.
      exists 0, n. cbn [m_index m_text m_group].
      rewrite length_take by lia.
      repeat split; try lia.
      destruct n as [|n]; [lia|].
      simpl. now rewrite scan_drop.
    + specialize (IH (S i)).
      destruct (search_from re (S i) t) as [m|].
      * destruct IH as (k & n & Hi & Hl & Hn & Hk & Hg).
        exists (S k), n. simpl. repeat split; try lia. exact Hg.
      * exact IH.
Qed.

(** A loop of [exec] over a text that is not modified, started anywhere in
    the text and given enough fuel, collects the groups of the scan of the
    rest of the text. *)
Lemma exec_loop_scan (re : Matcher) (Hp : proper re) (fuel i : nat)
    (s : string) :
  i <= String.length s -> String.length s - i < fuel ->
  exec_loop re fuel i s = Some (groups (scan re 0 (drop i s))).
Proof.
  revert i. induction fuel as [|fuel IH]; intros i Hi Hf; [lia|].
  simpl. unfold exec.
  destruct (Nat.ltb_spec (String.length s) i) as [Hlt|_]; [lia|].
  pose proof (search_from_scan re Hp (drop i s) i) as Hs.
  destruct (search_from re i (drop i s)) as [m|].
  - destruct Hs as (k & n & Hidx & Hlen & Hn & Hk & Hg).
    rewrite length_drop in Hk.
    rewrite Hidx, Hlen.
    assert (H1 : i + k + n <= String.length s) by lia.
    assert (H2 : String.length s - (i + k + n) < fuel) by lia.
    rewrite (IH _ H1 H2).
    simpl. rewrite Hg, drop_drop.
    now replace (i + (k + n)) with (i + k + n) by lia.
  - now rewrite Hs.
Qed.

Lemma strip_prefix_length (p s r : string) :
  strip_prefix p s = Some r ->
  String.length s = String.length p + String.length r.
Proof.
  revert s. induction p as [|a p IH]; intros s H; simpl in *.
  - now injection H as ->.
  - destruct s as [|b s]; [discriminate|].
    destruct (Ascii.eqb a b); [|discriminate].
    simpl. now rewrite (IH s H).
Qed.

Lemma span_length (f : ascii -> bool) (s a r : string) :
  span f s = (a, r) -> String.length s = String.length a + String.length r.
Proof.
  revert a r. induction s as [|c s IH]; intros a r H; simpl in *.
  - now injection H as <- <-.
  - destruct (f c).
    + destruct (span f s) as [a' r'] eqn:Hsp. injection H as <- <-.
      simpl. now rewrite (IH a' r' eq_refl).
    + now injection H as <- <-.
Qed.

End StringFacts.

(** ** The expressions *)
Module MatcherFacts.
Import JsString StringFacts.
#[local] Arguments String.append : simpl nomatch.
#[local] Arguments strip_prefix : simpl never.
#[local] Arguments span : simpl never.

Lemma marker_at_proper (kw : string) : proper (marker_at kw).
Proof.
  intros s n g H. unfold marker_at in H.
  destruct (strip_prefix "<!--" s) as [s1|] eqn:H1; simpl in H; [|discriminate].
  destruct (span is_space s1) as [ws1 s2] eqn:H2.
  destruct (strip_prefix (kw +:+ "(") s2) as [s3|] eqn:H3; simpl in H;
    [|discriminate].
  destruct s3 as [|q1 s4]; [discriminate|].
  destruct (is_quote q1); [|discriminate].
  destruct (span not_quote s4) as [name s5] eqn:H5.
  destruct name as [|a name]; [discriminate|].
  destruct s5 as [|q2 s6]; [discriminate|].
  destruct (is_quote q2); [|discriminate].
  destruct (strip_prefix ")" s6) as [s7|] eqn:H7; simpl in H; [|discriminate].
  destruct (span is_space s7) as [ws2 s8] eqn:H8.
  destruct (strip_prefix "-->" s8) as [s9|] eqn:H9; simpl in H; [|discriminate].
  injection H as <- <-.
  apply strip_prefix_length in H1, H3, H7, H9.
  apply span_length in H2, H5, H8.
  simpl in *. lia.
Qed.

Lemma token_at_proper : proper token_at.
Proof.
  intros s n g H. unfold token_at in H.
  destruct (strip_prefix "{{" s) as [s1|] eqn:H1; simpl in H; [|discriminate].
  destruct (span is_space s1) as [ws1 s2] eqn:H2.
  destruct (strip_prefix "locale." s2) as [s3|] eqn:H3; simpl in H;
    [|discriminate].
  destruct (span is_key_char s3) as [key s4] eqn:H4.
  destruct key as [|a key]; [discriminate|].
  destruct (span is_space s4) as [ws2 s5] eqn:H5.
  destruct (strip_prefix "}}" s5) as [s6|] eqn:H6; simpl in H; [|discriminate].
  injection H as <- <-.
  apply strip_prefix_length in H1, H3, H6.
  apply span_length in H2, H4, H5.
  simpl in *. lia.
Qed.

(** The loop of LoadScripts visits the markers that [scan] lists. *)
Lemma script_loop_scan (html : string) :
  exec_loop script_at (S (String.length html)) 0 html
  = Some (groups (scan script_at 0 html)).
Proof.
  apply (exec_loop_scan script_at (marker_at_proper "script")); simpl; lia.
Qed.

End MatcherFacts.

(** ** locale.ts *)
Module LocaleFacts.
Import Framework JsString StringFacts Fragment Samples.
#[local] Arguments String.append : simpl nomatch.

Example getNestedValue_leaf : getNestedValue tree_Hi "a.b" = Some "Hi".
Proof. reflexivity. Qed.

Example getNestedValue_missing : getNestedValue tree_Hi "a.c" = None.
Proof. reflexivity. Qed.

Example getNestedValue_object : getNestedValue tree_Hi "a" = None.
Proof. reflexivity. Qed.

(** The expression matches a well-formed token in full, whatever follows. *)
Lemma token_at_source (ws1 key ws2 rest : string) :
  well_formed (Token ws1 key ws2) = true ->
  token_at (source (Token ws1 key ws2) +:+ rest)
  = Some (String.length (source (Token ws1 key ws2)), key).
Proof.
  intros Hwf. simpl in Hwf.
  repeat (apply andb_true_iff in Hwf as [Hwf ?]).
  unfold token_at, source.
  rewrite !app_assoc.
  rewrite (strip_prefix_app "{{"). simpl.
  rewrite (span_app is_space ws1) by (try assumption; reflexivity).
  simpl.
  rewrite (span_app is_key_char key); [|assumption|].
  2:{ destruct ws2 as [|c ws2]; simpl; [reflexivity|].
      simpl in *. apply andb_true_iff in H as [Hc _]. now apply space_not_key. }
  destruct key as [|k key]; [discriminate|].
  rewrite (span_app is_space ws2) by (try assumption; reflexivity).
  simpl.
  f_equal. f_equal.
  repeat (rewrite length_app; simpl). lia.
Qed.

(** A character that is not an opening brace starts no token, and neither
    does one that is followed by such a character. *)
Lemma token_at_not_brace (c : ascii) (s : string) :
  no_brace c = true -> token_at (String c s) = None.
Proof.
  intros Hc. unfold token_at.
  change (strip_prefix "{{" (String c s))
    with (if Ascii.eqb "{" c then strip_prefix "{" s else None).
  unfold no_brace in Hc. apply negb_true_iff in Hc.
  rewrite Ascii.eqb_sym in Hc. now rewrite Hc.
Qed.

Lemma token_at_single_brace (c d : ascii) (s : string) :
  no_brace d = true -> token_at (String c (String d s)) = None.
Proof.
  intros Hd. unfold token_at.
  change (strip_prefix "{{" (String c (String d s)))
    with (if Ascii.eqb "{" c
          then if Ascii.eqb "{" d then Some s else None
          else None).
  unfold no_brace in Hd. apply negb_true_iff in Hd.
  rewrite Ascii.eqb_sym in Hd. rewrite Hd. now destruct (Ascii.eqb "{" c).
Qed.

Lemma translate_keep (intl : LocaleVal) (c : ascii) (s : string) :
  token_at (String c s) = None ->
  translate intl (String c s)
  = (String c (fst (translate intl s)), snd (translate intl s)).
Proof.
  intros Hat.
  unfold translate. cbn [scan]. rewrite Hat. cbn [translate_pieces].
  now destruct (translate_pieces intl (scan token_at 0 s)).
Qed.

Lemma translate_plain (intl : LocaleVal) (text rest : string) :
  plain text = true ->
  translate intl (text +:+ rest)
  = (text +:+ fst (translate intl rest), snd (translate intl rest)).
Proof.
  induction text as [|c text IH]; simpl; intros H.
  - now destruct (translate intl rest).
  - apply andb_true_iff in H as [Hc H].
    rewrite translate_keep.
    + now rewrite IH.
    + apply orb_true_iff in Hc as [Hc|Hd].
      * now apply token_at_not_brace.
      * destruct text as [|d text]; [discriminate|].
        now apply token_at_single_brace.
Qed.

Lemma translate_token_source (intl : LocaleVal) (ws1 key ws2 rest : string) :
  well_formed (Token ws1 key ws2) = true ->
  translate intl (source (Token ws1 key ws2) +:+ rest)
  = (expected intl (Token ws1 key ws2) +:+ fst (translate intl rest),
     expected_warnings intl (Token ws1 key ws2) ++ snd (translate intl rest)).
Proof.
  intros Hwf. unfold translate.
  pose proof (token_at_source ws1 key ws2 rest Hwf) as Hat.
  remember (source (Token ws1 key ws2)) as tok eqn:Htok.
  destruct tok as [|c tok]; [discriminate|].
  simpl. simpl in Hat. rewrite Hat.
  rewrite scan_skip. simpl.
  unfold translate_token.
  destruct (getNestedValue intl key);
    now destruct (translate_pieces intl (scan token_at 0 rest)).
Qed.

Lemma translate_document (intl : LocaleVal) (doc : list Segment) :
  forallb well_formed doc = true ->
  translate intl (document doc)
  = (translated intl doc, concat (map (expected_warnings intl) doc)).
Proof.
  induction doc as [|seg doc IH]; simpl; intros H; [reflexivity|].
  apply andb_true_iff in H as [Hseg H].
  specialize (IH H).
  destruct seg as [text | ws1 key ws2].
  - rewrite translate_plain by exact Hseg. now rewrite IH.
  - rewrite translate_token_source by exact Hseg. now rewrite IH.
Qed.

Lemma set_console_nil (w : World) : set_console (fun c => c ++ []) w = w.
Proof. destruct w. unfold set_console. simpl. now rewrite List.app_nil_r. Qed.

(** With one registered locale that is also the fallback, that locale is the
    active one whatever the language of the browser. *)
Lemma useLocale_only_fallback (E : Env) (w : World) (code : string)
    (tree : LocaleVal) :
  registeredLocales w = [(code, tree)] -> fallbackLocale w = code ->
  truthy_locale tree = true ->
  useLocale E w = tree.
Proof.
  intros Hreg Hfb Htree.
  assert (Hget : getLocale E w = code).
  { unfold getLocale. rewrite Hreg, Hfb. simpl.
    destruct (String.eqb_spec code
                (hd EmptyString
                   (split "-" match getUILanguage E with
                              | Some l => if nonempty l then l else code
                              | None => code
                              end))) as [Heq|Hne].
    - now rewrite Htree.
    - reflexivity. }
  unfold useLocale. rewrite Hget, Hreg. simpl.
  now rewrite String.eqb_refl, Htree.
Qed.

(** C7: applyTranslations replaces every token [{{ locale.<key> }}] of a
    document: by the string leaf the key resolves to in the active locale
    tree, or, when the key does not resolve, by the text [locale.<key>] with
    one warning logged per such token, in order. In particular, with the
    tree [{en:{a:{b:Hi}}}] active, the heading with the token for [a.b]
    becomes the heading with [Hi] and nothing is logged, and the one for the
    missing key [a.c] becomes the heading with [locale.a.c] and a warning. *)
Theorem applyTranslations_replaces_tokens (E : Env) :
  (forall (w : World) (doc : list Segment),
     forallb well_formed doc = true ->
     applyTranslations E (document doc) w
     = Resolved (translated (useLocale E w) doc)
         (set_console
            (fun c => c ++ concat (map (expected_warnings (useLocale E w)) doc))
            w))
  /\ (forall w : World,
        registeredLocales w = [("en", tree_Hi)] -> fallbackLocale w = "en" ->
        applyTranslations E "<h1>{{ locale.a.b }}</h1>" w
        = Resolved "<h1>Hi</h1>" w
        /\ applyTranslations E "<h1>{{ locale.a.c }}</h1>" w
           = Resolved "<h1>locale.a.c</h1>"
               (emit Warn "locale" "registerLocales"
                  [Txt "Missing translation: locale.a.c"] w)).
Proof.
  split.
  - intros w doc Hwf. unfold applyTranslations.
    pose proof (translate_document (useLocale E w) doc Hwf) as HT.
    unfold translate in HT. now rewrite HT.
  - intros w Hreg Hfb.
    pose proof (useLocale_only_fallback E w "en" tree_Hi Hreg Hfb eq_refl)
      as Huse.
    unfold applyTranslations. rewrite Huse. split.
    + change (translate_pieces tree_Hi
                (scan token_at 0 "<h1>{{ locale.a.b }}</h1>"))
        with ("<h1>Hi</h1>", @nil LogLine).
      cbv beta iota. now rewrite set_console_nil.
    + reflexivity.
Qed.

(** The theorem at a document with a style sheet and two tokens, one of
    which resolves. *)
Lemma applyTranslations_replaces_tokens_witness :
  applyTranslations two_includes
    (document [Plain "<style>h1 { color: red }</style><h1>";
               Token " " "a.b" " "; Plain "</h1><p>";
               Token "" "a.c" "  "; Plain "</p>"])
    (page true ∅)
  = Resolved "<style>h1 { color: red }</style><h1>Hi</h1><p>locale.a.c</p>"
      (emit Warn "locale" "registerLocales"
         [Txt "Missing translation: locale.a.c"] (page true ∅)).
Proof.
  exact (proj1 (applyTranslations_replaces_tokens two_includes)
           (page true ∅)
           [Plain "<style>h1 { color: red }</style><h1>";
            Token " " "a.b" " "; Plain "</h1><p>";
            Token "" "a.c" "  "; Plain "</p>"] eq_refl).
Defined.

End LocaleFacts.

(** ** registry.ts *)
Module RegistryFacts.
Import Framework History Samples.

Lemma Register_lookup (key : string) (r : Registration) (w : World) :
  Registries (Register r w) !! key
  = match valid_for key r with
    | Some entry => Some entry
    | None => Registries w !! key
    end.
Proof.
  unfold Register, valid_for.
  destruct (reg_name r) as [name|shown]; [|reflexivity].
  destruct (reg_fn r) as [f|shown]; [|reflexivity].
  simpl. destruct (String.eqb_spec name key) as [->|Hne].
  - now rewrite lookup_insert_eq.
  - now rewrite lookup_insert_ne.
Qed.

Lemma Register_mounted (r : Registration) (w : World) :
  mounted (Register r w) = mounted w.
Proof.
  unfold Register.
  destruct (reg_name r); [|reflexivity]. now destruct (reg_fn r).
Qed.

(** After a sequence of calls the registry holds, under each key, the entry
    of the last valid call for it: a later call overwrites an earlier one. *)
Lemma Register_all_lookup (key : string) (calls : list Registration)
    (w : World) :
  Registries (Register_all calls w) !! key
  = match most_recent key calls with
    | Some entry => Some entry
    | None => Registries w !! key
    end.
Proof.
  revert w. induction calls as [|r calls IH]; intros w; [reflexivity|].
  unfold Register_all, most_recent in *. simpl.
  rewrite IH, Register_lookup.
  destruct (valid_for key r) as [e0|]; simpl; [|reflexivity].
  rewrite last_cons.
  change (list_omap _ _ (valid_for key) calls) with (omap (valid_for key) calls).
  now destruct (last (omap (valid_for key) calls)).
Qed.

Lemma Register_all_mounted (calls : list Registration) (w : World) :
  mounted (Register_all calls w) = mounted w.
Proof.
  revert w. induction calls as [|r calls IH]; intros w; [reflexivity|].
  unfold Register_all in *. simpl. now rewrite IH, Register_mounted.
Qed.

(** Execute calls the function of the entry, once, however the call ends,
    and leaves the registry as it is. *)
Lemma Execute_entry (key : string) (entry : RegistryEntry) (w : World) :
  Registries w !! key = Some entry ->
  exists w', state_of (Execute (Typed key) w) = Some w'
    /\ mounted w' = mounted w ++ [fn entry]
    /\ Registries w' = Registries w.
Proof.
  intros Hentry. unfold Execute, bind, gets. rewrite Hentry.
  unfold logger, modify, call_entry, bind, modify.
  destruct (fn_completes (fn entry)), (async entry); simpl; eauto.
Qed.

Lemma Execute_no_entry (key : string) (w : World) :
  Registries w !! key = None ->
  Execute (Typed key) w
  = Resolved tt (emit Warn "registry" "Execute"
                   [Txt ("No function found for " +:+ quoted key)] w).
Proof. intros Hnone. unfold Execute, bind, gets. now rewrite Hnone. Qed.

(** C8: after any sequence of Register calls, for a key with at least one
    valid registration (a string name and a function) the registry holds the
    entry of the most recent valid call for that key, and Execute of the key
    calls exactly the function of that entry; for a key with no entry,
    Execute is fulfilled, calls nothing and logs a warning. *)
Theorem Execute_most_recent_Register (key : string)
    (calls : list Registration) (w : World) :
  (forall entry : RegistryEntry,
     most_recent key calls = Some entry ->
     Registries (Register_all calls w) !! key = Some entry
     /\ exists w',
          state_of (Execute (Typed key) (Register_all calls w)) = Some w'
          /\ mounted w' = mounted w ++ [fn entry])
  /\ (most_recent key calls = None ->
      Registries w !! key = None ->
      Execute (Typed key) (Register_all calls w)
      = Resolved tt (emit Warn "registry" "Execute"
                       [Txt ("No function found for " +:+ quoted key)]
                       (Register_all calls w))
      /\ mounted (Register_all calls w) = mounted w).
Proof.
  split.
  - intros entry Hrecent.
    pose proof (Register_all_lookup key calls w) as Hlk. rewrite Hrecent in Hlk.
    split; [exact Hlk|].
    destruct (Execute_entry key entry _ Hlk) as (w' & Hst & Hm & _).
    exists w'. split; [exact Hst|]. now rewrite Hm, Register_all_mounted.
  - intros Hnone Hw.
    pose proof (Register_all_lookup key calls w) as Hlk.
    rewrite Hnone, Hw in Hlk.
    split; [now apply Execute_no_entry | apply Register_all_mounted].
Qed.

(** The theorem at [three_calls]: the second function is the one called;
    and at a key nothing was registered for. *)
Lemma Execute_most_recent_Register_witness :
  (Registries (Register_all three_calls (page true ∅)) !! "pages/home"
   = Some {| fn := onMount "second"; async := true |}
   /\ exists w',
        state_of (Execute (Typed "pages/home")
                    (Register_all three_calls (page true ∅))) = Some w'
        /\ mounted w' = mounted (page true ∅) ++ [onMount "second"])
  /\ (Execute (Typed "pages/about") (Register_all three_calls (page true ∅))
      = Resolved tt (emit Warn "registry" "Execute"
                       [Txt ("No function found for " +:+ quoted "pages/about")]
                       (Register_all three_calls (page true ∅)))
      /\ mounted (Register_all three_calls (page true ∅))
         = mounted (page true ∅)).
Proof.
  split.
  - exact (proj1 (Execute_most_recent_Register "pages/home" three_calls
                    (page true ∅))
             {| fn := onMount "second"; async := true |} eq_refl).
  - exact (proj2 (Execute_most_recent_Register "pages/about" three_calls
                    (page true ∅)) eq_refl eq_refl).
Defined.

End RegistryFacts.

(** ** load.ts *)
Module LoadFacts.
Import Framework Stages Samples.

Section Facts.
Variable E : Env.
Local Open Scope js_scope.

Lemma keeps_ret {A} (a : A) : keeps_elements (ret a).
Proof. intros w w' H. now injection H as <-. Qed.

Lemma keeps_bind {A B} (m : M World A) (k : A -> M World B) :
  keeps_elements m -> (forall a, keeps_elements (k a)) ->
  keeps_elements (bind m k).
Proof.
  intros Hm Hk w w' H. unfold bind in H.
  destruct (m w) as [a w1|e w1|w1|] eqn:Hmw; simpl in H.
  - rewrite (Hk a w1 w' H). apply Hm. now rewrite Hmw.
  - injection H as <-. apply Hm. now rewrite Hmw.
  - injection H as <-. apply Hm. now rewrite Hmw.
  - discriminate.
Qed.

Lemma Register_elements (r : Registration) (w : World) :
  elements (Register r w) = elements w.
Proof.
  unfold Register. destruct (reg_name r); [|reflexivity].
  now destruct (reg_fn r).
Qed.

Lemma keeps_fetchWithCache (path : string) :
  keeps_elements (fetchWithCache E path).
Proof.
  intros w w' H. unfold fetchWithCache in H.
  destruct (truthy_item _); [now injection H as <-|].
  destruct (resource E _); now injection H as <-.
Qed.

Lemma keeps_applyTranslations (html : string) :
  keeps_elements (applyTranslations E html).
Proof.
  intros w w' H. unfold applyTranslations in H.
  destruct (translate_pieces _ _). now injection H as <-.
Qed.

Lemma append_scripts_elements base names started w :
  elements (snd (append_scripts E base names started w)) = elements w.
Proof.
  revert started w.
  induction names as [|n names IH]; intros started w; simpl; [reflexivity|].
  destruct (isScriptAlreadyLoaded _ w); now rewrite IH.
Qed.

Lemma await_scripts_elements started b w w' :
  state_of (await_scripts E started b w) = Some w' -> elements w' = elements w.
Proof.
  revert b w. induction started as [|src started IH]; intros b w H; simpl in H.
  - destruct b; now injection H as <-.
  - destruct (script_file E src) as [|regs].
    + now apply IH in H.
    + apply IH in H. rewrite H. clear.
      revert w. induction regs as [|r regs IHr]; intros w; simpl; [reflexivity|].
      now rewrite IHr, Register_elements.
Qed.

Lemma keeps_LoadScripts (html base : string) :
  keeps_elements (LoadScripts E html base).
Proof.
  intros w w' H. unfold LoadScripts in H.
  pose proof (append_scripts_elements base
                (JsString.groups (JsString.scan JsString.script_at 0 html))
                [] w) as Ha.
  destruct (append_scripts _ _ _ _ _) as [started w1]. simpl in Ha.
  apply await_scripts_elements in H. congruence.
Qed.

Lemma keeps_LoadIncludes_loop fuel lastIndex html includes :
  keeps_elements (LoadIncludes_loop E fuel lastIndex html includes).
Proof.
  revert lastIndex html includes.
  induction fuel as [|fuel IH]; intros lastIndex html includes; simpl.
  - intros w w' H. discriminate.
  - destruct (JsString.exec _ _ _) as [[m|] lastIndex'].
    + apply keeps_bind; [apply keeps_fetchWithCache|]. intros c.
      apply keeps_bind; [apply keeps_applyTranslations|]. intros c'.
      apply keeps_bind; [apply keeps_LoadScripts|]. intros _. apply IH.
    + apply keeps_ret.
Qed.

(** The bound of the loop only has to be large enough: a run that ends
    within the bound ends the same way under any larger bound. *)
Lemma LoadIncludes_loop_more_fuel (fuel fuel' lastIndex : nat)
    (html : string) (includes : list string) (w : World) :
  fuel <= fuel' ->
  LoadIncludes_loop E fuel lastIndex html includes w <> OutOfFuel ->
  LoadIncludes_loop E fuel' lastIndex html includes w
  = LoadIncludes_loop E fuel lastIndex html includes w.
Proof.
  revert fuel' lastIndex html includes w.
  induction fuel as [|fuel IH]; intros fuel' lastIndex html includes w Hle Hrun.
  - now contradict Hrun.
  - destruct fuel' as [|fuel']; [lia|].
    simpl in *.
    destruct (JsString.exec _ _ _) as [[m|] lastIndex']; [|reflexivity].
    unfold bind in *.
    destruct (fetchWithCache E _ w) as [c w0| | |]; try reflexivity.
    destruct (applyTranslations E c w0) as [c' w1| | |]; try reflexivity.
    destruct (LoadScripts E c' _ w1) as [[] w2| | |]; try reflexivity.
    apply IH; [lia | exact Hrun].
Qed.

Lemma keeps_fragment_stages fuel name :
  keeps_elements (fragment_stages E fuel name).
Proof.
  unfold fragment_stages.
  apply keeps_bind; [apply keeps_fetchWithCache|]. intros c.
  apply keeps_bind; [apply keeps_applyTranslations|]. intros c'.
  apply keeps_LoadIncludes_loop.
Qed.

(** LoadPage runs the stages and then looks up the root element. *)
Lemma LoadPage_stages (fuel : nat) (name : string) (w w2 : World)
    (html : string) (incs : list string) :
  fragment_stages E fuel name w = Resolved (html, incs) w2 ->
  LoadPage E fuel name w
  = try_catch
      (match elements w2 !! "_root" with
       | None => throw ("Element with ID " +:+ quoted "_root" +:+ " not found")
       | Some _ =>
           LoadScripts E html ("pages/" +:+ name) ;;
           modify (insert_into "_root" innerHTML html) ;;
           execute_if_registered ("pages/" +:+ name) ;;
           for_of incs execute_if_registered ;;
           RefreshIcons ;;
           SetCurrentPage name
       end)
      (fun error =>
         logger Error "load" "LoadPage"
           [Txt ("Error loading page: " +:+ name); Obj [("error", error)]])
      w2.
Proof.
  intros Hst. unfold fragment_stages, bind in Hst.
  unfold LoadPage, try_catch, bind.
  destruct (fetchWithCache E _ w) as [h w0| | |]; try discriminate.
  destruct (applyTranslations E h w0) as [h' w1| | |]; try discriminate.
  rewrite Hst. unfold gets. reflexivity.
Qed.

Lemma LoadPage_without_root (fuel : nat) (name : string) (w w2 : World)
    (html : string) (incs : list string) :
  elements w !! "_root" = None ->
  fragment_stages E fuel name w = Resolved (html, incs) w2 ->
  LoadPage E fuel name w
  = Resolved tt (emit Error "load" "LoadPage" (root_error name) w2).
Proof.
  intros Hroot Hst.
  assert (Hel : elements w2 = elements w).
  { apply (keeps_fragment_stages fuel name). now rewrite Hst. }
  rewrite (LoadPage_stages _ _ _ _ _ _ Hst), Hel, Hroot. reflexivity.
Qed.

(** A handler that only logs turns every rejection into a result. *)
Lemma try_catch_logs {A} (body : M World A) (handler : string -> M World A) :
  (forall e w, is_rejected (handler e w) = false) ->
  forall w, is_rejected (try_catch body handler w) = false.
Proof.
  intros Hh w. unfold try_catch.
  destruct (body w); simpl; auto.
Qed.

Lemma LoadPage_not_rejected (fuel : nat) (name : string) (w : World) :
  is_rejected (LoadPage E fuel name w) = false.
Proof. unfold LoadPage. now apply try_catch_logs. Qed.

Lemma LoadTemplate_not_rejected (path : string) (options : LoadTemplateOptions)
    (w : World) :
  is_rejected (LoadTemplate E path options w) = false.
Proof. unfold LoadTemplate. now apply try_catch_logs. Qed.

Lemma fetchWithCache_fails (path : string) (w : World) :
  truthy_item (sessionStorage w !! cachedViewKey path) = None ->
  resource E (getURL E path) = None ->
  fetchWithCache E path w
  = Rejected "TypeError: Failed to fetch"
      (set_fetched (fun l => l ++ [getURL E path]) w).
Proof. intros Hc Hr. unfold fetchWithCache. now rewrite Hc, Hr. Qed.

Lemma LoadPage_fetch_fails (fuel : nat) (name : string) (w : World) :
  truthy_item (sessionStorage w
                 !! cachedViewKey ("pages/" +:+ name +:+ "/index.html")) = None ->
  resource E (getURL E ("pages/" +:+ name +:+ "/index.html")) = None ->
  LoadPage E fuel name w
  = Resolved tt
      (emit Error "load" "LoadPage"
         (fetch_error ("Error loading page: " +:+ name))
         (set_fetched
            (fun l => l ++ [getURL E ("pages/" +:+ name +:+ "/index.html")]) w)).
Proof.
  intros Hc Hr. unfold LoadPage, try_catch, bind.
  now rewrite (fetchWithCache_fails _ w Hc Hr).
Qed.

Lemma LoadTemplate_fetch_fails (path : string) (options : LoadTemplateOptions)
    (w : World) :
  truthy_item (sessionStorage w
                 !! cachedViewKey ("templates/" +:+ path +:+ "/index.html"))
  = None ->
  resource E (getURL E ("templates/" +:+ path +:+ "/index.html")) = None ->
  LoadTemplate E path options w
  = Resolved tt
      (emit Error "load" "LoadTemplate"
         (fetch_error ("Failed to load template: " +:+ path))
         (set_fetched
            (fun l => l ++ [getURL E ("templates/" +:+ path +:+ "/index.html")])
            w)).
Proof.
  intros Hc Hr. unfold LoadTemplate, try_catch, bind.
  now rewrite (fetchWithCache_fails _ w Hc Hr).
Qed.

(** C3 (as amended): when the root element is absent, LoadPage fails right
    after the fragment has been fetched and translated and its includes have
    been resolved (which loads the scripts of the includes), and before it
    loads the scripts of the page: the state it leaves is the one after
    those stages with the error logged, so no script of the page has been
    appended, nothing has been spliced and no callback has been called. *)
Theorem LoadPage_missing_root_fails_before_page_scripts (fuel : nat)
    (name : string) (w w2 : World) (html : string) (incs : list string) :
  elements w !! "_root" = None ->
  fragment_stages E fuel name w = Resolved (html, incs) w2 ->
  LoadPage E fuel name w
  = Resolved tt (emit Error "load" "LoadPage" (root_error name) w2).
Proof. apply LoadPage_without_root. Qed.

(** C5 (as amended): LoadPage and LoadTemplate never reject to their caller;
    a fragment that cannot be fetched and a missing root element are caught,
    logged with [logger.error] and swallowed: the call is fulfilled, with no
    value, like a successful one. *)
Theorem LoadPage_LoadTemplate_never_reject :
  (forall (fuel : nat) (name : string) (w : World),
     is_rejected (LoadPage E fuel name w) = false)
  /\ (forall (path : string) (options : LoadTemplateOptions) (w : World),
        is_rejected (LoadTemplate E path options w) = false)
  /\ (forall (fuel : nat) (name : string) (w : World),
        truthy_item (sessionStorage w
          !! cachedViewKey ("pages/" +:+ name +:+ "/index.html")) = None ->
        resource E (getURL E ("pages/" +:+ name +:+ "/index.html")) = None ->
        LoadPage E fuel name w
        = Resolved tt
            (emit Error "load" "LoadPage"
               (fetch_error ("Error loading page: " +:+ name))
               (set_fetched
                  (fun l => l ++ [getURL E ("pages/" +:+ name +:+ "/index.html")])
                  w)))
  /\ (forall (path : string) (options : LoadTemplateOptions) (w : World),
        truthy_item (sessionStorage w
          !! cachedViewKey ("templates/" +:+ path +:+ "/index.html")) = None ->
        resource E (getURL E ("templates/" +:+ path +:+ "/index.html")) = None ->
        LoadTemplate E path options w
        = Resolved tt
            (emit Error "load" "LoadTemplate"
               (fetch_error ("Failed to load template: " +:+ path))
               (set_fetched
                  (fun l =>
                     l ++ [getURL E ("templates/" +:+ path +:+ "/index.html")])
                  w)))
  /\ (forall (fuel : nat) (name : string) (w w2 : World) (html : string)
             (incs : list string),
        elements w !! "_root" = None ->
        fragment_stages E fuel name w = Resolved (html, incs) w2 ->
        LoadPage E fuel name w
        = Resolved tt (emit Error "load" "LoadPage" (root_error name) w2)).
Proof.
  split; [exact LoadPage_not_rejected|].
  split; [exact LoadTemplate_not_rejected|].
  split; [exact LoadPage_fetch_fails|].
  split; [exact LoadTemplate_fetch_fails|].
  exact LoadPage_without_root.
Qed.

(** C9 (the failing input): for a path whose file is empty, the first call
    fetches it and stores the empty text, and the second call, finding an
    item that is falsy, fetches again: two calls, two fetches. *)
Theorem fetchWithCache_empty_text_fetches_again (path : string) (w : World) :
  truthy_item (sessionStorage w !! cachedViewKey path) = None ->
  resource E (getURL E path) = Some EmptyString ->
  exists w1 w2,
    fetchWithCache E path w = Resolved EmptyString w1
    /\ sessionStorage w1 !! cachedViewKey path = Some EmptyString
    /\ fetchWithCache E path w1 = Resolved EmptyString w2
    /\ fetched w2 = fetched w ++ [getURL E path; getURL E path].
Proof.
  intros Hc Hr.
  set (w1 := set_sessionStorage <[cachedViewKey path := EmptyString]>
               (set_fetched (fun l => l ++ [getURL E path]) w)).
  assert (H1 : fetchWithCache E path w = Resolved EmptyString w1).
  { unfold fetchWithCache. now rewrite Hc, Hr. }
  assert (Hs : sessionStorage w1 !! cachedViewKey path = Some EmptyString).
  { apply lookup_insert_eq. }
  exists w1. eexists. split; [exact H1|]. split; [exact Hs|].
  unfold fetchWithCache. rewrite Hs, Hr. simpl.
  split; [reflexivity|]. simpl. now rewrite <- app_assoc.
Qed.

(** For a text that is not empty the second call is answered by the store:
    two calls, the same text, one fetch. *)
Lemma fetchWithCache_twice (path text : string) (w : World) :
  truthy_item (sessionStorage w !! cachedViewKey path) = None ->
  resource E (getURL E path) = Some text ->
  JsString.nonempty text = true ->
  exists w1,
    fetchWithCache E path w = Resolved text w1
    /\ fetchWithCache E path w1 = Resolved text w1
    /\ fetched w1 = fetched w ++ [getURL E path].
Proof.
  intros Hc Hr Hne.
  set (w1 := set_sessionStorage <[cachedViewKey path := text]>
               (set_fetched (fun l => l ++ [getURL E path]) w)).
  assert (Hs : sessionStorage w1 !! cachedViewKey path = Some text).
  { apply lookup_insert_eq. }
  exists w1. unfold fetchWithCache. rewrite Hc, Hr, Hs. simpl. rewrite Hne.
  repeat split.
Qed.

(** ** The order of the callbacks *)

Lemma execute_if_registered_returns (key : string) (w : World) :
  all_return w ->
  exists w',
    execute_if_registered key w = Resolved tt w'
    /\ mounted w' = mounted w ++ option_list (fn <$> Registries w !! key)
    /\ Registries w' = Registries w
    /\ elements w' = elements w.
Proof.
  intros Hall. unfold execute_if_registered, bind, gets.
  destruct (Registries w !! key) as [entry|] eqn:Hentry.
  - unfold Execute, bind, gets. rewrite Hentry.
    unfold logger, modify, call_entry, bind, modify.
    rewrite (Hall key entry Hentry).
    eexists. split; [reflexivity|]. simpl. auto.
  - exists w. unfold ret. simpl. rewrite List.app_nil_r. auto.
Qed.

Lemma for_of_execute_returns (keys : list string) (w : World) :
  all_return w ->
  exists w',
    for_of keys execute_if_registered w = Resolved tt w'
    /\ mounted w'
       = mounted w ++ omap (fun key => fn <$> Registries w !! key) keys
    /\ Registries w' = Registries w
    /\ elements w' = elements w.
Proof.
  revert w. induction keys as [|key keys IH]; intros w Hall.
  - exists w. simpl. unfold ret. rewrite List.app_nil_r. auto.
  - destruct (execute_if_registered_returns key w Hall)
      as (w1 & Hrun & Hm & Hr & He).
    assert (Hall1 : all_return w1) by (unfold all_return; now rewrite Hr).
    destruct (IH w1 Hall1) as (w2 & Hrun2 & Hm2 & Hr2 & He2).
    exists w2. simpl. unfold bind. rewrite Hrun, Hrun2.
    split; [reflexivity|].
    rewrite Hm2, Hm, Hr, Hr2, He2, He.
    repeat split; auto.
    rewrite <- app_assoc. f_equal.
    change (list_omap _ _ ?f keys) with (omap f keys).
    now destruct (Registries w !! key).
Qed.

(** When the root element exists, the scripts of the page load and every
    registered function returns, LoadPage calls the function of the page
    first and then those of the includes, in the order in which the includes
    were resolved, and the resolved text is the content of the root. *)
Lemma LoadPage_dispatch_order (fuel : nat) (name : string) (w w2 w3 : World)
    (html : string) (incs : list string) (root : Element) :
  elements w !! "_root" = Some root ->
  fragment_stages E fuel name w = Resolved (html, incs) w2 ->
  LoadScripts E html ("pages/" +:+ name) w2 = Resolved tt w3 ->
  all_return w3 ->
  exists w',
    LoadPage E fuel name w = Resolved tt w'
    /\ mounted w' = mounted w3 ++ dispatched (Registries w3) name incs
    /\ root_html w' = Some [Markup html].
Proof.
  intros Hroot Hst Hscripts Hall.
  assert (Hel2 : elements w2 = elements w).
  { apply (keeps_fragment_stages fuel name). now rewrite Hst. }
  assert (Hel3 : elements w3 = elements w2).
  { apply (keeps_LoadScripts html ("pages/" +:+ name)). now rewrite Hscripts. }
  rewrite (LoadPage_stages _ _ _ _ _ _ Hst), Hel2, Hroot.
  unfold try_catch, bind at 1. rewrite Hscripts.
  unfold bind at 1, modify at 1.
  set (w4 := insert_into "_root" innerHTML html w3).
  assert (Hall4 : all_return w4) by exact Hall.
  destruct (for_of_execute_returns (("pages/" +:+ name) :: incs) w4 Hall4)
    as (w5 & Hrun & Hm & Hr & He).
  simpl in Hrun. unfold bind at 1 in Hrun.
  unfold bind at 1.
  destruct (execute_if_registered ("pages/" +:+ name) w4)
    as [[] w4'| | |]; try discriminate.
  unfold bind at 1. rewrite Hrun.
  assert (Hroot5 : elements w5 !! "_root"
                   = Some {| children := [Markup html];
                             attributes := attributes root |}).
  { rewrite He. unfold w4, insert_into. simpl.
    rewrite lookup_alter_eq, Hel3, Hel2, Hroot. reflexivity. }
  unfold RefreshIcons, SetCurrentPage, bind, modify, logger, modify, gets.
  simpl. rewrite Hroot5.
  eexists. split; [reflexivity|]. simpl. split.
  - rewrite Hm. reflexivity.
  - unfold root_html. simpl. now rewrite lookup_insert_eq.
Qed.

End Facts.

(** ** The failing inputs, counterexamples and instances *)

(** C1 (the failing input): a page with two include markers side by side,
    the first of which stands for a fragment shorter than the marker. The
    search for the next marker resumes, in the text that now holds the
    fragment, at the offset where the first marker ended, which is past the
    start of the second marker: the second include is never resolved and
    its registered callback is never called. *)
Theorem LoadPage_two_includes_misses_second (n : nat) :
  exists w',
    LoadPage two_includes (S (S n)) "home" (page true all_registered)
    = Resolved tt w'
    /\ map fn_id (mounted w') = ["pages/home"; "includes/header"]
    /\ root_html w' = Some [Markup "<hr> <!-- include('footer') -->"]
    /\ fetched w' = ["chrome-extension://webciel/pages/home/index.html";
                     "chrome-extension://webciel/includes/header/index.html"].
Proof.
  eexists. split; [vm_compute; reflexivity|].
  repeat split.
Qed.

(** With a first fragment that is longer than its marker, both includes are
    resolved, and the three callbacks are called in the order page, first
    include, second include. *)
Example LoadPage_two_long_includes (n : nat) :
  exists w',
    LoadPage two_long_includes (S (S (S n))) "home" (page true all_registered)
    = Resolved tt w'
    /\ map fn_id (mounted w')
       = ["pages/home"; "includes/header"; "includes/footer"]
    /\ root_html w'
       = Some [Markup
           "<header><h1>Assistant</h1></header> <footer>bye</footer>"].
Proof.
  eexists. split; [vm_compute; reflexivity|].
  repeat split.
Qed.

(** C2 (the failing input): an include whose fragment holds another include
    marker near its start. LoadIncludes does not call itself; its one loop
    goes on in the text that now holds the fragment, from the offset where
    the outer marker ended, which is past the inner marker: the inner marker
    stays in the text that is returned and spliced into the page. *)
Theorem LoadIncludes_nested_marker_remains (n : nat) :
  (exists w',
     LoadIncludes nested_include (S (S n)) "<!-- include('card') -->"
       (page true ∅)
     = Resolved ("<div><!-- include('badge') --></div>", ["includes/card"]) w'
     /\ fetched w' = ["chrome-extension://webciel/includes/card/index.html"])
  /\ (exists w',
        LoadPage nested_include (S (S n)) "home" (page true ∅) = Resolved tt w'
        /\ root_html w'
           = Some [Markup "<div><!-- include('badge') --></div>"]).
Proof.
  split; eexists; (split; [vm_compute; reflexivity|]); reflexivity.
Qed.

(** An inner marker that lies beyond that offset is found by the same loop
    and replaced, after the outer include has been recorded. *)
Example LoadIncludes_nested_marker_far (n : nat) :
  exists w',
    LoadIncludes nested_include_far (S (S (S n))) "<!-- include('card') -->"
      (page true ∅)
    = Resolved ("<div class='card card-wide'><b>new</b></div>",
                ["includes/card"; "includes/badge"]) w'.
Proof. eexists. vm_compute. reflexivity. Qed.

(** C3 (counterexample): a page with a script marker, loaded into a document
    without the root element. The run ends with the error for the missing
    root, and the script of the page has not been appended: script loading
    has not taken place when the operation fails. *)
Lemma LoadPage_missing_root_page_script_unloaded :
  exists w2 w',
    elements (page false ∅) !! "_root" = None
    /\ fragment_stages (scripted (Runs [])) 1 "home" (page false ∅)
       = Resolved ("<h1>Home</h1><!-- script('index') -->", []) w2
    /\ LoadPage (scripted (Runs [])) 1 "home" (page false ∅) = Resolved tt w'
    /\ console w' = [line Error "load" "LoadPage" (root_error "home")]
    /\ scripts w' = []
    /\ ~ page_scripts_loaded (scripted (Runs [])) "home"
           "<h1>Home</h1><!-- script('index') -->" w'.
Proof.
  eexists _, _. split; [reflexivity|].
  split; [vm_compute; reflexivity|].
  split; [vm_compute; reflexivity|].
  split; [reflexivity|]. split; [reflexivity|].
  intros Hloaded. specialize (Hloaded "index").
  assert (Hin : "index" ∈ JsString.groups
                  (JsString.scan JsString.script_at 0
                     "<h1>Home</h1><!-- script('index') -->")).
  { change ("index" ∈ ["index"]). apply list_elem_of_singleton. reflexivity. }
  apply Hloaded in Hin. simpl in Hin. now apply not_elem_of_nil in Hin.
Qed.

(** With the root element the same page has its script appended. *)
Example LoadPage_with_root_loads_page_script :
  exists w',
    LoadPage (scripted (Runs [])) 1 "home" (page true ∅) = Resolved tt w'
    /\ scripts w' = ["chrome-extension://webciel/pages/home/index.js"]
    /\ root_html w' = Some [Markup "<h1>Home</h1><!-- script('index') -->"].
Proof.
  eexists. split; [vm_compute; reflexivity|].
  repeat split.
Qed.

(** LoadTemplate: the placeholders are replaced before the tokens, and a
    dollar pattern in a replacement value is interpreted; with [append] the
    text becomes a text node of the element. *)
Example LoadTemplate_innerHTML :
  exists w',
    LoadTemplate with_template "widgets/infoBox" (sidebar innerHTML)
      (page true ∅) = Resolved tt w'
    /\ root_html w' = Some [Markup "<p>Jane Doe: Hi {date} 2025</p>"].
Proof.
  eexists. split; [vm_compute; reflexivity|]. reflexivity.
Qed.

Example LoadTemplate_append :
  exists w',
    LoadTemplate with_template "widgets/infoBox" (sidebar append)
      (page true ∅) = Resolved tt w'
    /\ root_html w' = Some [TextNode "<p>Jane Doe: Hi {date} 2025</p>"].
Proof.
  eexists. split; [vm_compute; reflexivity|]. reflexivity.
Qed.

(** A script that registers the callback of its page runs before the
    callbacks are dispatched. *)
Example LoadPage_self_registering :
  exists w',
    LoadPage self_registering 1 "home" (page true ∅) = Resolved tt w'
    /\ mounted w' = [onMount "pages/home"].
Proof.
  eexists. split; [vm_compute; reflexivity|]. reflexivity.
Qed.

(** The theorem of C3 at that page. *)
Lemma LoadPage_missing_root_witness :
  LoadPage (scripted (Runs [])) 1 "home" (page false ∅)
  = Resolved tt
      (emit Error "load" "LoadPage" (root_error "home")
         (set_sessionStorage
            <[cachedViewKey "pages/home/index.html"
              := "<h1>Home</h1><!-- script('index') -->"]>
            (set_fetched
               (fun l => l ++ ["chrome-extension://webciel/pages/home/index.html"])
               (page false ∅)))).
Proof.
  apply (LoadPage_missing_root_fails_before_page_scripts (scripted (Runs []))
           1 "home" (page false ∅) _
           "<h1>Home</h1><!-- script('index') -->" []).
  - reflexivity.
  - vm_compute. reflexivity.
Defined.

(** C5 (counterexample): a page whose script fails to load. Nothing is
    caught and nothing is logged: the call never settles, with the script
    element appended and the page not spliced. *)
Lemma LoadPage_script_failure_never_settles :
  exists w',
    script_file (scripted LoadFails)
      "chrome-extension://webciel/pages/home/index.js" = LoadFails
    /\ LoadPage (scripted LoadFails) 1 "home" (page true ∅) = Pending w'
    /\ scripts w' = ["chrome-extension://webciel/pages/home/index.js"]
    /\ root_html w' = Some []
    /\ console w' = []
    /\ ~ logged Error w'.
Proof.
  eexists. split; [reflexivity|].
  split; [vm_compute; reflexivity|].
  split; [reflexivity|]. split; [reflexivity|]. split; [reflexivity|].
  intros (l & Hl & _). simpl in Hl. now apply not_elem_of_nil in Hl.
Qed.

(** The theorem of C5 at a page that is not in the extension and at a page
    loaded into a document without the root element. *)
Lemma LoadPage_LoadTemplate_never_reject_witness :
  LoadPage empty_page 1 "missing" (page true ∅)
  = Resolved tt
      (emit Error "load" "LoadPage"
         (fetch_error "Error loading page: missing")
         (set_fetched
            (fun l =>
               l ++ ["chrome-extension://webciel/pages/missing/index.html"])
            (page true ∅)))
  /\ LoadPage (scripted (Runs [])) 1 "home" (page false ∅)
     = Resolved tt
         (emit Error "load" "LoadPage" (root_error "home")
            (set_sessionStorage
               <[cachedViewKey "pages/home/index.html"
                 := "<h1>Home</h1><!-- script('index') -->"]>
               (set_fetched
                  (fun l =>
                     l ++ ["chrome-extension://webciel/pages/home/index.html"])
                  (page false ∅)))).
Proof.
  split.
  - apply (proj1 (proj2 (proj2 (LoadPage_LoadTemplate_never_reject empty_page)))
             1 "missing" (page true ∅)); reflexivity.
  - apply (proj2 (proj2 (proj2 (proj2
             (LoadPage_LoadTemplate_never_reject (scripted (Runs []))))))
             1 "home" (page false ∅) _
             "<h1>Home</h1><!-- script('index') -->" []).
    + reflexivity.
    + vm_compute. reflexivity.
Defined.

(** The theorem of C9 at a page that is an empty file. *)
Lemma fetchWithCache_empty_text_witness :
  exists w1 w2,
    fetchWithCache empty_page "pages/blank/index.html" (page true ∅)
    = Resolved EmptyString w1
    /\ sessionStorage w1 !! cachedViewKey "pages/blank/index.html"
       = Some EmptyString
    /\ fetchWithCache empty_page "pages/blank/index.html" w1
       = Resolved EmptyString w2
    /\ fetched w2
       = fetched (page true ∅)
         ++ [getURL empty_page "pages/blank/index.html";
             getURL empty_page "pages/blank/index.html"].
Proof.
  apply (fetchWithCache_empty_text_fetches_again empty_page
           "pages/blank/index.html" (page true ∅)); reflexivity.
Defined.

End LoadFacts.

(** ** api.ts *)
Module ApiFacts.
Import Framework Api Observed Samples.

Section Facts.
Variable P : Platform.

Example status_text : Z_to_string 404 = "404".
Proof. reflexivity. Qed.

Example ok_range : map (fun st => ok {| resp_status := st; resp_json := None |})
                     [199; 200; 204; 299; 300; 404; 500]%Z
                   = [false; true; true; true; false; false; false].
Proof. reflexivity. Qed.

(** Reading the cache changes nothing but the console. *)
Lemma getCacheData_frame (api : Api) (key : string) (use : bool) (s : Session) :
  exists v c,
    getCacheData P api key use s = Resolved v (set_console (fun _ => c) s).
Proof.
  unfold getCacheData.
  destruct use; simpl.
  2:{ exists JNull, (console s). unfold ret. f_equal. now destruct s. }
  unfold bind, gets.
  destruct (truthy_item (storage s !! key)) as [item|].
  2:{ exists JNull, (console s). unfold ret. f_equal. now destruct s. }
  destruct (JSON_parse P item) as [parsed|].
  2:{ eexists _, _. unfold logger, modify, ret, set_console. simpl.
      reflexivity. }
  assert (Hwarn : exists v c,
    (bind (logger Warn (logger_prefix api) "getCacheData"
             [Txt "Invalid cache format"])
       (fun _ => ret JNull)) s = Resolved v (set_console (fun _ => c) s)).
  { eexists _, _. unfold bind, logger, modify, ret, set_console. simpl.
    reflexivity. }
  destruct parsed; try exact Hwarn;
    match goal with
    | |- context [if ?b then _ else _] => destruct b
    end;
    eexists _, _; unfold bind, logger, modify, ret, set_console; simpl;
    reflexivity.
Qed.

(** A fresh item is returned, whatever its payload. *)
Lemma getCacheData_fresh (api : Api) (key item : string) (d : JsVal) (t : Z)
    (s : Session) :
  storage s !! key = Some item ->
  JsString.nonempty item = true ->
  JSON_parse P item = Some (cache_item d t) ->
  (now s - t < cacheDuration)%Z ->
  getCacheData P api key true s
  = Resolved d (set_console
      (fun c => c ++ [line Log (logger_prefix api) "getCacheData"
                        [Txt "Returning cached data"]]) s).
Proof.
  intros Hitem Hne Hparse Hfresh.
  unfold getCacheData, bind, gets. simpl.
  rewrite Hitem. simpl. rewrite Hne, Hparse. simpl.
  apply Z.ltb_lt in Hfresh. now rewrite Hfresh.
Qed.

(** An item that is one hour old or older is not returned. *)
Lemma getCacheData_expired (api : Api) (key item : string) (d : JsVal) (t : Z)
    (s : Session) :
  storage s !! key = Some item ->
  JsString.nonempty item = true ->
  JSON_parse P item = Some (cache_item d t) ->
  (cacheDuration <= now s - t)%Z ->
  getCacheData P api key true s
  = Resolved JNull (set_console
      (fun c => c ++ [line Log (logger_prefix api) "getCacheData"
                        [Txt "Cache expired"]]) s).
Proof.
  intros Hitem Hne Hparse Hold.
  unfold getCacheData, bind, gets. simpl.
  rewrite Hitem. simpl. rewrite Hne, Hparse. simpl.
  apply Z.ltb_ge in Hold. now rewrite Hold.
Qed.

(** With no item under the key nothing is returned and nothing is logged. *)
Lemma getCacheData_absent (api : Api) (key : string) (s : Session) :
  storage s !! key = None ->
  getCacheData P api key true s = Resolved JNull s.
Proof.
  intros Hnone. unfold getCacheData, bind, gets. simpl. now rewrite Hnone.
Qed.

Lemma drop_all_length {A} (l : list A) : drop (length l) l = [].
Proof. now rewrite drop_all. Qed.

(** C6: a call that reaches the network (it makes a call of fetch) and
    receives a response whose status is outside 200-299 is rejected with the
    error [HTTP Error: <status>], and the store is left as it was. *)
Theorem request_non_2xx_rejects (api : Api) (endpoint : string)
    (opts : RequestOptions) (s : Session) (elapsed : Z) (r : Response)
    (rest : list (Z * Answer)) :
  inbox s = (elapsed, Respond r) :: rest ->
  ok r = false ->
  network_calls s (request P api endpoint opts s) <> Some [] ->
  exists s',
    request P api endpoint opts s
    = Rejected ("HTTP Error: " +:+ Z_to_string (resp_status r)) s'
    /\ storage s' = storage s.
Proof.
  intros Hin Hok.
  unfold request, try_catch, bind, logger, modify, window_fetch.
  fold (request_line api endpoint opts).
  destruct (getCacheData_frame api (cacheKey_of (baseUrl api +:+ endpoint))
              (default true (useCache opts))
              (set_console (fun c => c ++ [request_line api endpoint opts]) s))
    as (v & c & ->).
  destruct (truthy v) eqn:Hv.
  - intros Hnet. exfalso. apply Hnet.
    unfold network_calls, ret. simpl. now rewrite drop_all_length.
  - intros _. simpl. rewrite Hin, Hok. simpl.
    eexists. split; reflexivity.
Qed.

(** A fresh item with a truthy payload is served without a network call and
    without a write. *)
Lemma request_served_from_cache (api : Api) (endpoint : string)
    (opts : RequestOptions) (s : Session) (item : string) (d : JsVal) (t : Z) :
  default true (useCache opts) = true ->
  storage s !! cacheKey_of (baseUrl api +:+ endpoint) = Some item ->
  JsString.nonempty item = true ->
  JSON_parse P item = Some (cache_item d t) ->
  (now s - t < cacheDuration)%Z ->
  truthy d = true ->
  exists resp s',
    request P api endpoint opts s = Resolved resp s'
    /\ data resp = d /\ status resp = 200%Z
    /\ network s' = network s /\ storage s' = storage s.
Proof.
  intros Huse Hitem Hne Hparse Hfresh Hd.
  unfold request, bind at 1, logger at 1, modify. rewrite Huse.
  unfold bind at 1.
  erewrite getCacheData_fresh; eauto. rewrite Hd.
  unfold ret. eexists _, _. split; [reflexivity|]. simpl. auto.
Qed.

(** What a call does once the cache has given a falsy value: the network is
    called, and a 2xx response with a JSON object is returned, and written
    to the store with the time of the write when caching is on. *)
Lemma request_falsy_cache (api : Api) (endpoint : string)
    (opts : RequestOptions) (s s1 : Session) (v : JsVal) (elapsed : Z)
    (st : Z) (json : list (string * JsVal)) (rest : list (Z * Answer)) :
  getCacheData P api (cacheKey_of (baseUrl api +:+ endpoint))
    (default true (useCache opts))
    (set_console (fun c => c ++ [request_line api endpoint opts]) s)
  = Resolved v s1 ->
  truthy v = false ->
  inbox s
  = (elapsed, Respond {| resp_status := st; resp_json := Some (JObj json) |})
    :: rest ->
  (200 <= st <= 299)%Z ->
  exists resp s',
    request P api endpoint opts s = Resolved resp s'
    /\ data resp = property (JObj json) "data" /\ status resp = st
    /\ network s' = network s ++ [call_of P api endpoint opts]
    /\ console s' = console s1
    /\ now s' = (now s + elapsed)%Z /\ inbox s' = rest
    /\ storage s'
       = if default true (useCache opts)
         then <[cacheKey_of (baseUrl api +:+ endpoint) :=
                  JSON_stringify P
                    (cache_item (property (JObj json) "data") (now s + elapsed))]>
                (storage s)
         else storage s.
Proof.
  intros Hget Hv Hin Hst.
  pose proof (getCacheData_frame api (cacheKey_of (baseUrl api +:+ endpoint))
    (default true (useCache opts))
    (set_console (fun c => c ++ [request_line api endpoint opts]) s))
    as (v' & c & Hframe).
  rewrite Hget in Hframe. injection Hframe as -> ->.
  unfold request, try_catch, bind, logger, modify, window_fetch.
  fold (request_line api endpoint opts).
  rewrite Hget, Hv. simpl. rewrite Hin.
  unfold ok. simpl.
  replace ((200 <=? st)%Z && (st <=? 299)%Z) with true
    by (symmetry; apply andb_true_iff; split; apply Z.leb_le; lia).
  simpl.
  destruct (default true (useCache opts)); simpl;
    eexists _, _; (split; [reflexivity|]); simpl; auto 10.
Qed.

(** With no item, or with an item that is one hour old or older, the network
    is called and, on success, the item is written with the new payload and
    the time of the write. *)
Lemma request_miss_fetches_and_caches (api : Api) (endpoint : string)
    (opts : RequestOptions) (s : Session) (elapsed st : Z)
    (json : list (string * JsVal)) (rest : list (Z * Answer)) :
  default true (useCache opts) = true ->
  (storage s !! cacheKey_of (baseUrl api +:+ endpoint) = None
   \/ exists item d t,
        storage s !! cacheKey_of (baseUrl api +:+ endpoint) = Some item
        /\ JsString.nonempty item = true
        /\ JSON_parse P item = Some (cache_item d t)
        /\ (cacheDuration <= now s - t)%Z) ->
  inbox s
  = (elapsed, Respond {| resp_status := st; resp_json := Some (JObj json) |})
    :: rest ->
  (200 <= st <= 299)%Z ->
  exists resp s',
    request P api endpoint opts s = Resolved resp s'
    /\ data resp = property (JObj json) "data"
    /\ network s' = network s ++ [call_of P api endpoint opts]
    /\ storage s'
       = <[cacheKey_of (baseUrl api +:+ endpoint) :=
             JSON_stringify P
               (cache_item (property (JObj json) "data") (now s + elapsed))]>
           (storage s).
Proof.
  intros Huse Hmiss Hin Hst.
  assert (Hget : exists s1,
    getCacheData P api (cacheKey_of (baseUrl api +:+ endpoint))
      (default true (useCache opts))
      (set_console (fun c => c ++ [request_line api endpoint opts]) s)
    = Resolved JNull s1).
  { rewrite Huse. destruct Hmiss as [Hnone | (item & d & t & Hi & Hne & Hp & Ho)].
    - eexists. now apply getCacheData_absent.
    - eexists. now apply (getCacheData_expired api _ item d t). }
  destruct Hget as (s1 & Hget).
  destruct (request_falsy_cache api endpoint opts s s1 JNull elapsed st json
              rest Hget eq_refl Hin Hst)
    as (resp & s' & Hreq & Hdata & _ & Hnet & _ & _ & _ & Hsto).
  rewrite Huse in Hsto. eauto 10.
Qed.

(** A call with [useCache] false reads no item, calls the network once and
    writes no item, however the call ends. *)
Lemma request_without_cache (api : Api) (endpoint : string)
    (opts : RequestOptions) (s : Session) :
  useCache opts = Some false ->
  exists s',
    state_of (request P api endpoint opts s) = Some s'
    /\ storage s' = storage s
    /\ network s' = network s ++ [call_of P api endpoint opts].
Proof.
  intros Huse.
  unfold request, try_catch, bind, logger, modify, window_fetch.
  rewrite Huse. simpl.
  destruct (inbox s) as [|[elapsed [e|r]] rest]; simpl; eauto.
  destruct (ok r); simpl; eauto.
  destruct (resp_json r) as [[]|]; simpl; eauto.
Qed.

(** [reload()] always calls the network and never touches the store. *)
Lemma reload_leaves_store (api : Api) (endpoint : string)
    (opts : RequestOptions) (r : ApiResponse) (s : Session) :
  reload r = (endpoint, without_cache opts) ->
  exists s',
    state_of (call_reload P api r s) = Some s'
    /\ storage s' = storage s
    /\ network s' = network s ++ [call_of P api endpoint opts].
Proof.
  intros Hr. unfold call_reload. rewrite Hr. simpl.
  apply (request_without_cache api endpoint (without_cache opts) s eq_refl).
Qed.

(** Every response carries the arguments of the reload of its call. *)
Lemma request_reload (api : Api) (endpoint : string) (opts : RequestOptions)
    (s s' : Session) (r : ApiResponse) :
  request P api endpoint opts s = Resolved r s' ->
  reload r = (endpoint, without_cache opts).
Proof.
  unfold request, try_catch, bind, logger, modify, window_fetch.
  fold (request_line api endpoint opts).
  destruct (getCacheData_frame api (cacheKey_of (baseUrl api +:+ endpoint))
              (default true (useCache opts))
              (set_console (fun c => c ++ [request_line api endpoint opts]) s))
    as (v & c & ->).
  destruct (truthy v).
  - unfold ret. intros H. now injection H as <- _.
  - simpl. destruct (inbox s) as [|[elapsed [e|resp]] rest]; simpl;
      try discriminate.
    destruct (ok resp); simpl; try discriminate.
    destruct (resp_json resp) as [[]|]; simpl; try discriminate;
      destruct (default true (useCache opts)); simpl;
      intros H; now injection H as <- _.
Qed.

(** A fresh item whose payload is falsy: [getCacheData] returns the payload
    and says so on the console, and [request] goes on to the network. *)
Lemma refetch_on_falsy_payload (api : Api) (endpoint : string)
    (opts : RequestOptions) (s : Session) (item : string) (d : JsVal)
    (t elapsed st : Z) (json : list (string * JsVal))
    (rest : list (Z * Answer)) :
  default true (useCache opts) = true ->
  storage s !! cacheKey_of (baseUrl api +:+ endpoint) = Some item ->
  JsString.nonempty item = true ->
  JSON_parse P item = Some (cache_item d t) ->
  (now s - t < cacheDuration)%Z ->
  truthy d = false ->
  inbox s
  = (elapsed, Respond {| resp_status := st; resp_json := Some (JObj json) |})
    :: rest ->
  (200 <= st <= 299)%Z ->
  exists resp s',
    request P api endpoint opts s = Resolved resp s'
    /\ data resp = property (JObj json) "data"
    /\ network s' = network s ++ [call_of P api endpoint opts]
    /\ line Log (logger_prefix api) "getCacheData" [Txt "Returning cached data"]
       ∈ console s'.
Proof.
  intros Huse Hitem Hne Hparse Hfresh Hd Hin Hst.
  pose proof (getCacheData_fresh api (cacheKey_of (baseUrl api +:+ endpoint))
                item d t
                (set_console (fun c => c ++ [request_line api endpoint opts]) s)
                Hitem Hne Hparse Hfresh) as Hget.
  destruct (request_falsy_cache api endpoint opts s _ d elapsed st json rest
              (eq_trans (f_equal (fun use => getCacheData P api _ use _) Huse)
                 Hget)
              Hd Hin Hst)
    as (resp & s' & Hreq & Hdata & _ & Hnet & Hcon & _).
  exists resp, s'. repeat split; auto.
  rewrite Hcon. simpl. apply elem_of_app. right.
  now apply list_elem_of_singleton.
Qed.

(** After [reload()], a call with caching on, made within the hour, returns
    the payload of the item the reload left, when that payload is truthy. *)
Lemma reload_then_request_truthy_payload (api : Api) (endpoint : string)
    (opts : RequestOptions) (r : ApiResponse) (s : Session) (item : string)
    (d : JsVal) (t e1 st1 : Z) (json1 : list (string * JsVal))
    (rest : list (Z * Answer)) :
  reload r = (endpoint, without_cache opts) ->
  default true (useCache opts) = true ->
  storage s !! cacheKey_of (baseUrl api +:+ endpoint) = Some item ->
  JsString.nonempty item = true ->
  JSON_parse P item = Some (cache_item d t) ->
  truthy d = true ->
  inbox s
  = (e1, Respond {| resp_status := st1; resp_json := Some (JObj json1) |})
    :: rest ->
  (200 <= st1 <= 299)%Z ->
  (now s + e1 - t < cacheDuration)%Z ->
  exists r1 s1 r2 s2,
    call_reload P api r s = Resolved r1 s1
    /\ data r1 = property (JObj json1) "data"
    /\ storage s1 = storage s
    /\ request P api endpoint opts s1 = Resolved r2 s2
    /\ data r2 = d
    /\ network s2 = network s ++ [call_of P api endpoint opts].
Proof.
  intros Hr Huse Hitem Hne Hparse Hd Hin Hst1 Hfresh.
  unfold call_reload. rewrite Hr. simpl.
  destruct (request_falsy_cache api endpoint (without_cache opts) s _ JNull
              e1 st1 json1 _ eq_refl eq_refl Hin Hst1)
    as (r1 & s1 & Hreq1 & Hdata1 & _ & Hnet1 & _ & Hnow1 & Hin1 & Hsto1).
  simpl in Hsto1.
  rewrite <- Hsto1 in Hitem. rewrite <- Hnow1 in Hfresh.
  destruct (request_served_from_cache api endpoint opts s1 item d t
              Huse Hitem Hne Hparse Hfresh Hd)
    as (r2 & s2 & Hreq2 & Hdata2 & _ & Hnet2 & _).
  exists r1, s1, r2, s2. repeat split; auto.
  now rewrite Hnet2, Hnet1.
Qed.

(** C4 (the failing input): a call with caching on that finds, under the
    key of its URL, an item that is less than one hour old and whose payload
    is falsy (0, false, the empty string, null). [getCacheData] returns the
    payload and logs that it does, and [request], testing the payload for
    truth, calls the network all the same. *)
Theorem request_fresh_falsy_payload_refetches (api : Api) (endpoint : string)
    (opts : RequestOptions) (s : Session) (item : string) (d : JsVal)
    (t elapsed st : Z) (json : list (string * JsVal))
    (rest : list (Z * Answer)) :
  default true (useCache opts) = true ->
  storage s !! cacheKey_of (baseUrl api +:+ endpoint) = Some item ->
  JsString.nonempty item = true ->
  JSON_parse P item = Some (cache_item d t) ->
  (now s - t < cacheDuration)%Z ->
  truthy d = false ->
  inbox s
  = (elapsed, Respond {| resp_status := st; resp_json := Some (JObj json) |})
    :: rest ->
  (200 <= st <= 299)%Z ->
  exists resp s',
    request P api endpoint opts s = Resolved resp s'
    /\ data resp = property (JObj json) "data"
    /\ network s' = network s ++ [call_of P api endpoint opts]
    /\ line Log (logger_prefix api) "getCacheData" [Txt "Returning cached data"]
       ∈ console s'.
Proof. apply refetch_on_falsy_payload. Qed.

(** C10 (the failing input): [reload()] on a response calls the network and
    leaves the store as it was; but when the item it left is one whose
    payload is falsy, the next call with caching on, made within the hour,
    does not return that payload: it calls the network again and returns
    what the network answers. *)
Theorem reload_then_request_falsy_payload (api : Api) (endpoint : string)
    (opts : RequestOptions) (r : ApiResponse) (s : Session) (item : string)
    (d : JsVal) (t e1 st1 e2 st2 : Z) (json1 json2 : list (string * JsVal))
    (rest : list (Z * Answer)) :
  reload r = (endpoint, without_cache opts) ->
  default true (useCache opts) = true ->
  storage s !! cacheKey_of (baseUrl api +:+ endpoint) = Some item ->
  JsString.nonempty item = true ->
  JSON_parse P item = Some (cache_item d t) ->
  truthy d = false ->
  inbox s
  = (e1, Respond {| resp_status := st1; resp_json := Some (JObj json1) |})
    :: (e2, Respond {| resp_status := st2; resp_json := Some (JObj json2) |})
    :: rest ->
  (200 <= st1 <= 299)%Z -> (200 <= st2 <= 299)%Z ->
  (now s + e1 - t < cacheDuration)%Z ->
  exists r1 s1 r2 s2,
    call_reload P api r s = Resolved r1 s1
    /\ data r1 = property (JObj json1) "data"
    /\ storage s1 = storage s
    /\ request P api endpoint opts s1 = Resolved r2 s2
    /\ data r2 = property (JObj json2) "data"
    /\ network s2
       = network s
         ++ [call_of P api endpoint opts; call_of P api endpoint opts].
Proof.
  intros Hr Huse Hitem Hne Hparse Hd Hin Hst1 Hst2 Hfresh.
  unfold call_reload. rewrite Hr. simpl.
  destruct (request_falsy_cache api endpoint (without_cache opts) s _ JNull
              e1 st1 json1 _ eq_refl eq_refl Hin Hst1)
    as (r1 & s1 & Hreq1 & Hdata1 & _ & Hnet1 & _ & Hnow1 & Hin1 & Hsto1).
  simpl in Hsto1.
  rewrite <- Hsto1 in Hitem. rewrite <- Hnow1 in Hfresh.
  destruct (refetch_on_falsy_payload api endpoint opts s1 item d t e2 st2
              json2 rest Huse Hitem Hne Hparse Hfresh Hd Hin1 Hst2)
    as (r2 & s2 & Hreq2 & Hdata2 & Hnet2 & _).
  exists r1, s1, r2, s2. repeat split; auto.
  rewrite Hnet2, Hnet1. now rewrite <- app_assoc.
Qed.

End Facts.

(** ** Instances *)

(** The theorem of C6 at a call that is answered with status 404. *)
Lemma request_non_2xx_rejects_witness :
  exists s',
    request zero_platform example_api "/count" no_options
      (session ∅ 0 [(40%Z, Respond {| resp_status := 404; resp_json := None |})])
    = Rejected "HTTP Error: 404" s'
    /\ storage s' = ∅.
Proof.
  apply (request_non_2xx_rejects zero_platform example_api "/count" no_options
           (session ∅ 0
              [(40%Z, Respond {| resp_status := 404; resp_json := None |})])
           40 {| resp_status := 404; resp_json := None |} []).
  - reflexivity.
  - reflexivity.
  - vm_compute. discriminate.
Defined.

(** The theorem of C4 at a counter cached as 0 one second before the call,
    while the network now answers 7. *)
Lemma request_fresh_falsy_payload_witness :
  exists resp s',
    request zero_platform example_api "/count" no_options
      (session cached_zero 2000 [answer 200 (JNum 7)])
    = Resolved resp s'
    /\ data resp = JNum 7
    /\ network s'
       = [call_of zero_platform example_api "/count" no_options]
    /\ line Log "API" "getCacheData" [Txt "Returning cached data"] ∈ console s'.
Proof.
  apply (request_fresh_falsy_payload_refetches zero_platform example_api
           "/count" no_options
           (session cached_zero 2000 [answer 200 (JNum 7)])
           (print (cache_item (JNum 0) 1000)) (JNum 0) 1000 40 200
           [("data", JNum 7)] []).
  - reflexivity.
  - reflexivity.
  - reflexivity.
  - reflexivity.
  - reflexivity.
  - reflexivity.
  - reflexivity.
  - lia.
Defined.

(** The theorem of C10: the counter is cached as 0, [reload()] gets 5, and
    the next call gets 7 from the network instead of the cached 0. *)
Lemma reload_then_request_witness :
  exists r1 s1 r2 s2,
    call_reload zero_platform example_api counter_response
      (session cached_zero 2000 [answer 200 (JNum 5); answer 200 (JNum 7)])
    = Resolved r1 s1
    /\ data r1 = JNum 5
    /\ storage s1 = cached_zero
    /\ request zero_platform example_api "/count" no_options s1
       = Resolved r2 s2
    /\ data r2 = JNum 7
    /\ network s2
       = [call_of zero_platform example_api "/count" no_options;
          call_of zero_platform example_api "/count" no_options].
Proof.
  apply (reload_then_request_falsy_payload zero_platform example_api "/count"
           no_options counter_response
           (session cached_zero 2000 [answer 200 (JNum 5); answer 200 (JNum 7)])
           (print (cache_item (JNum 0) 1000)) (JNum 0) 1000 40 200 40 200
           [("data", JNum 5)] [("data", JNum 7)] []).
  - reflexivity.
  - reflexivity.
  - reflexivity.
  - reflexivity.
  - reflexivity.
  - reflexivity.
  - reflexivity.
  - lia.
  - lia.
  - reflexivity.
Defined.

(** From an empty store: the first call fetches the counter, which is 0, and
    writes it; the second call, 100 ms later, fetches again. *)
Example get_twice_zero_payload :
  let P := platform [cache_item (JNum 0) 1040] in
  exists r1 s1 r2 s2,
    get P example_api "/count" no_options
      (session ∅ 1000 [answer 200 (JNum 0); answer 200 (JNum 0)])
    = Resolved r1 s1
    /\ storage s1 !! cacheKey_of "https://example.com/api/count"
       = Some (print (cache_item (JNum 0) 1040))
    /\ get P example_api "/count" no_options s1 = Resolved r2 s2
    /\ length (network s2) = 2.
Proof.
  eexists _, _, _, _. split; [vm_compute; reflexivity|].
  split; [reflexivity|]. split; [vm_compute; reflexivity|]. reflexivity.
Qed.

(** The same with a payload that is truthy: the second call is served from
    the store. *)
Example get_twice_truthy_payload :
  let P := platform [cache_item (JNum 3) 1040] in
  exists r1 s1 r2 s2,
    get P example_api "/count" no_options
      (session ∅ 1000 [answer 200 (JNum 3); answer 200 (JNum 4)])
    = Resolved r1 s1
    /\ get P example_api "/count" no_options s1 = Resolved r2 s2
    /\ data r2 = JNum 3
    /\ length (network s2) = 1.
Proof.
  eexists _, _, _, _. split; [vm_compute; reflexivity|].
  split; [vm_compute; reflexivity|]. split; reflexivity.
Qed.

End ApiFacts.

(** ** The registry: calls that do not concern a key, promises of callbacks *)
Module RegistryProperties.
Import Framework History Samples Cases RegistryFacts.
Local Open Scope js_scope.

Lemma most_recent_none (key : string) (calls : list Registration) :
  (forall r, r ∈ calls -> valid_for key r = None) ->
  most_recent key calls = None.
Proof.
  intros H. unfold most_recent.
  replace (omap (valid_for key) calls) with (@nil RegistryEntry); [reflexivity|].
  induction calls as [|r calls IH]; [reflexivity|].
  simpl. rewrite (H r) by (left). apply IH.
  intros r' Hr'. apply H. right. exact Hr'.
Qed.

(** X1: calls of Register that are invalid (a name that is not a string, a
    second argument that is not a function) or that name other keys leave the
    entry under a key as it was, and no call of Register runs a callback. *)
Theorem Register_keeps_unrelated_entries (key : string)
    (calls : list Registration) (w : World) :
  (forall r, r ∈ calls -> valid_for key r = None) ->
  Registries (Register_all calls w) !! key = Registries w !! key
  /\ mounted (Register_all calls w) = mounted w.
Proof.
  intros H. split.
  - rewrite Register_all_lookup, (most_recent_none key calls H). reflexivity.
  - apply Register_all_mounted.
Qed.

Lemma Register_keeps_unrelated_entries_witness :
  Registries
    (Register_all
       [ {| reg_name := Untyped "42"; reg_fn := Typed (onMount "a");
            reg_async := None |};
         {| reg_name := Typed "pages/home"; reg_fn := Untyped "null";
            reg_async := Some true |};
         {| reg_name := Typed "pages/about"; reg_fn := Typed (onMount "b");
            reg_async := None |} ]
       (page true all_registered)) !! "pages/home"
  = Registries (page true all_registered) !! "pages/home"
  /\ mounted
       (Register_all
          [ {| reg_name := Untyped "42"; reg_fn := Typed (onMount "a");
               reg_async := None |};
            {| reg_name := Typed "pages/home"; reg_fn := Untyped "null";
               reg_async := Some true |};
            {| reg_name := Typed "pages/about"; reg_fn := Typed (onMount "b");
               reg_async := None |} ]
          (page true all_registered))
     = mounted (page true all_registered).
Proof.
  apply Register_keeps_unrelated_entries.
  intros r Hr.
  repeat (apply elem_of_cons in Hr as [->|Hr]; [reflexivity|]).
  apply elem_of_nil in Hr. destruct Hr.
Defined.

Lemma Registries_Register (name : string) (f : OnMountFn) (a : option bool)
    (w : World) :
  Registries (Register (registration name f a) w) !! name
  = Some {| fn := f; async := default false a |}.
Proof.
  rewrite Register_lookup. unfold valid_for, registration. simpl.
  rewrite String.eqb_refl. reflexivity.
Qed.

(** X2: Execute awaits the callback only when it was registered with
    [async: true]. For an entry registered without it, Execute is fulfilled
    whenever the callback does not throw, even if the promise the callback
    returns is rejected or never settles; with [async: true] Execute is
    rejected with the promise's error, or never settles, as the promise
    does. A callback that throws rejects Execute either way. In each case
    the callback was called once. *)
Theorem Execute_awaits_only_async_entries (name : string) (f : OnMountFn)
    (a : option bool) (w : World) :
  exists w',
    mounted w' = mounted w ++ [f]
    /\ Execute (Typed name) (Register (registration name f a) w)
       = match fn_completes f, default false a with
         | Throws e, _ | ReturnsRejected e, true => Rejected e w'
         | ReturnsPending, true => Pending w'
         | Returns, _ | ReturnsRejected _, false | ReturnsPending, false =>
             Resolved tt
               (emit Log "registry" "Execute"
                  [Txt ("Done: " +:+ quoted name)] w')
         end.
Proof.
  pose proof (Registries_Register name f a w) as Hreg.
  assert (Hm : mounted (Register (registration name f a) w) = mounted w)
    by apply Register_mounted.
  set (w0 := Register (registration name f a) w) in *. clearbody w0.
  unfold Execute, bind, gets, logger, modify, call_entry, bind, modify.
  rewrite Hreg. simpl.
  destruct (fn_completes f) as [|e|e|], (default false a);
    simpl; eexists; (split; [|reflexivity]); simpl; rewrite Hm; reflexivity.
Qed.

End RegistryProperties.

(** ** Locales: the language that is used, keys and their paths *)
Module LocaleProperties.
Import Framework JsString StringFacts Fragment Samples Keys LocaleFacts.
#[local] Arguments String.append : simpl nomatch.
Local Open Scope js_scope.

Lemma assoc_elem {A} (key : string) (fields : list (string * A)) (v : A) :
  assoc key fields = Some v -> key ∈ map fst fields.
Proof.
  induction fields as [|[k x] fields IH]; simpl; [discriminate|].
  destruct (String.eqb k key) eqn:Hk.
  - intros _. apply String.eqb_eq in Hk. subst. left.
  - intros H. right. apply IH, H.
Qed.

(** getLocale answers with the code of a registered locale whose table
    is usable, or with the fallback code: a browser language that was not
    registered is never returned. *)
Lemma getLocale_registered_or_fallback (E : Env) (w : World) :
  getLocale E w = fallbackLocale w
  \/ exists table,
       assoc (getLocale E w) (registeredLocales w) = Some table
       /\ truthy_locale table = true
       /\ getLocale E w ∈ map fst (registeredLocales w).
Proof.
  unfold getLocale.
  set (lang := hd EmptyString (split "-" _)).
  destruct (assoc lang (registeredLocales w)) as [v|] eqn:Hv; [|left; reflexivity].
  destruct (truthy_locale v) eqn:Ht; [|left; reflexivity].
  right. exists v. rewrite Hv. repeat split; [exact Ht|].
  eapply assoc_elem, Hv.
Qed.

Lemma split_not_nil (sep : ascii) (s : string) : split sep s <> [].
Proof.
  destruct s as [|c s]; simpl; [discriminate|].
  destruct (Ascii.eqb c sep); [discriminate|].
  destruct (split sep s); discriminate.
Qed.

Lemma split_app (sep : ascii) (a b : string) :
  split sep (a +:+ String sep b) = split sep a ++ split sep b.
Proof.
  induction a as [|c a IH]; simpl.
  - rewrite Ascii.eqb_refl. reflexivity.
  - destruct (Ascii.eqb c sep); [rewrite IH; reflexivity|].
    rewrite IH. pose proof (split_not_nil sep a) as Hn.
    destruct (split sep a); [contradiction|reflexivity].
Qed.

Lemma split_no_sep (sep : ascii) (s : string) :
  all_chars (fun c => negb (Ascii.eqb c sep)) s = true -> split sep s = [s].
Proof.
  induction s as [|c s IH]; simpl; [reflexivity|].
  intros H. apply andb_true_iff in H as [Hc Hs].
  destruct (Ascii.eqb c sep); [discriminate|].
  rewrite (IH Hs). reflexivity.
Qed.

Lemma split_dotted (parts : list string) :
  parts <> [] -> forallb no_dot parts = true ->
  split "." (dotted parts) = parts.
Proof.
  induction parts as [|p parts IH]; [contradiction|].
  intros _ H. simpl in H. apply andb_true_iff in H as [Hp Hs].
  destruct parts as [|q parts].
  - simpl. apply split_no_sep, Hp.
  - change (dotted (p :: q :: parts)) with (p +:+ String "." (dotted (q :: parts))).
    rewrite split_app, (split_no_sep "." p Hp), IH by (discriminate || exact Hs).
    reflexivity.
Qed.

(** The tag [lang-REGION] names the language [lang]. *)
Lemma split_language_tag (lang region : string) :
  no_dash lang = true ->
  hd EmptyString (split "-" (lang +:+ String "-" region)) = lang.
Proof.
  intros H. rewrite split_app, (split_no_sep "-" lang H). reflexivity.
Qed.

(** X3: the region of the browser's language tag plays no part: with the UI
    language [lang-REGION], getLocale and useLocale answer as they do for
    [lang] alone. *)
Theorem getLocale_ignores_region (E : Env) (lang region : string) (w : World) :
  nonempty lang = true -> no_dash lang = true ->
  getLocale (with_language E (Some (lang +:+ String "-" region))) w
  = getLocale (with_language E (Some lang)) w
  /\ useLocale (with_language E (Some (lang +:+ String "-" region))) w
     = useLocale (with_language E (Some lang)) w.
Proof.
  intros Hne H.
  assert (Hg : getLocale (with_language E (Some (lang +:+ String "-" region))) w
               = getLocale (with_language E (Some lang)) w).
  { unfold getLocale, with_language. simpl getUILanguage.
    destruct lang as [|c lang]; [discriminate|].
    change (nonempty (String c lang +:+ String "-" region)) with true.
    change (nonempty (String c lang)) with true. cbv iota.
    rewrite (split_language_tag _ region H), (split_no_sep "-" _ H).
    reflexivity. }
  split; [exact Hg|]. unfold useLocale. rewrite Hg. reflexivity.
Qed.

Lemma getLocale_ignores_region_witness :
  getLocale (with_language two_includes (Some ("en" +:+ String "-" "GB")))
    (page true ∅)
  = getLocale (with_language two_includes (Some "en")) (page true ∅)
  /\ useLocale (with_language two_includes (Some ("en" +:+ String "-" "GB")))
       (page true ∅)
     = useLocale (with_language two_includes (Some "en")) (page true ∅).
Proof. apply getLocale_ignores_region; reflexivity. Defined.

(** X4: after registerLocales, useLocale gives the table registered for the
    language of the browser's tag when there is one, else the table of the
    fallback code, else an empty table; the tables registered by an earlier
    call play no part. *)
Theorem useLocale_after_registerLocales (E : Env) (tag : string)
    (locales : list (string * LocaleVal)) (fallback : string) (w : World) :
  getUILanguage E = Some tag -> nonempty tag = true ->
  (forall code table, (code, table) ∈ locales -> truthy_locale table = true) ->
  exists w1,
    registerLocales locales fallback w = Resolved tt w1
    /\ useLocale E w1
       = match assoc (primary_subtag tag) locales with
         | Some table => table
         | None => default (LObj []) (assoc fallback locales)
         end.
Proof.
  intros Hl Hne Ht. eexists. split; [reflexivity|].
  assert (Htruthy : forall code table,
            assoc code locales = Some table -> truthy_locale table = true).
  { intros code table H. apply (Ht code).
    clear -H. induction locales as [|[k x] locales IH]; simpl in H; [discriminate|].
    destruct (String.eqb k code) eqn:Hk.
    - apply String.eqb_eq in Hk. injection H as ->. subst. left.
    - right. apply IH, H. }
  unfold useLocale, getLocale, primary_subtag. simpl. rewrite Hl, Hne.
  destruct (assoc (hd EmptyString (split "-" tag)) locales) as [table|] eqn:Ha.
  - rewrite (Htruthy _ _ Ha), Ha, (Htruthy _ _ Ha). reflexivity.
  - destruct (assoc fallback locales) as [table|] eqn:Hf; [|reflexivity].
    rewrite (Htruthy _ _ Hf). reflexivity.
Qed.

Lemma useLocale_after_registerLocales_witness :
  exists w1,
    registerLocales [("fr", LObj [("hello", LStr "Bonjour")])] "fr"
      (page true ∅)
    = Resolved tt w1
    /\ useLocale two_includes w1
       = match assoc (primary_subtag "en-US")
                 [("fr", LObj [("hello", LStr "Bonjour")])] with
         | Some table => table
         | None =>
             default (LObj [])
               (assoc "fr" [("fr", LObj [("hello", LStr "Bonjour")])])
         end.
Proof.
  apply (useLocale_after_registerLocales two_includes "en-US").
  - reflexivity.
  - reflexivity.
  - intros code table H. apply list_elem_of_singleton in H.
    injection H as -> ->. reflexivity.
Defined.

Lemma walk_nest (parts : list string) (leaf : string) :
  walk (nest parts leaf) parts = Some leaf.
Proof.
  induction parts as [|p parts IH]; simpl; [reflexivity|].
  rewrite String.eqb_refl. exact IH.
Qed.

(** X5: a dotted key is resolved part by part: getNestedValue follows the
    parts of the key through the nested tables, and in the locale that a
    path spells the dotted path gives back the string at its end. *)
Theorem getNestedValue_follows_path (tree : LocaleVal) (parts : list string)
    (leaf : string) :
  parts <> [] -> forallb no_dot parts = true ->
  getNestedValue tree (dotted parts) = walk tree parts
  /\ getNestedValue (nest parts leaf) (dotted parts) = Some leaf.
Proof.
  intros Hn Hd. unfold getNestedValue. rewrite (split_dotted parts Hn Hd).
  split; [reflexivity|apply walk_nest].
Qed.

Lemma getNestedValue_follows_path_witness :
  getNestedValue tree_Hi (dotted ["a"; "b"]) = walk tree_Hi ["a"; "b"]
  /\ getNestedValue (nest ["a"; "b"] "Hi") (dotted ["a"; "b"]) = Some "Hi".
Proof.
  apply getNestedValue_follows_path; [discriminate|reflexivity].
Defined.

Lemma walk_beyond_leaf (tree : LocaleVal) (parts more : list string)
    (v : string) :
  walk tree parts = Some v -> more <> [] -> walk tree (parts ++ more) = None.
Proof.
  revert tree. induction parts as [|p parts IH]; intros tree H Hm.
  - simpl in H. destruct tree; [|discriminate].
    destruct more; [contradiction|reflexivity].
  - simpl in *. destruct tree as [|fields]; [discriminate|].
    destruct (assoc p fields); [|reflexivity]. apply IH; assumption.
Qed.

(** X6: a key that resolves to a string cannot be extended, and a key that
    has a resolvable extension does not resolve itself: below a string
    there is nothing, and a table is not a translation. *)
Theorem getNestedValue_leaf_has_no_children (tree : LocaleVal)
    (key more value : string) :
  getNestedValue tree key = Some value ->
  getNestedValue tree (key +:+ String "." more) = None.
Proof.
  unfold getNestedValue. intros H. rewrite split_app.
  eapply walk_beyond_leaf; [exact H|apply split_not_nil].
Qed.

Lemma getNestedValue_leaf_has_no_children_witness :
  getNestedValue tree_Hi ("a.b" +:+ String "." "c") = None.
Proof.
  apply (getNestedValue_leaf_has_no_children tree_Hi "a.b" "c" "Hi").
  reflexivity.
Defined.

Lemma plain_app (a b : string) :
  plain a = true -> plain b = true -> plain (a +:+ b) = true.
Proof.
  induction a as [|c a IH]; simpl; [auto|].
  intros Ha Hb. apply andb_true_iff in Ha as [Hc Ha].
  rewrite (IH Ha Hb), andb_true_r.
  destruct (no_brace c); [reflexivity|]. simpl in *.
  destruct a; [discriminate|exact Hc].
Qed.

Lemma key_char_no_brace (c : ascii) : is_key_char c = true -> no_brace c = true.
Proof.
  destruct c as [[] [] [] [] [] [] [] []]; vm_compute; congruence.
Qed.

Lemma plain_key (key : string) :
  all_chars is_key_char key = true -> plain key = true.
Proof.
  induction key as [|c key IH]; simpl; [reflexivity|].
  intros H. apply andb_true_iff in H as [Hc Hk].
  rewrite (key_char_no_brace c Hc), (IH Hk). reflexivity.
Qed.

Lemma plain_leaves_assoc (part : string) (fields : list (string * LocaleVal))
    (v : LocaleVal) :
  plain_leaves (LObj fields) = true -> assoc part fields = Some v ->
  plain_leaves v = true.
Proof.
  induction fields as [|[k x] fields IH]; simpl; [discriminate|].
  intros H Ha. apply andb_true_iff in H as [Hx Hrest].
  destruct (String.eqb k part); [injection Ha as <-; exact Hx|].
  apply IH; assumption.
Qed.

Lemma plain_leaves_walk (parts : list string) (tree : LocaleVal)
    (value : string) :
  plain_leaves tree = true -> walk tree parts = Some value ->
  plain value = true.
Proof.
  revert tree. induction parts as [|p parts IH]; intros tree Ht H.
  - destruct tree; simpl in H; [injection H as <-; exact Ht|discriminate].
  - destruct tree as [|fields]; simpl in H; [discriminate|].
    destruct (assoc p fields) as [v|] eqn:Ha; [|discriminate].
    apply (IH v); [eapply plain_leaves_assoc; eassumption|exact H].
Qed.

Lemma plain_expected (intl : LocaleVal) (seg : Segment) :
  plain_leaves intl = true -> well_formed seg = true ->
  plain (expected intl seg) = true.
Proof.
  intros Hl Hw. destruct seg as [text|ws1 key ws2]; simpl in *; [exact Hw|].
  destruct (getNestedValue intl key) as [value|] eqn:Hv.
  - eapply plain_leaves_walk; [exact Hl|exact Hv].
  - apply (plain_app "locale." key); [reflexivity|].
    apply plain_key.
    apply andb_true_iff in Hw as [Hw _]. apply andb_true_iff in Hw as [_ Hw].
    exact Hw.
Qed.

Lemma plain_translated (intl : LocaleVal) (doc : list Segment) :
  plain_leaves intl = true -> forallb well_formed doc = true ->
  plain (translated intl doc) = true.
Proof.
  intros Hl. induction doc as [|seg doc IH]; simpl; [reflexivity|].
  intros H. apply andb_true_iff in H as [Hs Hd].
  apply plain_app; [apply plain_expected; assumption|apply IH, Hd].
Qed.

Lemma applyTranslations_plain (E : Env) (text : string) (w : World) :
  plain text = true -> applyTranslations E text w = Resolved text w.
Proof.
  intros H. unfold applyTranslations.
  pose proof (translate_plain (useLocale E w) text EmptyString H) as Ht.
  rewrite app_nil_r in Ht. unfold translate in Ht. rewrite Ht. simpl.
  rewrite app_nil_r, set_console_nil. reflexivity.
Qed.

(** X7: translating is idempotent when the strings of the locale hold no
    tokens: the text applyTranslations returns for a document goes through
    a second pass unchanged, and the second pass logs nothing. Text without
    tokens, such as the placeholder of a missing key, is returned as it
    is. *)
Theorem applyTranslations_idempotent (E : Env) (doc : list Segment)
    (w : World) :
  forallb well_formed doc = true ->
  plain_leaves (useLocale E w) = true ->
  exists out w1,
    applyTranslations E (document doc) w = Resolved out w1
    /\ forall w2, applyTranslations E out w2 = Resolved out w2.
Proof.
  intros Hd Hl.
  exists (translated (useLocale E w) doc).
  eexists. split.
  - unfold applyTranslations.
    pose proof (translate_document (useLocale E w) doc Hd) as Ht.
    unfold translate in Ht. rewrite Ht. reflexivity.
  - intros w2. apply applyTranslations_plain, plain_translated; assumption.
Qed.

Lemma applyTranslations_idempotent_witness :
  exists out w1,
    applyTranslations two_includes
      (document [Plain "<style>h1 { color: red }</style><h1>";
                 Token " " "a.b" " "; Plain "</h1><p>";
                 Token "" "a.c" "  "; Plain "</p>"])
      (page true ∅)
    = Resolved out w1
    /\ forall w2, applyTranslations two_includes out w2 = Resolved out w2.
Proof.
  apply applyTranslations_idempotent; reflexivity.
Defined.

End LocaleProperties.

(** ** Loading: the store, the script elements, the elements of the page *)
Module LoadProperties.
Import Framework Stages Samples Markers LoadFacts.
#[local] Arguments String.append : simpl nomatch.

Lemma append_inj_last (a b : string) (c : ascii) :
  a +:+ String c EmptyString = b +:+ String c EmptyString -> a = b.
Proof.
  revert b. induction a as [|x a IH]; intros [|y b] H; simpl in H.
  - reflexivity.
  - injection H as _ H. destruct b; discriminate.
  - injection H as _ H. destruct a; discriminate.
  - injection H as -> H. f_equal. apply IH, H.
Qed.

Lemma cachedViewKey_inj (p q : string) :
  cachedViewKey p = cachedViewKey q -> p = q.
Proof.
  unfold cachedViewKey. simpl. intros H. injection H as H.
  eapply append_inj_last, H.
Qed.

Section Properties.
Variable E : Env.
Local Open Scope js_scope.

(** X8: a fragment that was fetched once (and is not empty) is served from
    the store from then on, without a fetch and whatever the files of the
    extension have become: an entry has no age and is never invalidated.
    The entries of other paths are left as they were. *)
Theorem fetchWithCache_entry_never_expires (path text : string) (w : World) :
  truthy_item (sessionStorage w !! cachedViewKey path) = None ->
  resource E (getURL E path) = Some text ->
  JsString.nonempty text = true ->
  exists w1,
    fetchWithCache E path w = Resolved text w1
    /\ (forall E' : Env, fetchWithCache E' path w1 = Resolved text w1)
    /\ (forall other, other <> path ->
          sessionStorage w1 !! cachedViewKey other
          = sessionStorage w !! cachedViewKey other).
Proof.
  intros Hc Hr Hne.
  set (w1 := set_sessionStorage <[cachedViewKey path := text]>
               (set_fetched (fun l => l ++ [getURL E path]) w)).
  assert (Hs : sessionStorage w1 !! cachedViewKey path = Some text)
    by apply lookup_insert_eq.
  exists w1. split; [|split].
  - unfold fetchWithCache. rewrite Hc, Hr. reflexivity.
  - intros E'. unfold fetchWithCache. rewrite Hs. simpl. rewrite Hne.
    reflexivity.
  - intros other Ho. unfold w1. simpl. apply lookup_insert_ne.
    intros Heq. apply Ho. symmetry. apply cachedViewKey_inj, Heq.
Qed.

(** ** The current page *)

(** X9: SetCurrentPage followed by GetCurrentPage gives the name back when
    the root element exists, and the content of the root is not touched;
    without a root element both log an error and return, GetCurrentPage
    with null, and neither throws. *)
Theorem current_page_round_trip (name : string) (w : World) :
  (forall root, elements w !! "_root" = Some root ->
     exists w1,
       SetCurrentPage name w = Resolved tt w1
       /\ GetCurrentPage w1 = Resolved (Some name) w1
       /\ root_html w1 = Some (children root)
       /\ Framework.console w1 = Framework.console w)
  /\ (elements w !! "_root" = None ->
      SetCurrentPage name w
      = Resolved tt
          (emit Error "load" "SetCurrentPage"
             [Txt ("Element with ID " +:+ quoted "_root" +:+ " not found")] w)
      /\ GetCurrentPage w
         = Resolved None
             (emit Error "load" "GetCurrentPage"
                [Txt ("Element with ID " +:+ quoted "_root" +:+ " not found")]
                w)).
Proof.
  split.
  - intros root Hroot. eexists.
    unfold SetCurrentPage, GetCurrentPage, bind, gets, modify.
    rewrite Hroot. split; [reflexivity|]. simpl.
    rewrite lookup_insert_eq. simpl. rewrite lookup_insert_eq.
    unfold root_html. simpl. rewrite lookup_insert_eq. auto.
  - intros Hroot.
    unfold SetCurrentPage, GetCurrentPage, bind, gets, logger, modify.
    rewrite Hroot. split; reflexivity.
Qed.

(** ** Which elements a load may change *)




















End Properties.

Lemma coherent_empty (E : Env) (w : World) :
  sessionStorage w = ∅ -> coherent E w.
Proof.
  intros H path text Ht. rewrite H, lookup_empty in Ht. discriminate.
Qed.

Lemma fetchWithCache_entry_never_expires_witness :
  exists w1,
    fetchWithCache two_includes "includes/header/index.html" (page true ∅)
    = Resolved "<hr>" w1
    /\ (forall E' : Env,
          fetchWithCache E' "includes/header/index.html" w1
          = Resolved "<hr>" w1)
    /\ (forall other, other <> "includes/header/index.html" ->
          sessionStorage w1 !! cachedViewKey other
          = sessionStorage (page true ∅) !! cachedViewKey other).
Proof.
  apply (fetchWithCache_entry_never_expires two_includes
           "includes/header/index.html" "<hr>" (page true ∅));
    reflexivity.
Defined.



End LoadProperties.

(** ** Script elements *)
Module ScriptProperties.
Import Framework Stages Samples Markers LoadFacts.
#[local] Arguments String.append : simpl nomatch.

Section Properties.
Variable E : Env.
Local Open Scope js_scope.










End Properties.
End ScriptProperties.

(** ** Includes *)
Module IncludeProperties.
Import Framework JsString StringFacts Fragment Stages Samples Markers LoadFacts.
Import LocaleProperties LoadProperties.
#[local] Arguments String.append : simpl nomatch.

(** *** Text without markers *)

Lemma strip_prefix_no_start (p : string) (c : ascii) (rest : string) :
  opens_no_marker c rest = true ->
  strip_prefix (String "<" (String "!" p)) (String c rest) = None.
Proof.
  unfold opens_no_marker, not_lt, not_bang. intros H. cbn [strip_prefix].
  destruct (Ascii.eqb_spec "<" c) as [<-|Hc]; [|reflexivity].
  simpl in H. destruct rest as [|d rest]; [discriminate|].
  rewrite (Ascii.eqb_sym "!" d). destruct (Ascii.eqb d "!"); [discriminate|].
  reflexivity.
Qed.

Lemma marker_at_no_start (kw : string) (c : ascii) (rest : string) :
  opens_no_marker c rest = true -> marker_at kw (String c rest) = None.
Proof.
  intros H. unfold marker_at.
  rewrite (strip_prefix_no_start "--" c rest H). reflexivity.
Qed.

Lemma opens_no_marker_app (c : ascii) (rest tail : string) :
  opens_no_marker c rest = true -> opens_no_marker c (rest +:+ tail) = true.
Proof.
  unfold opens_no_marker. destruct (not_lt c); [reflexivity|].
  destruct rest; [discriminate|]. simpl. auto.
Qed.

Lemma markerless_app (a b : string) :
  markerless a = true -> markerless b = true -> markerless (a +:+ b) = true.
Proof.
  induction a as [|c a IH]; simpl; [auto|].
  intros Ha Hb. apply andb_true_iff in Ha as [Hc Ha].
  rewrite (opens_no_marker_app c a b Hc), (IH Ha Hb). reflexivity.
Qed.

Lemma markerless_drop (k : nat) (s : string) :
  markerless s = true -> markerless (drop k s) = true.
Proof.
  revert s. induction k as [|k IH]; intros [|c s] H; simpl; auto.
  apply IH. simpl in H. apply andb_true_iff in H as [_ H]. exact H.
Qed.

Lemma search_markerless (kw : string) (i : nat) (s : string) :
  markerless s = true -> search_from (marker_at kw) i s = None.
Proof.
  revert i. induction s as [|c s IH]; intros i H.
  - reflexivity.
  - simpl in H. apply andb_true_iff in H as [Hc Hs].
    cbn [search_from]. rewrite (marker_at_no_start kw c s Hc). apply IH, Hs.
Qed.

Lemma exec_markerless (kw : string) (i : nat) (s : string) :
  markerless s = true -> exec (marker_at kw) i s = (None, 0).
Proof.
  intros H. unfold exec. destruct (String.length s <? i); [reflexivity|].
  rewrite search_markerless by (apply markerless_drop, H). reflexivity.
Qed.

Lemma scan_markerless (kw : string) (s : string) :
  markerless s = true -> groups (scan (marker_at kw) 0 s) = [].
Proof.
  induction s as [|c s IH]; intros H; [reflexivity|].
  simpl in H. apply andb_true_iff in H as [Hc Hs].
  cbn [scan]. rewrite (marker_at_no_start kw c s Hc). simpl. apply IH, Hs.
Qed.

(** The first match in a text that begins without markers. *)
Lemma search_skip (kw : string) (pre tail : string) (i n : nat) (g : string) :
  markerless pre = true -> marker_at kw tail = Some (n, g) ->
  search_from (marker_at kw) i (pre +:+ tail)
  = Some {| m_index := i + String.length pre; m_text := take n tail;
            m_group := g |}.
Proof.
  revert i. induction pre as [|c pre IH]; intros i Hp Ht.
  - simpl. destruct tail as [|c tail]; cbn [search_from]; rewrite Ht;
      rewrite Nat.add_0_r; reflexivity.
  - simpl in Hp. apply andb_true_iff in Hp as [Hc Hp].
    change (String c pre +:+ tail) with (String c (pre +:+ tail)).
    cbn [search_from].
    rewrite (marker_at_no_start kw c _ (opens_no_marker_app c pre tail Hc)).
    rewrite (IH (S i) Hp Ht). simpl. do 2 f_equal. lia.
Qed.

Lemma all_chars_app (f : ascii -> bool) (a b : string) :
  all_chars f (a +:+ b) = all_chars f a && all_chars f b.
Proof.
  induction a as [|c a IH]; simpl; [reflexivity|].
  rewrite IH. apply andb_assoc.
Qed.

Lemma is_quote_not_space (c : ascii) : is_quote c = true -> is_space c = false.
Proof.
  unfold is_quote. intros H. apply orb_true_iff in H as [H|H];
    apply Ascii.eqb_eq in H; subst; reflexivity.
Qed.

(** The expression matches a marker as it is written, whatever follows. *)
Lemma include_at_marker (ws1 : string) (q1 : ascii) (name : string)
    (q2 : ascii) (ws2 rest : string) :
  well_formed_marker ws1 q1 name q2 ws2 = true ->
  include_at (include_marker ws1 q1 name q2 ws2 +:+ rest)
  = Some (String.length (include_marker ws1 q1 name q2 ws2), name).
Proof.
  unfold well_formed_marker. intros H.
  repeat (apply andb_true_iff in H as [H ?]).
  rename H into Hws1, H0 into Hws2, H1 into Hq2, H2 into Hname, H3 into Hne,
    H4 into Hq1.
  unfold include_at, marker_at, include_marker.
  rewrite !app_assoc. rewrite (strip_prefix_app "<!--"). simpl.
  rewrite (span_app is_space ws1) by (try assumption; reflexivity).
  simpl. rewrite Hq1.
  rewrite !app_assoc.
  rewrite (span_app not_quote name); [|assumption|].
  2:{ simpl. unfold not_quote. rewrite Hq2. reflexivity. }
  destruct name as [|k name]; [discriminate|].
  rewrite Hq2. simpl.
  rewrite (span_app is_space ws2) by (try assumption; reflexivity).
  simpl. f_equal. f_equal.
  repeat (rewrite length_app; simpl). lia.
Qed.

Lemma find_first_here (search s after : string) :
  strip_prefix search s = Some after ->
  find_first search s = Some (EmptyString, after).
Proof. intros H. destruct s; simpl; rewrite H; reflexivity. Qed.

(** The marker is first found where the text without markers ends. *)
Lemma find_first_marker (ws1 : string) (q1 : ascii) (name : string)
    (q2 : ascii) (ws2 pre post : string) :
  markerless pre = true ->
  find_first (include_marker ws1 q1 name q2 ws2)
    (pre +:+ include_marker ws1 q1 name q2 ws2 +:+ post)
  = Some (pre, post).
Proof.
  intros Hp. induction pre as [|c pre IH].
  - apply find_first_here. apply (strip_prefix_app _ post).
  - simpl in Hp. apply andb_true_iff in Hp as [Hc Hp].
    change (String c pre +:+ ?x) with (String c (pre +:+ x)).
    cbn [find_first].
    change (include_marker ws1 q1 name q2 ws2)
      with (String "<" (String "!"
              ("--" +:+ ws1 +:+ "include(" +:+ String q1 name
               +:+ String q2 (")" +:+ ws2 +:+ "-->")))) at 1.
    rewrite (strip_prefix_no_start _ c _ (opens_no_marker_app c pre _ Hc)).
    rewrite (IH Hp). reflexivity.
Qed.

Lemma GetSubstitution_verbatim (matched before after template : string) :
  all_chars not_dollar template = true ->
  GetSubstitution matched before after template = template.
Proof.
  induction template as [|c t IH]; simpl; [reflexivity|].
  intros H. apply andb_true_iff in H as [Hc Ht].
  unfold not_dollar in Hc. apply negb_true_iff in Hc. rewrite Hc.
  rewrite (IH Ht). reflexivity.
Qed.

(** Replacing the marker by text without dollar signs splices the text in. *)
Lemma replace_marker (ws1 : string) (q1 : ascii) (name : string) (q2 : ascii)
    (ws2 pre post content : string) :
  markerless pre = true -> all_chars not_dollar content = true ->
  replace (pre +:+ include_marker ws1 q1 name q2 ws2 +:+ post)
    (include_marker ws1 q1 name q2 ws2) content
  = pre +:+ content +:+ post.
Proof.
  intros Hp Hc. unfold replace.
  rewrite (find_first_marker ws1 q1 name q2 ws2 pre post Hp).
  rewrite (GetSubstitution_verbatim _ _ _ _ Hc). reflexivity.
Qed.

Section Properties.
Variable E : Env.
Local Open Scope js_scope.

Lemma LoadScripts_markerless (text base : string) (w : World) :
  markerless text = true -> LoadScripts E text base w = Resolved tt w.
Proof.
  intros H. unfold LoadScripts, script_at.
  rewrite (scan_markerless "script" text H). reflexivity.
Qed.

Lemma same_page_refl (w : World) : same_page w w.
Proof. repeat split. Qed.

Lemma same_page_trans (w1 w2 w3 : World) :
  same_page w1 w2 -> same_page w2 w3 -> same_page w1 w3.
Proof.
  unfold same_page. intros H1 H2.
  destruct H1 as (?&?&?&?&?&?&?&?), H2 as (?&?&?&?&?&?&?&?).
  repeat split; congruence.
Qed.

(** In a store that agrees with the extension, fetchWithCache gives the
    text the extension holds, from the store or from the extension. *)
Lemma fetchWithCache_coherent (path text : string) (w : World) :
  coherent E w -> resource E (getURL E path) = Some text ->
  exists w',
    fetchWithCache E path w = Resolved text w'
    /\ coherent E w' /\ same_page w w'.
Proof.
  intros Hc Hr. unfold fetchWithCache.
  destruct (truthy_item (sessionStorage w !! cachedViewKey path))
    as [cached|] eqn:Hitem.
  - exists w. pose proof (Hc path cached Hitem) as Heq.
    rewrite Hr in Heq. injection Heq as ->.
    split; [reflexivity|]. split; [exact Hc|apply same_page_refl].
  - rewrite Hr. eexists. split; [reflexivity|]. split; [|repeat split].
    intros other v. simpl.
    destruct (decide (other = path)) as [->|Ho].
    + rewrite lookup_insert_eq. simpl.
      destruct (nonempty text); [|discriminate]. intros [= <-]. exact Hr.
    + rewrite lookup_insert_ne; [apply Hc|].
      intros Heq. apply Ho. symmetry. apply cachedViewKey_inj, Heq.
Qed.

Lemma available_content (name : string) :
  available E name = true ->
  resource E (getURL E (include_path name)) = Some (content_of E name)
  /\ markerless (content_of E name) = true
  /\ plain (content_of E name) = true
  /\ all_chars not_dollar (content_of E name) = true.
Proof.
  unfold available, verbatim, content_of. intros H.
  apply andb_true_iff in H as [H H0].
  apply bool_decide_eq_true in H as [text Ht]. rewrite Ht in *. simpl in *.
  apply andb_true_iff in H0 as [H0 H2]. apply andb_true_iff in H0 as [H0 H1].
  auto.
Qed.

(** One turn of the loop of LoadIncludes over a marker that follows text
    without markers: the fragment is fetched and spliced in, and the loop
    goes on after the end of the marker. *)
Lemma LoadIncludes_loop_step (fuel lastIndex : nat) (done post : string)
    (ws1 : string) (q1 : ascii) (name : string) (q2 : ascii) (ws2 : string)
    (incs : list string) (w : World) :
  well_formed_marker ws1 q1 name q2 ws2 = true ->
  available E name = true ->
  markerless done = true -> lastIndex <= String.length done ->
  coherent E w ->
  exists w',
    LoadIncludes_loop E (S fuel) lastIndex
      (done +:+ include_marker ws1 q1 name q2 ws2 +:+ post) incs w
    = LoadIncludes_loop E fuel
        (String.length done
         + String.length (include_marker ws1 q1 name q2 ws2))
        (done +:+ content_of E name +:+ post)
        (incs ++ ["includes/" +:+ name]) w'
    /\ coherent E w' /\ same_page w w'.
Proof.
  intros Hwf Hav Hdone Hlast Hcoh.
  destruct (available_content name Hav) as (Hres & Hm & Hpl & Hnd).
  destruct (fetchWithCache_coherent (include_path name) _ w Hcoh Hres)
    as (w' & Hfetch & Hcoh' & Hsame).
  exists w'. split; [|split; assumption].
  set (marker := include_marker ws1 q1 name q2 ws2).
  cbn [LoadIncludes_loop].
  assert (Hexec : exec include_at lastIndex (done +:+ marker +:+ post)
                  = (Some {| m_index := String.length done; m_text := marker;
                             m_group := name |},
                     String.length done + String.length marker)).
  { unfold exec.
    assert (Hlen : (String.length (done +:+ marker +:+ post) <? lastIndex) = false).
    { apply Nat.ltb_ge. rewrite length_app. lia. }
    rewrite Hlen.
    assert (Hdrop : drop lastIndex (done +:+ marker +:+ post)
                    = drop lastIndex done +:+ marker +:+ post).
    { clear -Hlast. revert done Hlast.
      induction lastIndex as [|k IH]; intros done Hlast.
      - destruct done; reflexivity.
      - destruct done as [|c done]; simpl in Hlast; [lia|].
        simpl. apply IH. lia. }
    rewrite Hdrop. unfold include_at.
    rewrite (search_skip "include" (drop lastIndex done) (marker +:+ post)
               lastIndex (String.length marker) name).
    - rewrite take_app, length_drop. simpl. do 2 f_equal; [f_equal|]; lia.
    - apply markerless_drop, Hdone.
    - apply (include_at_marker ws1 q1 name q2 ws2 post Hwf). }
  rewrite Hexec. cbn [m_group m_text].
  unfold bind at 1. fold (include_path name). rewrite Hfetch.
  unfold bind at 1. rewrite (applyTranslations_plain E _ w' Hpl).
  unfold bind at 1. rewrite (LoadScripts_markerless _ _ w' Hm).
  unfold marker. rewrite (replace_marker ws1 q1 name q2 ws2 done post _ Hdone Hnd).
  reflexivity.
Qed.

Lemma LoadIncludes_loop_markerless (fuel lastIndex : nat) (html : string)
    (incs : list string) (w : World) :
  markerless html = true ->
  LoadIncludes_loop E (S fuel) lastIndex html incs w = Resolved (html, incs) w.
Proof.
  intros H. cbn [LoadIncludes_loop]. unfold include_at.
  rewrite (exec_markerless "include" lastIndex html H). reflexivity.
Qed.

(** A text in which no marker starts is returned as it is, with no
    include listed, and nothing is fetched or logged. *)
Lemma LoadIncludes_without_markers (n : nat) (html : string) (w : World) :
  markerless html = true ->
  LoadIncludes E (S n) html w = Resolved (html, []) w.
Proof. intros H. apply LoadIncludes_loop_markerless, H. Qed.

(** X14: a single include is expanded in place: for a text with one marker
    between texts without markers, LoadIncludes returns the text with the
    fragment of the include in the place of the marker and lists the
    include, whatever the length of the fragment; the page is untouched
    (only the store and the list of fetched URLs may change). *)
Theorem LoadIncludes_single_include (n : nat) (pre post ws1 : string)
    (q1 : ascii) (name : string) (q2 : ascii) (ws2 : string) (w : World) :
  well_formed_marker ws1 q1 name q2 ws2 = true ->
  markerless pre = true -> markerless post = true ->
  available E name = true -> coherent E w ->
  exists w',
    LoadIncludes E (S (S n))
      (pre +:+ include_marker ws1 q1 name q2 ws2 +:+ post) w
    = Resolved (pre +:+ content_of E name +:+ post, ["includes/" +:+ name]) w'
    /\ same_page w w'.
Proof.
  intros Hwf Hpre Hpost Hav Hcoh.
  destruct (LoadIncludes_loop_step (S n) 0 pre post ws1 q1 name q2 ws2 [] w
              Hwf Hav Hpre (Nat.le_0_l _) Hcoh) as (w' & Hstep & _ & Hsame).
  exists w'. split; [|exact Hsame].
  unfold LoadIncludes. rewrite Hstep.
  apply LoadIncludes_loop_markerless.
  destruct (available_content name Hav) as (_ & Hm & _).
  apply markerless_app; [exact Hpre|]. apply markerless_app; assumption.
Qed.

Lemma LoadIncludes_loop_expands (parts : list Part) :
  forall (fuel lastIndex : nat) (done : string) (incs : list string)
         (w : World),
    forallb well_formed_part parts = true ->
    forallb (fits E) parts = true ->
    markerless done = true -> lastIndex <= String.length done ->
    length (included parts) < fuel -> coherent E w ->
    exists w',
      LoadIncludes_loop E fuel lastIndex (done +:+ page_text parts) incs w
      = Resolved (done +:+ expanded E parts,
                  incs ++ map (String.append "includes/") (included parts)) w'
      /\ coherent E w' /\ same_page w w'.
Proof.
  induction parts as [|p parts IH];
    intros fuel lastIndex done incs w Hwf Hfit Hdone Hlast Hfuel Hcoh.
  - exists w. simpl. rewrite app_nil_r, List.app_nil_r.
    destruct fuel as [|fuel]; [simpl in Hfuel; lia|].
    rewrite (LoadIncludes_loop_markerless fuel lastIndex done incs w Hdone).
    split; [reflexivity|]. split; [exact Hcoh|apply same_page_refl].
  - cbn [forallb] in Hwf, Hfit.
    apply andb_true_iff in Hwf as [Hp Hwf].
    apply andb_true_iff in Hfit as [Hf Hfit].
    destruct p as [t|ws1 q1 name q2 ws2].
    + change (page_text (Text t :: parts)) with (t +:+ page_text parts).
      change (expanded E (Text t :: parts)) with (t +:+ expanded E parts).
      change (included (Text t :: parts)) with (included parts).
      rewrite <- !app_assoc.
      apply IH; try assumption.
      * apply markerless_app; assumption.
      * rewrite length_app. lia.
    + simpl in Hfuel. destruct fuel as [|fuel]; [lia|].
      cbn [fits part_source] in Hf. cbn [well_formed_part] in Hp.
      apply andb_true_iff in Hf as [Hav Hlen].
      apply Nat.leb_le in Hlen.
      destruct (LoadIncludes_loop_step fuel lastIndex done (page_text parts)
                  ws1 q1 name q2 ws2 incs w Hp Hav Hdone Hlast Hcoh)
        as (w1 & Hstep & Hcoh1 & Hsame1).
      destruct (available_content name Hav) as (_ & Hm & _).
      destruct (IH fuel
                  (String.length done
                   + String.length (include_marker ws1 q1 name q2 ws2))
                  (done +:+ content_of E name)
                  (incs ++ ["includes/" +:+ name]) w1 Hwf Hfit)
        as (w' & Hrun & Hcoh' & Hsame').
      * apply markerless_app; assumption.
      * rewrite length_app. lia.
      * lia.
      * exact Hcoh1.
      * exists w'.
        change (page_text (Include ws1 q1 name q2 ws2 :: parts))
          with (include_marker ws1 q1 name q2 ws2 +:+ page_text parts).
        change (expanded E (Include ws1 q1 name q2 ws2 :: parts))
          with (content_of E name +:+ expanded E parts).
        change (included (Include ws1 q1 name q2 ws2 :: parts))
          with (name :: included parts).
        rewrite Hstep. rewrite <- app_assoc. rewrite Hrun.
        split; [|split; [exact Hcoh'|eapply same_page_trans; eassumption]].
        rewrite <- app_assoc. simpl map. rewrite <- List.app_assoc.
        reflexivity.
Qed.

(** X15: LoadIncludes expands every include of a fragment, left to right,
    when no fragment of an include is shorter than the marker it replaces
    (and the fragments are spliced in as they are): the text returned is
    the fragment with each marker replaced by the fragment of its include,
    and the includes are listed in the order of their markers. *)
Theorem LoadIncludes_expands_in_order (fuel : nat) (parts : list Part)
    (w : World) :
  forallb well_formed_part parts = true ->
  forallb (fits E) parts = true ->
  length (included parts) < fuel -> coherent E w ->
  exists w',
    LoadIncludes E fuel (page_text parts) w
    = Resolved (expanded E parts,
                map (String.append "includes/") (included parts)) w'
    /\ same_page w w'.
Proof.
  intros Hwf Hfit Hfuel Hcoh.
  destruct (LoadIncludes_loop_expands parts fuel 0 EmptyString [] w
              Hwf Hfit eq_refl (Nat.le_0_l _) Hfuel Hcoh)
    as (w' & Hrun & _ & Hsame).
  exists w'. split; [exact Hrun|exact Hsame].
Qed.

End Properties.

Example LoadIncludes_without_markers_example :
  LoadIncludes two_includes 1 "<h1>Home</h1><p>a < b</p>" (page true ∅)
  = Resolved ("<h1>Home</h1><p>a < b</p>", []) (page true ∅).
Proof. apply LoadIncludes_without_markers. reflexivity. Defined.

Lemma LoadIncludes_single_include_witness :
  exists w',
    LoadIncludes two_includes 2
      ("<main>" +:+ include_marker " " "'" "header" "'" " " +:+ "</main>")
      (page true ∅)
    = Resolved ("<main>" +:+ content_of two_includes "header" +:+ "</main>",
                ["includes/" +:+ "header"]) w'
    /\ same_page (page true ∅) w'.
Proof.
  apply (LoadIncludes_single_include two_includes 0 "<main>" "</main>");
    try reflexivity.
  apply coherent_empty. reflexivity.
Defined.

Lemma LoadIncludes_expands_in_order_witness :
  exists w',
    LoadIncludes Cases.long_includes 3 (page_text Cases.home_parts)
      (page true ∅)
    = Resolved (expanded Cases.long_includes Cases.home_parts,
                map (String.append "includes/") (included Cases.home_parts)) w'
    /\ same_page (page true ∅) w'.
Proof.
  apply LoadIncludes_expands_in_order.
  - reflexivity.
  - reflexivity.
  - simpl. lia.
  - apply coherent_empty. reflexivity.
Defined.

End IncludeProperties.

(** ** A load from end to end *)
Module PageProperties.
Import Framework JsString StringFacts Fragment Stages Samples Markers LoadFacts.
Import LocaleProperties LoadProperties IncludeProperties.
#[local] Arguments String.append : simpl nomatch.

Section Properties.
Variable E : Env.
Local Open Scope js_scope.

(** A dispatch calls the function registered under the key, if any, and
    touches nothing else of the page. *)
Lemma execute_if_registered_calls (key : string) (w : World) :
  all_return w ->
  exists w',
    execute_if_registered key w = Resolved tt w'
    /\ mounted w' = mounted w ++ option_list (fn <$> Registries w !! key)
    /\ Registries w' = Registries w
    /\ elements w' = elements w
    /\ icon_refreshes w' = icon_refreshes w.
Proof.
  intros Hall. unfold execute_if_registered, bind, gets.
  destruct (Registries w !! key) as [entry|] eqn:Hentry.
  - unfold Execute, bind, gets. rewrite Hentry.
    unfold logger, modify, call_entry, bind, modify.
    rewrite (Hall key entry Hentry).
    eexists. split; [reflexivity|]. simpl. auto.
  - exists w. unfold ret. simpl. rewrite List.app_nil_r. auto.
Qed.





(** X17: a template load from end to end. With the target element in the
    document, the scripts of the template loaded and callbacks that return,
    LoadTemplate replaces the placeholders first and translates the result,
    then inserts the text into the target as the mode says: [innerHTML]
    replaces the content, [append] adds the text after the children that
    are there and [prepend] before them; the attributes of the target are
    kept, the callback of the template is called if there is one, and the
    icons are refreshed once. *)
Theorem LoadTemplate_inserts_by_mode (path : string) (options : LoadTemplateOptions)
    (id : string) (el : Element) (raw : string) (w w1 w2 : World) :
  element options = Some id ->
  elements w !! id = Some el ->
  fetchWithCache E ("templates/" +:+ path +:+ "/index.html") w
  = Resolved raw w1 ->
  LoadScripts E raw ("templates/" +:+ path) w1 = Resolved tt w2 ->
  all_return w2 ->
  exists html w3 w',
    applyTranslations E (filled (replacements options) raw) w2
    = Resolved html w3
    /\ LoadTemplate E path options w = Resolved tt w'
    /\ elements w' !! id
       = Some {| children :=
                   match mode options with
                   | innerHTML => [Markup html]
                   | append => children el ++ [TextNode html]
                   | prepend => TextNode html :: children el
                   end;
                 attributes := attributes el |}
    /\ mounted w'
       = mounted w2
         ++ option_list (fn <$> Registries w2 !! ("templates/" +:+ path))
    /\ icon_refreshes w' = S (icon_refreshes w2).
Proof.
  intros Hid Hel Hfetch Hscripts Hall.
  assert (Hel1 : elements w1 = elements w).
  { apply (keeps_fetchWithCache E ("templates/" +:+ path +:+ "/index.html")).
    now rewrite Hfetch. }
  assert (Hel2 : elements w2 = elements w1).
  { apply (keeps_LoadScripts E raw ("templates/" +:+ path)).
    now rewrite Hscripts. }
  assert (Htr : exists html warnings,
            applyTranslations E (filled (replacements options) raw) w2
            = Resolved html (Framework.set_console (fun c => c ++ warnings) w2)).
  { unfold applyTranslations. destruct (translate_pieces _ _) as [h ws]. eauto. }
  destruct Htr as (html & warnings & Htr).
  set (w3 := Framework.set_console (fun c => c ++ warnings) w2) in *.
  assert (Hel3 : elements w3 !! id = Some el).
  { unfold w3. simpl. rewrite Hel2, Hel1. exact Hel. }
  set (w4 := insert_into id (mode options) html w3).
  assert (Hall4 : all_return w4) by exact Hall.
  destruct (execute_if_registered_calls ("templates/" +:+ path) w4 Hall4)
    as (w5 & Hrun & Hm & Hr & He & Hi).
  exists html, w3. eexists. split; [exact Htr|]. split.
  { unfold LoadTemplate, try_catch, bind at 1. rewrite Hfetch.
    unfold bind at 1. rewrite Hscripts.
    unfold bind at 1. fold (filled (replacements options) raw). rewrite Htr.
    unfold bind at 1, gets. rewrite Hid. cbn [mbind option_bind].
    rewrite Hel3, bool_decide_eq_true_2 by (eexists; reflexivity).
    unfold bind at 1, modify at 1. fold w4.
    unfold bind at 1. rewrite Hrun.
    unfold RefreshIcons, bind, modify, logger, modify. reflexivity. }
  simpl. rewrite He, Hm, Hi.
  split; [|split; reflexivity].
  unfold w4, insert_into. simpl. rewrite lookup_alter_eq.
  change (elements w2 !! id) with (elements w3 !! id). rewrite Hel3.
  reflexivity.
Qed.

(** X18: a template load without a target. When the target is null, or
    its id is not in the document, LoadTemplate has fetched (and stored)
    the fragment, loaded its scripts and translated the text when it
    fails; the failure is logged and the call is fulfilled: no callback is
    called and the icons are not refreshed. *)
Theorem LoadTemplate_without_target (path : string)
    (options : LoadTemplateOptions) (raw : string) (w w1 w2 : World) :
  match element options with
  | Some id => elements w !! id = None
  | None => True
  end ->
  fetchWithCache E ("templates/" +:+ path +:+ "/index.html") w
  = Resolved raw w1 ->
  LoadScripts E raw ("templates/" +:+ path) w1 = Resolved tt w2 ->
  exists html w3 error,
    applyTranslations E (filled (replacements options) raw) w2
    = Resolved html w3
    /\ LoadTemplate E path options w
       = Resolved tt
           (emit Error "load" "LoadTemplate"
              [Txt ("Failed to load template: " +:+ path);
               Obj [("error", error)]]
              w3)
    /\ elements w3 = elements w
    /\ mounted w3 = mounted w2
    /\ icon_refreshes w3 = icon_refreshes w2.
Proof.
  intros Htarget Hfetch Hscripts.
  assert (Hel1 : elements w1 = elements w).
  { apply (keeps_fetchWithCache E ("templates/" +:+ path +:+ "/index.html")).
    now rewrite Hfetch. }
  assert (Hel2 : elements w2 = elements w1).
  { apply (keeps_LoadScripts E raw ("templates/" +:+ path)).
    now rewrite Hscripts. }
  assert (Htr : exists html warnings,
            applyTranslations E (filled (replacements options) raw) w2
            = Resolved html (Framework.set_console (fun c => c ++ warnings) w2)).
  { unfold applyTranslations. destruct (translate_pieces _ _) as [h ws]. eauto. }
  destruct Htr as (html & warnings & Htr).
  set (w3 := Framework.set_console (fun c => c ++ warnings) w2) in *.
  exists html, w3, "TypeError: Cannot read properties of null".
  split; [exact Htr|].
  split; [|split; [simpl; congruence|split; reflexivity]].
  unfold LoadTemplate, try_catch, bind at 1. rewrite Hfetch.
  unfold bind at 1. rewrite Hscripts.
  unfold bind at 1. fold (filled (replacements options) raw). rewrite Htr.
  unfold bind at 1, gets.
  destruct (element options) as [id|]; [|reflexivity].
  cbn [mbind option_bind].
  change (elements w3 !! id) with (elements w2 !! id).
  rewrite Hel2, Hel1, Htarget.
  rewrite bool_decide_eq_false_2 by (intros [x Hx]; discriminate).
  reflexivity.
Qed.

End Properties.


Lemma LoadTemplate_inserts_by_mode_witness :
  exists html w3 w',
    applyTranslations with_template
      (filled (replacements (sidebar prepend)) Cases.infoBox_text)
      Cases.infoBox_fetched
    = Resolved html w3
    /\ LoadTemplate with_template "widgets/infoBox" (sidebar prepend)
         (page true ∅)
       = Resolved tt w'
    /\ elements w' !! "_root"
       = Some {| children := [TextNode html]; attributes := ∅ |}
    /\ mounted w' = [] /\ icon_refreshes w' = 1.
Proof.
  apply (LoadTemplate_inserts_by_mode with_template "widgets/infoBox"
           (sidebar prepend) "_root" {| children := []; attributes := ∅ |}
           Cases.infoBox_text (page true ∅) Cases.infoBox_fetched
           Cases.infoBox_fetched).
  - reflexivity.
  - reflexivity.
  - reflexivity.
  - reflexivity.
  - intros key entry H. simpl in H. rewrite lookup_empty in H. discriminate.
Defined.

Lemma LoadTemplate_without_target_witness :
  exists html w3 error,
    applyTranslations with_template
      (filled (replacements Cases.no_sidebar) Cases.infoBox_text)
      Cases.infoBox_fetched
    = Resolved html w3
    /\ LoadTemplate with_template "widgets/infoBox" Cases.no_sidebar
         (page true ∅)
       = Resolved tt
           (emit Error "load" "LoadTemplate"
              [Txt ("Failed to load template: " +:+ "widgets/infoBox");
               Obj [("error", error)]]
              w3)
    /\ elements w3 = elements (page true ∅)
    /\ mounted w3 = [] /\ icon_refreshes w3 = 0.
Proof.
  apply (LoadTemplate_without_target with_template "widgets/infoBox"
           Cases.no_sidebar Cases.infoBox_text (page true ∅)
           Cases.infoBox_fetched Cases.infoBox_fetched);
    reflexivity.
Defined.

End PageProperties.

(** ** The request helper: what a call reads, sends and writes *)
Module ApiProperties.
Import Framework Api Observed Samples Clock ApiFacts.

Section Properties.
Variable P : Platform.

(** Reading the cache never fails and only logs: whatever the store
    holds under the key (text that is not JSON included), getCacheData is
    fulfilled and leaves the store, the clock and the network as they were;
    with [useCache] false it returns null without reading or logging. *)
Lemma getCacheData_only_logs (api : Api) (key : string) (use : bool)
    (s : Session) :
  exists v s',
    getCacheData P api key use s = Resolved v s'
    /\ storage s' = storage s /\ now s' = now s
    /\ network s' = network s /\ inbox s' = inbox s
    /\ (use = false -> v = JNull /\ s' = s).
Proof.
  destruct use.
  - destruct (getCacheData_frame P api key true s) as (v & c & Hget).
    exists v, (set_console (fun _ => c) s). split; [exact Hget|].
    repeat split; discriminate.
  - exists JNull, s. repeat split.
Qed.

(** An item that [JSON.parse] rejects, or that is the JSON text [null], is
    reported and counts as no item. *)
Lemma getCacheData_invalid (api : Api) (key item : string) (s : Session) :
  storage s !! key = Some item ->
  JsString.nonempty item = true ->
  JSON_parse P item = None \/ JSON_parse P item = Some JNull ->
  getCacheData P api key true s
  = Resolved JNull (set_console
      (fun c => c ++ [line Warn (logger_prefix api) "getCacheData"
                        [Txt "Invalid cache format"]]) s).
Proof.
  intros Hitem Hne Hparse.
  unfold getCacheData, bind, gets. simpl.
  rewrite Hitem. simpl. rewrite Hne.
  destruct Hparse as [-> | ->]; reflexivity.
Qed.

(** X19: a corrupted entry is a miss. When the text stored under the key of
    the URL is not JSON (or is the JSON text null), a call with caching on
    logs [Invalid cache format], calls the network, and on success returns
    the network's payload and overwrites the entry with it. *)
Theorem request_overwrites_corrupted_entry (api : Api) (endpoint : string)
    (opts : RequestOptions) (s : Session) (item : string) (elapsed st : Z)
    (json : list (string * JsVal)) (rest : list (Z * Answer)) :
  default true (useCache opts) = true ->
  storage s !! cacheKey_of (baseUrl api +:+ endpoint) = Some item ->
  JsString.nonempty item = true ->
  JSON_parse P item = None \/ JSON_parse P item = Some JNull ->
  inbox s
  = (elapsed, Respond {| resp_status := st; resp_json := Some (JObj json) |})
    :: rest ->
  (200 <= st <= 299)%Z ->
  exists resp s',
    request P api endpoint opts s = Resolved resp s'
    /\ data resp = property (JObj json) "data"
    /\ network s' = network s ++ [call_of P api endpoint opts]
    /\ storage s'
       = <[cacheKey_of (baseUrl api +:+ endpoint) :=
             JSON_stringify P
               (cache_item (property (JObj json) "data") (now s + elapsed))]>
           (storage s)
    /\ line Warn (logger_prefix api) "getCacheData" [Txt "Invalid cache format"]
       ∈ Api.console s'.
Proof.
  intros Huse Hitem Hne Hparse Hin Hst.
  pose proof (getCacheData_invalid api _ item
                (set_console (fun c => c ++ [request_line api endpoint opts]) s)
                Hitem Hne Hparse) as Hget.
  destruct (request_falsy_cache P api endpoint opts s _ JNull elapsed st json
              rest
              (eq_trans (f_equal (fun use => getCacheData P api _ use _) Huse)
                 Hget)
              eq_refl Hin Hst)
    as (resp & s' & Hreq & Hdata & _ & Hnet & Hcon & _ & _ & Hsto).
  rewrite Huse in Hsto.
  exists resp, s'. repeat split; try assumption.
  rewrite Hcon. simpl. apply elem_of_app. right.
  apply list_elem_of_singleton. reflexivity.
Qed.

(** X20: a POST is answered from the cache like any other call. With
    caching on (the default) and a fresh entry with a truthy payload under
    the URL, [post] returns the cached payload with status 200 and sends
    nothing: the key of an entry is the URL alone, not the method or the
    body. *)
Theorem post_served_from_cache (api : Api) (endpoint : string) (b : JsVal)
    (opts : RequestOptions) (s : Session) (item : string) (d : JsVal) (t : Z) :
  method opts = None ->
  default true (useCache opts) = true ->
  storage s !! cacheKey_of (baseUrl api +:+ endpoint) = Some item ->
  JsString.nonempty item = true ->
  JSON_parse P item = Some (cache_item d t) ->
  (now s - t < cacheDuration)%Z ->
  truthy d = true ->
  exists resp s',
    post P api endpoint b opts s = Resolved resp s'
    /\ data resp = d /\ status resp = 200%Z /\ r_method resp = POST
    /\ network s' = network s /\ storage s' = storage s.
Proof.
  intros Hm Huse Hitem Hne Hparse Hfresh Hd.
  unfold post, fetch, with_body. simpl. rewrite Hm.
  unfold request, bind at 1, logger at 1, modify. simpl useCache.
  rewrite Huse. unfold bind at 1.
  erewrite getCacheData_fresh; eauto. rewrite Hd.
  unfold ret. eexists _, _. split; [reflexivity|]. simpl. auto 10.
Qed.

(** X21: what a call caches, a later call reads back. When the store has no
    entry for the URL, a call with caching on that succeeds with a truthy
    payload writes it with the time of the write; if [JSON.parse] reads the
    written text back, a second call for the URL less than an hour later
    (whatever its method, body and headers) returns that payload with
    status 200 and makes no network call. *)
Theorem request_twice_within_the_hour (api : Api) (endpoint : string)
    (opts opts2 : RequestOptions) (s : Session) (elapsed st dt : Z)
    (json : list (string * JsVal)) (rest : list (Z * Answer)) :
  let d := property (JObj json) "data" in
  let item := JSON_stringify P (cache_item d (now s + elapsed)) in
  default true (useCache opts) = true ->
  default true (useCache opts2) = true ->
  storage s !! cacheKey_of (baseUrl api +:+ endpoint) = None ->
  inbox s
  = (elapsed, Respond {| resp_status := st; resp_json := Some (JObj json) |})
    :: rest ->
  (200 <= st <= 299)%Z ->
  truthy d = true ->
  JsString.nonempty item = true ->
  JSON_parse P item = Some (cache_item d (now s + elapsed)) ->
  (0 <= dt < cacheDuration)%Z ->
  exists r1 s1 r2 s2,
    request P api endpoint opts s = Resolved r1 s1
    /\ data r1 = d /\ status r1 = st
    /\ request P api endpoint opts2 (later dt s1) = Resolved r2 s2
    /\ data r2 = d /\ status r2 = 200%Z
    /\ network s2 = network s ++ [call_of P api endpoint opts].
Proof.
  intros d item Huse Huse2 Hnone Hin Hst Hd Hne Hparse Hdt.
  assert (Hget : getCacheData P api (cacheKey_of (baseUrl api +:+ endpoint))
                   (default true (useCache opts))
                   (set_console (fun c => c ++ [request_line api endpoint opts]) s)
                 = Resolved JNull
                     (set_console
                        (fun c => c ++ [request_line api endpoint opts]) s)).
  { rewrite Huse. apply getCacheData_absent. exact Hnone. }
  destruct (request_falsy_cache P api endpoint opts s _ JNull elapsed st json
              rest Hget eq_refl Hin Hst)
    as (r1 & s1 & Hreq & Hdata & Hstatus & Hnet & _ & Hnow & _ & Hsto).
  rewrite Huse in Hsto.
  destruct (request_served_from_cache P api endpoint opts2 (later dt s1) item d
              (now s + elapsed) Huse2) as (r2 & s2 & Hreq2 & Hd2 & Hs2 & Hn2 & _).
  - simpl. rewrite Hsto. apply lookup_insert_eq.
  - exact Hne.
  - exact Hparse.
  - simpl. rewrite Hnow. lia.
  - exact Hd.
  - exists r1, s1, r2, s2. repeat split; try assumption.
    rewrite Hn2. simpl. exact Hnet.
Qed.

(** X22: an entry lasts less than an hour. After a call has cached a payload, a
    second call an hour or more after the write (3 600 000 ms exactly
    included) logs [Cache expired], calls the network again and, on
    success, returns the new payload and replaces the entry. *)
Theorem request_twice_after_the_hour (api : Api) (endpoint : string)
    (opts opts2 : RequestOptions) (s : Session) (elapsed st dt e2 st2 : Z)
    (json json2 : list (string * JsVal)) (rest : list (Z * Answer)) :
  let d := property (JObj json) "data" in
  let item := JSON_stringify P (cache_item d (now s + elapsed)) in
  default true (useCache opts) = true ->
  default true (useCache opts2) = true ->
  storage s !! cacheKey_of (baseUrl api +:+ endpoint) = None ->
  inbox s
  = (elapsed, Respond {| resp_status := st; resp_json := Some (JObj json) |})
    :: (e2, Respond {| resp_status := st2; resp_json := Some (JObj json2) |})
    :: rest ->
  (200 <= st <= 299)%Z -> (200 <= st2 <= 299)%Z ->
  JsString.nonempty item = true ->
  JSON_parse P item = Some (cache_item d (now s + elapsed)) ->
  (cacheDuration <= dt)%Z ->
  exists r1 s1 r2 s2,
    request P api endpoint opts s = Resolved r1 s1
    /\ data r1 = d
    /\ request P api endpoint opts2 (later dt s1) = Resolved r2 s2
    /\ data r2 = property (JObj json2) "data"
    /\ network s2
       = network s
         ++ [call_of P api endpoint opts; call_of P api endpoint opts2]
    /\ storage s2 !! cacheKey_of (baseUrl api +:+ endpoint)
       = Some (JSON_stringify P
                 (cache_item (property (JObj json2) "data")
                    (now s + elapsed + dt + e2))).
Proof.
  intros d item Huse Huse2 Hnone Hin Hst Hst2 Hne Hparse Hdt.
  assert (Hget : getCacheData P api (cacheKey_of (baseUrl api +:+ endpoint))
                   (default true (useCache opts))
                   (set_console (fun c => c ++ [request_line api endpoint opts]) s)
                 = Resolved JNull
                     (set_console
                        (fun c => c ++ [request_line api endpoint opts]) s)).
  { rewrite Huse. apply getCacheData_absent. exact Hnone. }
  destruct (request_falsy_cache P api endpoint opts s _ JNull elapsed st json
              _ Hget eq_refl Hin Hst)
    as (r1 & s1 & Hreq & Hdata & _ & Hnet & _ & Hnow & Hinbox & Hsto).
  rewrite Huse in Hsto.
  destruct (request_miss_fetches_and_caches P api endpoint opts2 (later dt s1)
              e2 st2 json2 rest Huse2)
    as (r2 & s2 & Hreq2 & Hd2 & Hn2 & Hsto2).
  - right. exists item, d, (now s + elapsed)%Z. simpl. rewrite Hsto.
    split; [apply lookup_insert_eq|]. repeat split; try assumption.
    rewrite Hnow. lia.
  - simpl. exact Hinbox.
  - exact Hst2.
  - exists r1, s1, r2, s2. repeat split; try assumption.
    + rewrite Hn2. simpl. rewrite Hnet, <- List.app_assoc. reflexivity.
    + rewrite Hsto2, lookup_insert_eq. simpl. rewrite Hnow. reflexivity.
Qed.

(** X23: with [useCache] false the store plays no part: the call reads no
    entry (a fresh one included), makes exactly one network call and
    writes nothing, however it ends; on success it returns the network's
    payload. *)
Theorem request_without_cache_ignores_store (api : Api) (endpoint : string)
    (opts : RequestOptions) (s : Session) :
  useCache opts = Some false ->
  (exists s',
     state_of (request P api endpoint opts s) = Some s'
     /\ storage s' = storage s
     /\ network s' = network s ++ [call_of P api endpoint opts])
  /\ (forall elapsed st json rest,
        inbox s
        = (elapsed,
           Respond {| resp_status := st; resp_json := Some (JObj json) |})
          :: rest ->
        (200 <= st <= 299)%Z ->
        exists resp s',
          request P api endpoint opts s = Resolved resp s'
          /\ data resp = property (JObj json) "data" /\ status resp = st).
Proof.
  intros Huse. split; [apply request_without_cache, Huse|].
  intros elapsed st json rest Hin Hst.
  destruct (request_falsy_cache P api endpoint opts s
              (set_console (fun c => c ++ [request_line api endpoint opts]) s)
              JNull elapsed st json rest)
    as (resp & s' & Hreq & Hdata & Hstatus & _); try assumption.
  - rewrite Huse. reflexivity.
  - reflexivity.
  - eauto.
Qed.

(** X24: a call that is rejected has changed nothing in the store: it made
    one network call, wrote no entry, and the last line on the console is
    the error it was rejected with, under the URL and the method of the
    call. *)
Theorem request_rejected_leaves_store (api : Api) (endpoint : string)
    (opts : RequestOptions) (s s' : Session) (e : string) :
  request P api endpoint opts s = Rejected e s' ->
  storage s' = storage s
  /\ network s' = network s ++ [call_of P api endpoint opts]
  /\ last (Api.console s') = Some (error_line api endpoint opts e).
Proof.
  unfold request, try_catch, bind, logger, modify, window_fetch.
  fold (request_line api endpoint opts).
  destruct (getCacheData_frame P api (cacheKey_of (baseUrl api +:+ endpoint))
              (default true (useCache opts))
              (set_console (fun c => c ++ [request_line api endpoint opts]) s))
    as (v & c & ->).
  destruct (truthy v); [discriminate|]. simpl.
  destruct (inbox s) as [|[elapsed [err|resp]] rest]; simpl.
  - intros H. injection H as <- <-. simpl. rewrite last_snoc. auto.
  - intros H. injection H as <- <-. simpl. rewrite last_snoc. auto.
  - destruct (ok resp); simpl.
    + destruct (resp_json resp) as [[]|]; simpl;
        try (intros H; injection H as <- <-; simpl; rewrite last_snoc;
             now auto);
        destruct (default true (useCache opts)); simpl; discriminate.
    + intros H. injection H as <- <-. simpl. rewrite last_snoc. auto.
Qed.

(** X25: what [post] sends. Without caching, [post] makes one network call
    with the method POST; a truthy body is sent as JSON with the header
    [Content-Type: application/json], which overrides a Content-Type given
    by the caller or the instance; a falsy body (0, false, the empty
    string, null, undefined) is not sent at all, and then no header is
    added. *)
Theorem post_sends_truthy_body_only (api : Api) (endpoint : string)
    (b : JsVal) (opts : RequestOptions) (s : Session) :
  method opts = None -> useCache opts = Some false ->
  exists s' init,
    state_of (post P api endpoint b opts s) = Some s'
    /\ network s' = network s ++ [(baseUrl api +:+ endpoint, init)]
    /\ init_method init = POST
    /\ (truthy b = true ->
        init_body init = Some (JSON_stringify P b)
        /\ init_headers init !! "Content-Type" = Some "application/json")
    /\ (truthy b = false ->
        init_body init = None
        /\ init_headers init = default ∅ (headers opts) ∪ api_headers api).
Proof.
  intros Hm Huse.
  destruct (request_without_cache P api endpoint
              {| method := Some POST; body := Some b; headers := headers opts;
                 useCache := useCache opts |} s Huse)
    as (s' & Hstate & _ & Hnet).
  exists s', (snd (call_of P api endpoint
                     {| method := Some POST; body := Some b;
                        headers := headers opts; useCache := useCache opts |})).
  unfold post, fetch, with_body. simpl. rewrite Hm.
  split; [exact Hstate|]. split; [exact Hnet|]. split; [reflexivity|].
  unfold call_of. simpl. split; intros Hb.
  - destruct b; try discriminate; simpl in *; rewrite ?Hb;
      (split; [reflexivity|]);
      rewrite <- (assoc_L (∪)); apply lookup_union_Some_l, lookup_singleton_eq.
  - destruct b; simpl in *; rewrite ?Hb; try discriminate;
      (split; [reflexivity|]); rewrite (left_id_L ∅ (∪)); reflexivity.
Qed.

(** X26: [reload()] repeats the call. The reload of any response that
    [request] has returned, from the cache or from the network, makes
    exactly one network call with the URL, method, headers and body of the
    original call, bypasses the cache and writes nothing. *)
Theorem reload_repeats_the_call (api : Api) (endpoint : string)
    (opts : RequestOptions) (s s1 s2 : Session) (r : ApiResponse) :
  request P api endpoint opts s = Resolved r s1 ->
  exists s3,
    state_of (call_reload P api r s2) = Some s3
    /\ storage s3 = storage s2
    /\ network s3 = network s2 ++ [call_of P api endpoint opts].
Proof.
  intros Hreq. apply reload_leaves_store.
  eapply request_reload, Hreq.
Qed.

End Properties.

Lemma request_overwrites_corrupted_entry_witness :
  exists resp s',
    request zero_platform example_api "/count" no_options
      (session Cases.corrupted 2000 [answer 200 (JNum 7)])
    = Resolved resp s'
    /\ data resp = property (JObj [("data", JNum 7)]) "data"
    /\ network s'
       = network (session Cases.corrupted 2000 [answer 200 (JNum 7)])
         ++ [call_of zero_platform example_api "/count" no_options]
    /\ storage s'
       = <[cacheKey_of (baseUrl example_api +:+ "/count") :=
             JSON_stringify zero_platform
               (cache_item (property (JObj [("data", JNum 7)]) "data")
                  (now (session Cases.corrupted 2000 [answer 200 (JNum 7)])
                   + 40))]>
           (storage (session Cases.corrupted 2000 [answer 200 (JNum 7)]))
    /\ line Warn (logger_prefix example_api) "getCacheData"
         [Txt "Invalid cache format"]
       ∈ Api.console s'.
Proof.
  apply (request_overwrites_corrupted_entry zero_platform example_api "/count"
           no_options (session Cases.corrupted 2000 [answer 200 (JNum 7)])
           "<html>502</html>" 40 200 [("data", JNum 7)] []).
  - reflexivity.
  - reflexivity.
  - reflexivity.
  - left. reflexivity.
  - reflexivity.
  - lia.
Defined.

Lemma post_served_from_cache_witness :
  exists resp s',
    post Cases.five_platform example_api "/count" (JNum 6) no_options
      (session Cases.cached_five 2000 [answer 200 (JNum 6)])
    = Resolved resp s'
    /\ data resp = JNum 5 /\ status resp = 200%Z /\ r_method resp = POST
    /\ network s' = network (session Cases.cached_five 2000 [answer 200 (JNum 6)])
    /\ storage s' = storage (session Cases.cached_five 2000 [answer 200 (JNum 6)]).
Proof.
  apply (post_served_from_cache Cases.five_platform example_api "/count"
           (JNum 6) no_options _
           (print (JObj [("data", JNum 5); ("timestamp", JNum 1000)]))
           (JNum 5) 1000).
  - reflexivity.
  - reflexivity.
  - reflexivity.
  - reflexivity.
  - reflexivity.
  - reflexivity.
  - reflexivity.
Defined.

Lemma request_twice_within_the_hour_witness :
  exists r1 s1 r2 s2,
    request Cases.seven_platform example_api "/count" no_options
      (session ∅ 0 [answer 201 (JNum 7)])
    = Resolved r1 s1
    /\ data r1 = JNum 7 /\ status r1 = 201%Z
    /\ request Cases.seven_platform example_api "/count"
         {| method := Some DELETE; body := None; headers := None;
            useCache := None |}
         (later 3599999 s1)
       = Resolved r2 s2
    /\ data r2 = JNum 7 /\ status r2 = 200%Z
    /\ network s2
       = network (session ∅ 0 [answer 201 (JNum 7)])
         ++ [call_of Cases.seven_platform example_api "/count" no_options].
Proof.
  apply (request_twice_within_the_hour Cases.seven_platform example_api
           "/count" no_options
           {| method := Some DELETE; body := None; headers := None;
              useCache := None |}
           (session ∅ 0 [answer 201 (JNum 7)]) 40 201 3599999
           [("data", JNum 7)] []).
  - reflexivity.
  - reflexivity.
  - reflexivity.
  - reflexivity.
  - lia.
  - reflexivity.
  - reflexivity.
  - reflexivity.
  - unfold cacheDuration. lia.
Defined.

Lemma request_twice_after_the_hour_witness :
  exists r1 s1 r2 s2,
    request Cases.seven_platform example_api "/count" no_options
      (session ∅ 0 [answer 200 (JNum 7); answer 200 (JNum 8)])
    = Resolved r1 s1
    /\ data r1 = JNum 7
    /\ request Cases.seven_platform example_api "/count" no_options
         (later 3600000 s1)
       = Resolved r2 s2
    /\ data r2 = JNum 8
    /\ network s2
       = network (session ∅ 0 [answer 200 (JNum 7); answer 200 (JNum 8)])
         ++ [call_of Cases.seven_platform example_api "/count" no_options;
             call_of Cases.seven_platform example_api "/count" no_options]
    /\ storage s2 !! cacheKey_of (baseUrl example_api +:+ "/count")
       = Some (JSON_stringify Cases.seven_platform
                 (cache_item (JNum 8) (0 + 40 + 3600000 + 40))).
Proof.
  apply (request_twice_after_the_hour Cases.seven_platform example_api
           "/count" no_options no_options
           (session ∅ 0 [answer 200 (JNum 7); answer 200 (JNum 8)])
           40 200 3600000 40 200 [("data", JNum 7)] [("data", JNum 8)] []).
  - reflexivity.
  - reflexivity.
  - reflexivity.
  - reflexivity.
  - lia.
  - lia.
  - reflexivity.
  - reflexivity.
  - unfold cacheDuration. lia.
Defined.

Lemma request_without_cache_ignores_store_witness :
  (exists s',
     state_of (request Cases.five_platform example_api "/count"
                 (without_cache no_options)
                 (session Cases.cached_five 2000 [answer 200 (JNum 6)]))
     = Some s'
     /\ storage s'
        = storage (session Cases.cached_five 2000 [answer 200 (JNum 6)])
     /\ network s'
        = network (session Cases.cached_five 2000 [answer 200 (JNum 6)])
          ++ [call_of Cases.five_platform example_api "/count"
                (without_cache no_options)])
  /\ (forall elapsed st json rest,
        inbox (session Cases.cached_five 2000 [answer 200 (JNum 6)])
        = (elapsed,
           Respond {| resp_status := st; resp_json := Some (JObj json) |})
          :: rest ->
        (200 <= st <= 299)%Z ->
        exists resp s',
          request Cases.five_platform example_api "/count"
            (without_cache no_options)
            (session Cases.cached_five 2000 [answer 200 (JNum 6)])
          = Resolved resp s'
          /\ data resp = property (JObj json) "data" /\ status resp = st).
Proof.
  apply (request_without_cache_ignores_store Cases.five_platform example_api
           "/count" (without_cache no_options)
           (session Cases.cached_five 2000 [answer 200 (JNum 6)])).
  reflexivity.
Defined.

Lemma request_rejected_leaves_store_witness :
  exists s',
    request zero_platform example_api "/count" no_options
      (session cached_zero 2000 [(40%Z, NetworkError "TypeError: offline")])
    = Rejected "TypeError: offline" s'
    /\ (storage s'
        = storage (session cached_zero 2000
                     [(40%Z, NetworkError "TypeError: offline")])
        /\ network s'
           = network (session cached_zero 2000
                        [(40%Z, NetworkError "TypeError: offline")])
             ++ [call_of zero_platform example_api "/count" no_options]
        /\ last (Api.console s')
           = Some (error_line example_api "/count" no_options
                     "TypeError: offline")).
Proof.
  eexists. split; [vm_compute; reflexivity|].
  apply (request_rejected_leaves_store zero_platform example_api "/count"
           no_options
           (session cached_zero 2000 [(40%Z, NetworkError "TypeError: offline")])).
  vm_compute. reflexivity.
Defined.

Lemma post_sends_truthy_body_only_witness :
  exists s' init,
    state_of (post zero_platform example_api "/count" (JNum 0)
                (without_cache no_options)
                (session ∅ 0 [answer 200 (JNum 1)])) = Some s'
    /\ network s'
       = network (session ∅ 0 [answer 200 (JNum 1)])
         ++ [(baseUrl example_api +:+ "/count", init)]
    /\ init_method init = POST
    /\ (truthy (JNum 0) = true ->
        init_body init = Some (JSON_stringify zero_platform (JNum 0))
        /\ init_headers init !! "Content-Type" = Some "application/json")
    /\ (truthy (JNum 0) = false ->
        init_body init = None
        /\ init_headers init
           = default ∅ (headers (without_cache no_options))
             ∪ api_headers example_api).
Proof.
  apply (post_sends_truthy_body_only zero_platform example_api "/count"
           (JNum 0) (without_cache no_options)
           (session ∅ 0 [answer 200 (JNum 1)]));
    reflexivity.
Defined.

Lemma reload_repeats_the_call_witness :
  exists r s1,
    request Cases.five_platform example_api "/count" no_options
      (session Cases.cached_five 2000 [])
    = Resolved r s1
    /\ exists s3,
         state_of (call_reload Cases.five_platform example_api r
                     (session Cases.cached_five 3000 [answer 200 (JNum 6)]))
         = Some s3
         /\ storage s3
            = storage (session Cases.cached_five 3000 [answer 200 (JNum 6)])
         /\ network s3
            = network (session Cases.cached_five 3000 [answer 200 (JNum 6)])
              ++ [call_of Cases.five_platform example_api "/count" no_options].
Proof.
  eexists _, _. split; [vm_compute; reflexivity|].
  eapply (reload_repeats_the_call Cases.five_platform example_api "/count"
            no_options (session Cases.cached_five 2000 [])).
  vm_compute. reflexivity.
Defined.

End ApiProperties.

(** ** The injector: which script reaches which tab *)
Module InjectorFacts.
Import Framework Injector.

Section Facts.
Variable C : Chrome.
Local Open Scope js_scope.

(** How fetchScript ends, by what the extension's fetch gives. *)
Lemma fetchScript_cases (name : string) (b : Browser) :
  exists b1,
    match script_fetch C (script_url C name) with
    | FetchResponds r =>
        if res_ok r then
          match res_text r with
          | inl text => fetchScript C name b = Resolved text b1
          | inr e => fetchScript C name b = Rejected e b1
          end
        else fetchScript C name b = Rejected (not_loaded C name) b1
    | FetchRejects _ =>
        fetchScript C name b = Rejected (not_loaded C name) b1
    end
    /\ requested b1 = requested b ++ [script_url C name]
    /\ injections b1 = injections b /\ responses b1 = responses b.
Proof.
  unfold fetchScript, not_loaded, script_url, try_catch, bind, logger, modify,
    throw, ret.
  destruct (script_fetch C _) as [e|r]; simpl.
  - eexists. split; [reflexivity|]. simpl. auto.
  - destruct (res_ok r); simpl.
    + destruct (res_text r); eexists; (split; [reflexivity|]); simpl; auto.
    + eexists. split; [reflexivity|]. simpl. auto.
Qed.


Lemma injectScript_rejected (tabId : Z) (name e : string) (b b1 : Browser) :
  fetchScript C name b = Rejected e b1 ->
  injectScript C tabId name b = Rejected e b1.
Proof. intros H. unfold injectScript, bind at 1. rewrite H. reflexivity. Qed.

(** X28: injectScript injects what it fetched, or nothing: however the call
    ends, executeScript was called at most once, and if it was called, it
    was for the given tab and script with the text of a 2xx response as
    content; when the script cannot be fetched executeScript is not
    called and the call is rejected. *)
Theorem injectScript_injects_fetched_text (tabId : Z) (name : string)
    (b b' : Browser) :
  state_of (injectScript C tabId name b) = Some b' ->
  (injections b' = injections b
   /\ exists e, injectScript C tabId name b = Rejected e b')
  \/ (exists r text,
        script_fetch C (script_url C name) = FetchResponds r
        /\ res_ok r = true /\ res_text r = inl text
        /\ injections b' = injections b ++ [(tabId, name, text)]).
Proof.
  destruct (fetchScript_cases name b) as (b1 & Hcase & _ & Hinj & _).
  destruct (script_fetch C (script_url C name)) as [err|r] eqn:Hfetch.
  - rewrite (injectScript_rejected tabId _ _ _ _ Hcase). simpl.
    intros [= <-]. left. split; [exact Hinj|eauto].
  - destruct (res_ok r) eqn:Hok.
    + destruct (res_text r) as [text|err] eqn:Htext.
      * unfold injectScript, bind at 1. rewrite Hcase.
        unfold bind, logger, modify. simpl.
        destruct (executeScript C tabId name text); simpl;
          intros [= <-]; right; exists r, text; simpl; rewrite Hinj; auto.
      * rewrite (injectScript_rejected tabId _ _ _ _ Hcase). simpl.
        intros [= <-]. left. split; [exact Hinj|eauto].
    + rewrite (injectScript_rejected tabId _ _ _ _ Hcase). simpl.
      intros [= <-]. left. split; [exact Hinj|eauto].
Qed.

(** X29: without an active tab that has an id, handleActiveTab does not run
    its callback: whatever the callback is, nothing is fetched or
    injected, and [next], when it is given, is told once, with [No active
    tab found] when the query gives no tab and [Tab ID is undefined] when
    the first tab has no id. *)
Theorem handleActiveTab_without_tab (callback : Z -> M Browser unit)
    (next : option ResponseFn) (b : Browser) :
  head (tabs_query C) = None \/ head (tabs_query C) = Some None ->
  exists b',
    state_of (handleActiveTab C callback next b) = Some b'
    /\ requested b' = requested b /\ injections b' = injections b
    /\ responses b'
       = responses b
         ++ told next (match tabs_query C with
                       | [] => "No active tab found"
                       | _ => "Tab ID is undefined"
                       end).
Proof.
  intros Htab. unfold handleActiveTab, bind at 1, logger, modify.
  destruct (tabs_query C) as [|[tabId|] tabs]; simpl in Htab.
  - destruct next as [[|e]|]; eexists; simpl; repeat split;
      simpl; rewrite ?List.app_nil_r; reflexivity.
  - destruct Htab as [Htab|Htab]; discriminate.
  - destruct next as [[|e]|]; eexists; simpl; repeat split;
      simpl; rewrite ?List.app_nil_r; reflexivity.
Qed.

(** X30: injecting into the active tab. When the first tab of the query has
    an id, the script is fetched with a 2xx response and executeScript
    succeeds, handleActiveTab with the injecting callback is fulfilled,
    the script was fetched once and injected once, into that tab, and
    [next] was told nothing. *)
Theorem handleActiveTab_injects (name : string) (next : option ResponseFn)
    (tabId : Z) (r : ScriptResponse) (text : string) (b : Browser) :
  head (tabs_query C) = Some (Some tabId) ->
  script_fetch C (script_url C name) = FetchResponds r ->
  res_ok r = true -> res_text r = inl text ->
  executeScript C tabId name text = None ->
  exists b',
    handleActiveTab C (inject C name) next b = Resolved tt b'
    /\ requested b' = requested b ++ [script_url C name]
    /\ injections b' = injections b ++ [(tabId, name, text)]
    /\ responses b' = responses b.
Proof.
  intros Htab Hfetch Hok Htext Hexec.
  unfold handleActiveTab, bind at 1, logger at 1, modify.
  destruct (tabs_query C) as [|[t|] tabs]; try discriminate.
  injection Htab as ->.
  unfold bind at 1, logger at 1, modify, inject.
  set (b0 := set_console _ (set_console _ b)).
  destruct (fetchScript_cases name b0) as (b1 & Hcase & Hreq & Hinj & Hresp).
  rewrite Hfetch, Hok, Htext in Hcase.
  unfold injectScript, bind at 1. rewrite Hcase.
  unfold bind, logger, modify. rewrite Hexec.
  eexists. split; [reflexivity|]. simpl. rewrite Hreq, Hinj, Hresp. auto.
Qed.

End Facts.


Lemma injectScript_injects_fetched_text_witness :
  exists b',
    state_of (injectScript Cases.one_script 7 "probe" Cases.fresh_browser)
    = Some b'
    /\ ((injections b' = injections Cases.fresh_browser
         /\ exists e, injectScript Cases.one_script 7 "probe"
                        Cases.fresh_browser = Rejected e b')
        \/ (exists r text,
              script_fetch Cases.one_script
                (script_url Cases.one_script "probe") = FetchResponds r
              /\ res_ok r = true /\ res_text r = inl text
              /\ injections b'
                 = injections Cases.fresh_browser ++ [(7%Z, "probe", text)])).
Proof.
  eexists. split; [vm_compute; reflexivity|].
  apply (injectScript_injects_fetched_text Cases.one_script 7 "probe"
           Cases.fresh_browser).
  vm_compute. reflexivity.
Defined.

Lemma handleActiveTab_without_tab_witness :
  exists b',
    state_of (handleActiveTab Cases.no_tab (inject Cases.no_tab "probe")
                (Some Replies) Cases.fresh_browser) = Some b'
    /\ requested b' = requested Cases.fresh_browser
    /\ injections b' = injections Cases.fresh_browser
    /\ responses b'
       = responses Cases.fresh_browser
         ++ told (Some Replies)
              (match tabs_query Cases.no_tab with
               | [] => "No active tab found"
               | _ => "Tab ID is undefined"
               end).
Proof.
  apply (handleActiveTab_without_tab Cases.no_tab
           (inject Cases.no_tab "probe") (Some Replies) Cases.fresh_browser).
  left. reflexivity.
Defined.

Lemma handleActiveTab_injects_witness :
  exists b',
    handleActiveTab Cases.one_script (inject Cases.one_script "probe")
      (Some Replies) Cases.fresh_browser
    = Resolved tt b'
    /\ requested b'
       = requested Cases.fresh_browser
         ++ [script_url Cases.one_script "probe"]
    /\ injections b'
       = injections Cases.fresh_browser ++ [(7%Z, "probe", "console.log(1)")]
    /\ responses b' = responses Cases.fresh_browser.
Proof.
  apply (handleActiveTab_injects Cases.one_script "probe" (Some Replies) 7
           {| res_status := 200; res_statusText := "OK";
              res_text := inl "console.log(1)" |}
           "console.log(1)" Cases.fresh_browser);
    reflexivity.
Defined.

End InjectorFacts.
